(** * sbi: atom-based contrastive losses, the ratio-estimator training
      protocol and the normalizing-flow registries

    A shallow embedding of
    - [sbi/samplers/vi/vi_pyro_flows.py]  (transform and flow-builder
      registries, [build_flow]),
    - [sbi/inference/snpe/snpe_c.py]      ([SNPE_C._log_prob_proposal_posterior]),
    - [sbi/inference/snre/snre_base.py]   ([RatioEstimator], its
      [PotentialFunctionProvider]).

    Conventions.  Python [int]s are [Z] (or [nat] where the code counts),
    tensors are lists (a matrix is a list of rows, row-major), Python
    dictionaries are finite maps, module-level globals and [self] are
    explicit records, and a raised Python exception is the [Raise] case of
    [result].  A Python [float] is an IEEE 754 binary64 number, with the
    correctly rounded operations of [SpecFloat].  Tensor entries are kept
    abstract: the code only moves them around and hands them to torch
    primitives, which are section variables. *)

From Stdlib Require Import ZArith QArith Qround Lqa Lia Ascii String.
From Stdlib Require Import Floats.SpecFloat.
From stdpp Require Import base option list strings gmap.

Set Default Proof Using "Type".

(** ** Python exceptions *)

Inductive exn : Type :=
  | ValueError (msg : string)
  | KeyError (key : string)
  | IndexError
  | TypeError
  | StopIteration
  | AssertionError (msg : string)
  | RuntimeError (msg : string)
  | OverflowError (msg : string).

Inductive result (A : Type) : Type :=
  | Raise (e : exn)
  | Ok (a : A).
Arguments Raise {A} e.
Arguments Ok {A} a.

#[global] Instance result_ret : MRet result := λ A a, Ok a.
#[global] Instance result_bind : MBind result := λ A B k m,
  match m with
  | Raise e => Raise e
  | Ok a => k a
  end.
#[global] Instance result_fmap : FMap result := λ A B f m,
  match m with
  | Raise e => Raise e
  | Ok a => Ok (f a)
  end.

Definition raises {A} (m : result A) : Prop := ∃ e, m = Raise e.
Definition returns {A} (m : result A) : Prop := ∃ a, m = Ok a.

Definition is_KeyError {A} (m : result A) : Prop := ∃ k, m = Raise (KeyError k).
Definition is_ValueError {A} (m : result A) : Prop := ∃ s, m = Raise (ValueError s).

(** [d[key]] on a Python dictionary. *)
Definition getitem {V} (d : gmap string V) (key : string) : result V :=
  match d !! key with
  | Some v => Ok v
  | None => Raise (KeyError key)
  end.

(** ** Python's [float] *)

Module Float64.

(** IEEE 754 binary64: 53 bits of precision; every operation rounds to
    nearest, ties to even. *)
Definition float : Type := spec_float.
Definition prec : Z := 53.
Definition emax : Z := 1024.

(** The float nearest to an int. *)
Definition nearest (n : Z) : float := binary_normalize prec emax n 0 false.

(** [float(n)], also where an int operand is converted for an operation
    with a float: an int beyond the range of the floats raises. *)
Definition of_int (n : Z) : result float :=
  match nearest n with
  | S754_infinity _ => Raise (OverflowError "int too large to convert to float")
  | x => Ok x
  end.

Definition sub (x y : float) : float := SFsub prec emax x y.
Definition mul (x y : float) : float := SFmul prec emax x y.
Definition div (x y : float) : float := SFdiv prec emax x y.

(** The float a decimal literal denotes, the one nearest to its value
    [num / den]: [0.1] is [literal 1 10]. *)
Definition literal (num den : Z) : float := div (nearest num) (nearest den).

(** [int(x)]: truncation towards zero. *)
Definition int (x : float) : result Z :=
  match x with
  | S754_zero _ => Ok 0%Z
  | S754_finite s m e =>
      Ok (cond_Zopp s (if (e <? 0)%Z then Z.shiftr (Z.pos m) (- e)
                       else Z.shiftl (Z.pos m) e))
  | S754_infinity _ =>
      Raise (OverflowError "cannot convert float infinity to integer")
  | S754_nan => Raise (ValueError "cannot convert float NaN to integer")
  end.


Definition is_zero (x : float) : Prop :=
  match x with
  | S754_zero _ => True
  | _ => False
  end.

End Float64.

(** ** [str.lower], on the ASCII letters *)

Definition is_upper (c : ascii) : bool :=
  let n := nat_of_ascii c in (65 <=? n)%nat && (n <=? 90)%nat.

Definition lower_ascii (c : ascii) : ascii :=
  if is_upper c then ascii_of_nat (nat_of_ascii c + 32) else c.

Fixpoint lower (s : string) : string :=
  match s with
  | EmptyString => EmptyString
  | String c s' => String (lower_ascii c) (lower s')
  end.

Fixpoint has_upper (s : string) : bool :=
  match s with
  | EmptyString => false
  | String c s' => is_upper c || has_upper s'
  end.

(** ** vi_pyro_flows.py: the two registries and [build_flow] *)

Module Flows.
Section flows.
(** [Arg]/[Val]: positional and keyword argument values; [Obj]: a
    constructed transform; [Dist]: a distribution handed in by the
    caller or returned by a builder. *)
Context {Arg Val Obj Dist : Type}.

#[local] Abbreviation Kw := (gmap string Val).

(** A registered class: its [__name__] and its constructor. *)
Record Cls : Type := {
  __name__ : string;
  __init__ : list Arg → Kw → result Obj
}.

(** An [inits] function: [(dim, **kwargs) -> (args, kwargs)]. *)
Definition Inits : Type := Z → Kw → result (list Arg * Kw).

(** A tensor shape, [torch.Size]. *)
Definition Shape : Type := list Z.

(** A link transform, seen through the shape of what it returns on an
    input of a given shape. *)
Record Link : Type := { link_shape : Shape → Shape }.

Inductive Base : Type :=
  | StandardNormal (event_shape : Shape)   (* Independent(Normal(0, 1), 1) *)
  | Given (d : Dist).

Inductive Flow : Type :=
  | Registered (t : Obj)
  | Permute (dim : Z)
  | BatchNorm (dim : Z)
  | LinkFlow (l : Link).

Record TransformedDistribution : Type := {
  base_dist : Base;
  transforms : list Flow
}.

(** A flow builder: [(event_shape, link_flow, **kwargs) -> Distribution],
    with its [__name__]. *)
Record Builder : Type := {
  builder_name : string;
  builder_call : Shape → Link → Kw → result TransformedDistribution
}.

(** The module-level dictionaries. *)
Record Globals : Type := {
  _TRANSFORMS : gmap string Cls;
  _TRANSFORMS_INITS : gmap string Inits;
  _FLOW_BUILDERS : gmap string Builder
}.

(** [vi_utils.filter_kwrags_for_func] is imported, not defined here. *)
Variable filter_kwrags_for_func : Cls → Kw → Kw.

Definition register_transform
    (cls : Cls) (name : option string) (inits : Inits) (g : Globals)
    : result Globals :=
  let cls_name := match name with
                  | None => __name__ cls
                  | Some n => n
                  end in
  if decide (is_Some (_TRANSFORMS g !! cls_name)) then
    Raise (ValueError ("The transform " +:+ cls_name +:+ " is already registered"))
  else
    Ok {| _TRANSFORMS := <[cls_name := cls]> (_TRANSFORMS g);
          _TRANSFORMS_INITS := <[cls_name := inits]> (_TRANSFORMS_INITS g);
          _FLOW_BUILDERS := _FLOW_BUILDERS g |}.

Definition get_transform (g : Globals) (name : string) (dim : Z) (kwargs : Kw)
    : result Obj :=
  let name := lower name in
  transform ← getitem (_TRANSFORMS g) name ;
  let overwritable_kwargs := filter_kwrags_for_func transform kwargs in
  inits ← getitem (_TRANSFORMS_INITS g) name ;
  '(args, default_kwargs) ← inits dim kwargs ;
  (* {**default_kwargs, **overwritable_kwargs}: the right one wins *)
  let kwargs := overwritable_kwargs ∪ default_kwargs in
  cls ← getitem (_TRANSFORMS g) name ;
  __init__ cls args kwargs.

Definition register_flow_builder
    (cls : Builder) (name : option string) (g : Globals) : result Globals :=
  let cls_name := match name with
                  | None => builder_name cls
                  | Some n => n
                  end in
  if decide (is_Some (_FLOW_BUILDERS g !! cls_name)) then
    Raise (ValueError ("The flow " +:+ cls_name +:+ " is not registered as default."))
  else
    Ok {| _TRANSFORMS := _TRANSFORMS g;
          _TRANSFORMS_INITS := _TRANSFORMS_INITS g;
          _FLOW_BUILDERS := <[cls_name := cls]> (_FLOW_BUILDERS g) |}.

Definition get_flow_builder
    (g : Globals) (name : string) (event_shape : Shape) (link_flow : Link)
    (kwargs : Kw) : result TransformedDistribution :=
  builder ← getitem (_FLOW_BUILDERS g) name ;
  builder_call builder event_shape link_flow kwargs.

(** [len(t)] of a tensor of shape [s]: the first dimension; a 0-d tensor
    has no [len]. *)
Definition len (s : Shape) : result Z :=
  match s with
  | [] => Raise TypeError
  | n :: _ => Ok n
  end.

(** [s[-1]]. *)
Definition last_dim (s : Shape) : result Z :=
  match last s with
  | None => Raise IndexError
  | Some n => Ok n
  end.

(** Lines 354-357: the probe of the link transform on [zeros(event_shape)]
    and the corrected event shape. *)
Definition working_event_shape (event_shape : Shape) (link_flow : Link)
    : result Shape :=
  l ← len (link_shape link_flow event_shape) ;
  let additional_dim := (λ e, l - e)%Z <$> event_shape in
  Ok (zip_with Z.sub event_shape additional_dim).

(** Lines 359-370: the base distribution and the working dimension.
    [torch.zeros(event_shape)] of the default base distribution refuses a
    negative size. *)
Definition default_base (event_shape : Shape) : result Base :=
  if decide (Forall (λ e, 0 ≤ e)%Z event_shape) then
    Ok (StandardNormal event_shape)
  else Raise (RuntimeError "Trying to create tensor with negative dimension").

Definition base_and_dim (event_shape : Shape) (link_flow : Link)
    (base : option Dist) : result (Shape * Base * Z) :=
  event_shape ← working_event_shape event_shape link_flow ;
  base_dist ← match base with
              | None => default_base event_shape
              | Some d => Ok (Given d)
              end ;
  (* event_shape is a torch.Size by now, never an int: dim = event_shape[-1] *)
  dim ← last_dim event_shape ;
  Ok (event_shape, base_dist, dim).

(** [transforms.permute(dim)] and [transforms.batchnorm(dim)] of pyro:
    the random permutation and the parameters of the batch normalization
    are tensors of size [dim], which torch refuses when it is negative. *)
Definition sized (f : Z → Flow) (dim : Z) : result (list Flow) :=
  if decide (dim < 0)%Z then
    Raise (RuntimeError "Trying to create tensor with negative dimension")
  else Ok [f dim].

(** The body of the [for i in range(num_flows)] loop.  The call
    [get_transform(transform, dim, **kwargs)] is a [TypeError] when a
    keyword argument is named like one of its two parameters. *)
Definition flow_layer (g : Globals) (transform : string) (dim : Z)
    (permute batch_norm : bool) (num_flows : nat) (kwargs : Kw) (i : nat)
    : result (list Flow) :=
  t ← (if decide (is_Some (kwargs !! "name") ∨ is_Some (kwargs !! "dim")) then
         Raise TypeError
       else get_transform g transform dim kwargs) ;
  p ← (if permute && (i <? num_flows - 1)%nat then sized Permute dim else Ok []) ;
  b ← (if batch_norm && (i <? num_flows - 1)%nat then sized BatchNorm dim
       else Ok []) ;
  Ok ([Registered t] ++ p ++ b).

Fixpoint flow_layers (g : Globals) (transform : string) (dim : Z)
    (permute batch_norm : bool) (num_flows : nat) (kwargs : Kw)
    (range : list nat) : result (list Flow) :=
  match range with
  | [] => Ok []
  | i :: range' =>
      fs ← flow_layer g transform dim permute batch_norm num_flows kwargs i ;
      rest ← flow_layers g transform dim permute batch_norm num_flows kwargs range' ;
      Ok (fs ++ rest)
  end.

Definition build_flow
    (g : Globals) (event_shape : Shape) (link_flow : Link) (num_flows : Z)
    (transform : string) (permute batch_norm : bool)
    (base : option Dist) (kwargs : Kw) : result TransformedDistribution :=
  '(event_shape, base_dist, dim) ← base_and_dim event_shape link_flow base ;
  let n := Z.to_nat num_flows in
  flows ← flow_layers g transform dim permute batch_norm n kwargs (seq 0 n) ;
  Ok {| base_dist := base_dist;
        transforms := flows ++ [LinkFlow link_flow] |}.

(** A flow of the chain was built for dimension [dim]: a registered
    transform is what [get_transform] returns for it, a permutation or a
    batch normalization carries it; the link transform is the caller's. *)
Definition built_for (g : Globals) (transform : string) (kwargs : Kw)
    (dim : Z) (f : Flow) : Prop :=
  match f with
  | Registered t => get_transform g transform dim kwargs = Ok t
  | Permute d | BatchNorm d => d = dim
  | LinkFlow _ => True
  end.

End flows.
End Flows.

(** ** Helpers of [sbi.utils] and torch primitives used by the losses *)

Module Utils.

(** Modelled from the spec: [sbi.utils.clamp_and_warn] is imported by
    both loss modules but not defined in them.  The spec has it clamp
    the value into the range [min_val, max_val] and log a warning when
    that changes it (section 4.1, section 7).  The second component says
    whether the warning is logged. *)
Definition clamp_and_warn (name : string) (value min_val max_val : Z)
    : Z * bool :=
  let clamped_val := Z.max min_val (Z.min value max_val) in
  (clamped_val, negb (clamped_val =? value)%Z).

(** Modelled from the spec: [sbi.utils.repeat_rows] is imported, not
    defined here.  Each row is duplicated [num_reps] times contiguously
    ([1, 2] becomes [1, 1, 2, 2]), section 4.1 and the comment at its
    call site. *)
Definition repeat_rows {A} (x : list A) (num_reps : Z) : list A :=
  mjoin (replicate (Z.to_nat num_reps) <$> x).

(** [copy.deepcopy]: a new object with the same value. *)
Definition deepcopy {A} (a : A) : A := a.

End Utils.

Module Torch.

(** [eye(n)[i][j]] *)
Definition eye (i j : nat) : Q := if decide (i = j) then 1%Q else 0%Q.

(** [ones(n, n) * (1 - eye(n)) / (n - 1)].  For a batch of one row the
    entry is [0 / 0], NaN in torch and 0 here; [multinomial] refuses the
    row either way. *)
Definition probs (batch_size : nat) : list (list Q) :=
  (λ i, (λ j, (1 * (1 - eye i j) / inject_Z (Z.of_nat batch_size - 1))%Q)
          <$> seq 0 batch_size) <$> seq 0 batch_size.

(** The categories of a weight row, each with its weight; [j] is the
    index of the first. *)
Fixpoint categories_from (j : nat) (w : list Q) : list (nat * Q) :=
  match w with
  | [] => []
  | q :: w' => (j, q) :: categories_from (S j) w'
  end.

(** The sum of the weights of the categories that are left. *)
Definition total (cands : list (nat * Q)) : Q :=
  foldr (λ c s, (c.2 + s)%Q) 0%Q cands.

(** The position of the category in whose stretch of the cumulative
    weights [target] lies. *)
Fixpoint locate (cands : list (nat * Q)) (target : Q) : nat :=
  match cands with
  | [] => 0
  | c :: cands' =>
      if Qle_bool c.2 target then S (locate cands' (target - c.2)) else 0
  end.

(** The fractional part of a raw random number, a point of [0, 1). *)
Definition frac (r : Q) : Q := (r - inject_Z (Qfloor r))%Q.

(** One draw among the categories that are left, each with a probability
    proportional to its weight.  Once only categories of weight zero are
    left, each of them is as likely as the others. *)
Definition pick (cands : list (nat * Q)) (r : Q) : nat :=
  if Qle_bool (total cands) 0 then
    Z.to_nat (Qfloor (frac r * inject_Z (Z.of_nat (length cands))))
  else locate cands (frac r * total cands).

(** Drawing [n] categories without replacement: the random number [u 0]
    decides the first draw, the next draw continues without the category
    drawn. *)
Fixpoint draw (cands : list (nat * Q)) (n : nat) (u : nat → Q)
    : result (list nat) :=
  match n with
  | O => Ok []
  | S n' =>
      let p := pick cands (u 0%nat) in
      match cands !! p with
      | None => Raise (RuntimeError "invalid multinomial distribution")
      | Some (j, _) =>
          js ← draw (delete p cands) n' (λ t, u (S t)) ;
          Ok (j :: js)
      end
  end.

(** [input.size(-1)] of a matrix. *)
Definition n_categories (input : list (list Q)) : nat :=
  match input with
  | [] => 0
  | w :: _ => length w
  end.

(** [torch.multinomial(input, num_samples, replacement=False)], one draw
    sequence per row; [u i] is the random source of row [i].  torch
    refuses a number of samples that is not positive or exceeds the number
    of categories, a negative weight, and a row whose weights sum to
    zero. *)
Definition multinomial (input : list (list Q)) (num_samples : Z)
    (u : nat → nat → Q) : result (list (list nat)) :=
  if decide (num_samples ≤ 0)%Z then
    Raise (RuntimeError "cannot sample n_sample <= 0 samples")
  else if decide (Z.of_nat (n_categories input) < num_samples)%Z then
    Raise (RuntimeError
             "cannot sample n_sample > prob_dist.size(-1) samples without replacement")
  else if negb (forallb (forallb (Qle_bool 0)) input) then
    Raise (RuntimeError
             "probability tensor contains either `inf`, `nan` or element < 0")
  else if existsb (λ w, Qle_bool (total (categories_from 0 w)) 0) input then
    Raise (RuntimeError "invalid multinomial distribution (sum of probabilities <= 0)")
  else
    mapM id (imap (λ i w, draw (categories_from 0 w) (Z.to_nat num_samples) (u i))
                  input).

(** [t[j]] for an index [j] along the first dimension. *)
Definition getrow {A} (t : list A) (j : nat) : result A :=
  match t !! j with
  | Some r => Ok r
  | None => Raise IndexError
  end.

(** [t.reshape(rows, cols)] of a 1-d tensor. *)
Definition reshape2 {A} (t : list A) (rows cols : nat) : result (list (list A)) :=
  if decide (length t = rows * cols)%nat then Ok (reshape (replicate rows cols) t)
  else Raise (RuntimeError "shape is invalid for input size").

(** An elementwise binary operation on 1-d tensors, with broadcasting of
    a length-1 operand. *)
Definition elementwise {A} (op : A → A → A) (a b : list A) : result (list A) :=
  if decide (length a = length b) then Ok (zip_with op a b)
  else match a, b with
       | [a0], _ => Ok (op a0 <$> b)
       | _, [b0] => Ok ((λ y, op y b0) <$> a)
       | _, _ => Raise (RuntimeError "The size of tensor a must match the size of tensor b")
       end.

(** [torch.cat((a, b), dim=1)] of two matrices. *)
Definition cat1 {A} (a b : list (list A)) : result (list (list A)) :=
  if decide (length a = length b) then Ok (zip_with app a b)
  else Raise (RuntimeError "Sizes of tensors must match except in dimension 1").

End Torch.

(** ** The atom construction shared by the two losses

  Lines 135-144 of snpe_c.py and lines 328-336 of snre_base.py are the
  same statements: the weight matrix, the draw of [num_atoms - 1]
  partners per row, the gather [theta[choices]], and the concatenation
  with the row itself, flattened to [batch_size * num_atoms] rows. *)

Module Atoms.
Import Utils Torch.

(** The partner indices: [probs] and [torch.multinomial]. *)
Definition choices (batch_size : nat) (num_atoms : Z) (u : nat → nat → Q)
    : result (list (list nat)) :=
  multinomial (probs batch_size) (num_atoms - 1) u.

Definition atomic_theta {A} (theta : list (list A)) (num_atoms : Z)
    (u : nat → nat → Q) : result (list (list A)) :=
  let batch_size := length theta in
  choices ← choices batch_size num_atoms u ;
  contrasting_theta ← mapM (mapM (getrow theta)) choices ;
  (* cat((theta[:, None, :], contrasting_theta), dim=1).reshape(B * K, -1) *)
  Ok (mjoin (zip_with cons theta contrasting_theta)).

End Atoms.

(** ** snpe_c.py: [SNPE_C._log_prob_proposal_posterior] *)

Module SNPE_C.
Section snpe_c.
Import Utils Torch Atoms.

(** Tensor entries and the torch operations applied to them. *)
Context {F : Type}.
Variables (fsub fadd fmul : F → F → F).
Variable logsumexp : list F → F.
Variable isfinite : F → bool.

(** The collaborators: [self._posterior.net.log_prob(theta, x)] and
    [self._prior.log_prob(theta)], each returning one value per row. *)
Variable net_log_prob : list (list F) → list (list F) → list F.
Variable prior_log_prob : list (list F) → list F.

Record Self : Type := {
  _num_atoms : Z;
  _use_combined_loss : bool
}.

(** Modelled from the spec: [PosteriorEstimator._assert_all_finite] is
    inherited from [snpe_base], which is not part of the sources.  The
    spec (section 4.2, step 7, and section 7) has a non-finite entry of
    the checked tensor raise a fatal error; the description names the
    tensor. *)
Definition _assert_all_finite (quantity : list F) (description : string)
    : result () :=
  if forallb isfinite quantity then Ok ()
  else Raise (AssertionError description).

(** Lines 124-126: the atom count the loss works with, the configured
    one clamped into [2, batch_size]. *)
Definition num_atoms (self : Self) (batch_size : nat) : Z :=
  (clamp_and_warn "num_atoms" (_num_atoms self) 2 (Z.of_nat batch_size)).1.

Definition _log_prob_proposal_posterior
    (self : Self) (theta x masks : list (list F)) (u : nat → nat → Q)
    : result (list F) :=
  let batch_size := length theta in
  let num_atoms := num_atoms self batch_size in
  let repeated_x := repeat_rows x num_atoms in
  atomic_theta ← atomic_theta theta num_atoms u ;
  let log_prob_posterior := net_log_prob atomic_theta repeated_x in
  _ ← _assert_all_finite log_prob_posterior "posterior eval" ;
  log_prob_posterior ←
    reshape2 log_prob_posterior batch_size (Z.to_nat num_atoms) ;
  let log_prob_prior := prior_log_prob atomic_theta in
  log_prob_prior ← reshape2 log_prob_prior batch_size (Z.to_nat num_atoms) ;
  _ ← _assert_all_finite (mjoin log_prob_prior) "prior eval" ;
  let unnormalized_log_prob :=
    zip_with (zip_with fsub) log_prob_posterior log_prob_prior in
  (* unnormalized_log_prob[:, 0] *)
  column0 ← mapM (λ row, getrow row 0) unnormalized_log_prob ;
  let log_prob_proposal_posterior :=
    zip_with fsub column0 (logsumexp <$> unnormalized_log_prob) in
  _ ← _assert_all_finite log_prob_proposal_posterior "proposal posterior eval" ;
  if _use_combined_loss self then
    let log_prob_posterior_non_atomic := net_log_prob theta x in
    let masks := mjoin masks in
    weighted ← elementwise fmul masks log_prob_posterior_non_atomic ;
    elementwise fadd weighted log_prob_proposal_posterior
  else
    Ok log_prob_proposal_posterior.

End snpe_c.
End SNPE_C.

(** ** snre_base.py: [RatioEstimator] *)

Module RatioEstimator.
Section ratio_estimator.
Import Utils Torch Atoms.

(** [F]: tensor entries.  [Net]: the state of a network object (its
    parameters and buffers). *)
Context {F Net : Type}.

(** [l[:k]] and [l[k:]] with Python's reading of a negative bound. *)
Definition slice_to {A} (l : list A) (k : Z) : list A :=
  if decide (k < 0)%Z then take (Z.to_nat (Z.of_nat (length l) + k)) l
  else take (Z.to_nat k) l.
Definition slice_from {A} (l : list A) (k : Z) : list A :=
  if decide (k < 0)%Z then drop (Z.to_nat (Z.of_nat (length l) + k)) l
  else drop (Z.to_nat k) l.

(** [torch.utils.data.DataLoader] over a [SubsetRandomSampler]. *)
Record Loader : Type := {
  batch_size : nat;
  drop_last : bool;
  sampler : list nat
}.

Definition DataLoader (batch_size : Z) (drop_last : bool) (indices : list nat)
    : result Loader :=
  if decide (batch_size ≤ 0)%Z then
    Raise (ValueError "batch_size should be a positive integer value")
  else
    Ok {| batch_size := Z.to_nat batch_size;
          drop_last := drop_last;
          sampler := indices |}.

(** The minibatches of one epoch: [order] is the order in which the
    sampler yields the loader's indices in that epoch; full batches
    first, then the remainder unless [drop_last]. *)
Definition minibatches (dl : Loader) (order : list nat) : list (list nat) :=
  let n := length order in
  let b := batch_size dl in
  reshape (replicate (n / b) b
             ++ (if drop_last dl || (n `mod` b =? 0)%nat then []
                 else [(n `mod` b)%nat]))
          order.

Record Hyper : Type := {
  learning_rate : Float64.float;
  stop_after_epochs : Z;
  max_num_epochs : Z;
  clip_max_norm : option Float64.float
}.

(** What the epoch loop of [_train] works with. *)
Record Plan : Type := {
  train_loader : Loader;
  val_loader : Loader;
  loss_num_atoms : Z;            (* the [num_atoms] handed to [self._loss] *)
  num_validation_examples : Z;
  hyper : Hyper
}.

Record Self : Type := {
  _posterior : Net;              (* the network of [self._posterior] *)
  _untrained_classifier : option Net;
  _retrain_from_scratch_each_round : bool;
  _theta_bank : list (list (list F));
  _x_bank : list (list (list F))
}.

Definition set_posterior (self : Self) (net : Net) : Self :=
  {| _posterior := net;
     _untrained_classifier := _untrained_classifier self;
     _retrain_from_scratch_each_round := _retrain_from_scratch_each_round self;
     _theta_bank := _theta_bank self;
     _x_bank := _x_bank self |}.

(** The forward pass [self._posterior.net(theta_and_x)]. *)
Variable forward : Net → list (list F) → list (list F).

(** The [while] loop of [_train] (lines 284-311), seen through what it
    leaves in the network of [self._posterior], or the exception that a
    sweep over a loader ends with. *)
Variable epoch_loop : Plan → Net → result Net.

Definition __init__ (classifier : Net) (retrain_from_scratch_each_round : bool)
    : Self :=
  {| _posterior := classifier;
     _untrained_classifier :=
       if retrain_from_scratch_each_round then Some (deepcopy classifier)
       else None;
     _retrain_from_scratch_each_round := retrain_from_scratch_each_round;
     _theta_bank := [];
     _x_bank := [] |}.

(** [sum(len(theta) for theta in self._theta_bank)] *)
Definition num_examples (self : Self) : Z :=
  Z.of_nat (sum_list (length <$> _theta_bank self)).

(** Line 239: [int((1 - validation_fraction) * num_examples)], in
    Python's float arithmetic. *)
Definition num_training_examples (validation_fraction : Float64.float)
    (num_examples : Z) : result Z :=
  let kept := Float64.sub (Float64.nearest 1) validation_fraction in
  n ← Float64.of_int num_examples ;
  Float64.int (Float64.mul kept n).

(** Lines 236-271 of [_train]: the split, the clipped batch size and the
    two loaders.  [permuted_indices] is [torch.randperm(num_examples)]. *)
Definition train_setup (self : Self) (num_atoms batch_size : Z)
    (validation_fraction : Float64.float) (hyper : Hyper)
    (permuted_indices : list nat) : result Plan :=
  let num_examples := num_examples self in
  num_training_examples ←
    num_training_examples validation_fraction num_examples ;
  let num_validation_examples := (num_examples - num_training_examples)%Z in
  let train_indices := slice_to permuted_indices num_training_examples in
  let val_indices := slice_from permuted_indices num_training_examples in
  let clipped_batch_size := Z.min batch_size num_validation_examples in
  (* the value returned by clamp_and_warn is not bound to anything *)
  let _ := clamp_and_warn "num_atoms" num_atoms 2 clipped_batch_size in
  train_loader ← DataLoader clipped_batch_size true train_indices ;
  val_loader ← DataLoader clipped_batch_size false val_indices ;
  Ok {| train_loader := train_loader;
        val_loader := val_loader;
        loss_num_atoms := num_atoms;
        num_validation_examples := num_validation_examples;
        hyper := hyper |}.

(** Lines 279-282 of [_train]. *)
Definition train_reset (self : Self) : Self :=
  if _retrain_from_scratch_each_round self then
    set_posterior self (deepcopy (_posterior self))
  else self.

Definition _train (self : Self) (num_atoms batch_size : Z)
    (validation_fraction : Float64.float) (hyper : Hyper)
    (permuted_indices : list nat) : result Self :=
  plan ← train_setup self num_atoms batch_size validation_fraction hyper
                     permuted_indices ;
  let self := train_reset self in
  net ← epoch_loop plan (_posterior self) ;
  Ok (set_posterior self net).

(** One round of [__call__]: the valid simulations of the round, as the
    simulator and [handle_invalid_x] return them, and the permutation
    drawn by [_train].  The summaries and the progress display of a round
    are left out. *)
Record Round : Type := {
  theta_valid : list (list F);
  x_valid : list (list F);
  randperm : list nat
}.

Definition store (self : Self) (r : Round) : Self :=
  {| _posterior := _posterior self;
     _untrained_classifier := _untrained_classifier self;
     _retrain_from_scratch_each_round := _retrain_from_scratch_each_round self;
     _theta_bank := _theta_bank self ++ [theta_valid r];
     _x_bank := _x_bank self ++ [x_valid r] |}.

Fixpoint __call__ (self : Self) (rounds : list Round) (num_atoms batch_size : Z)
    (validation_fraction : Float64.float) (hyper : Hyper) : result Self :=
  match rounds with
  | [] => Ok self
  | r :: rounds' =>
      self ← _train (store self r) num_atoms batch_size validation_fraction
                    hyper (randperm r) ;
      __call__ self rounds' num_atoms batch_size validation_fraction hyper
  end.

Definition _classifier_logits (self : Self) (theta x : list (list F))
    (num_atoms : Z) (u : nat → nat → Q) : result (list (list F)) :=
  let batch_size := length theta in
  let repeated_x := repeat_rows x num_atoms in
  atomic_theta ← atomic_theta theta num_atoms u ;
  theta_and_x ← cat1 atomic_theta repeated_x ;
  Ok (forward (_posterior self) theta_and_x).

End ratio_estimator.
End RatioEstimator.

(** ** snre_base.py: [PotentialFunctionProvider] *)

Module PotentialFunctionProvider.
Section potential.
Import Torch.

Context {F Net Prior : Type}.
Variables (fadd : F → F → F) (fneg : F → F).

(** [classifier(input)] and [prior.log_prob(theta)]. *)
Variable classifier_call : Net → list (list F) → list (list F).
Variable prior_log_prob : Prior → list (list F) → list F.

(** [sbi.utils.torchutils.ensure_x_batched] is imported, not defined
    here, and the spec says nothing of it on an observation that has
    several rows or none: what it hands on for such an observation, or
    the exception it ends the evaluation with, is a parameter. *)
Variable x_of_rows : list (list F) → result (list (list F)).

(** A tensor of one or of two dimensions. *)
Inductive Tensor : Type :=
  | T1 (v : list F)
  | T2 (m : list (list F)).

Record Self : Type := {
  classifier : Net;
  prior : Prior;
  x : Tensor
}.

Inductive Potential : Type := pyro_potential_of | np_potential_of.

Definition __call__ (prior : Prior) (classifier : Net) (x : Tensor)
    (mcmc_method : string) : Self * Potential :=
  let self := {| classifier := classifier; prior := prior; x := x |} in
  if decide (mcmc_method ∈ ["slice"; "hmc"; "nuts"]) then (self, pyro_potential_of)
  else (self, np_potential_of).

(** Modelled from the spec: [sbi.utils.torchutils.ensure_theta_batched]
    and [ensure_x_batched] are imported, not defined here.  The spec
    (section 4.7) has the parameter reshaped into a batch of one row when
    it arrives unbatched, and left as it is when it arrives batched.  An
    observation that stands for one row, unbatched or batched, is handed
    on as the batch of that one row; any other observation is left to
    [x_of_rows]. *)
Definition ensure_theta_batched (theta : Tensor) : list (list F) :=
  match theta with
  | T1 v => [v]
  | T2 m => m
  end.
Definition ensure_x_batched (x : Tensor) : result (list (list F)) :=
  match x with
  | T1 v | T2 [v] => Ok [v]
  | T2 m => x_of_rows m
  end.

(** [m + v] of a matrix and a vector: [v] is broadcast over the rows. *)
Definition add_rows (m : list (list F)) (v : list F) : result (list (list F)) :=
  mapM (λ row, elementwise fadd row v) m.

(** The lines the two potentials share: batching, the classifier on the
    single row [cat((theta, x), dim=1).reshape(1, -1)], and the sum
    with the prior's log-density. *)
Definition log_ratio_plus_prior (self : Self) (theta : Tensor)
    : result (list (list F)) :=
  let theta := ensure_theta_batched theta in
  x ← ensure_x_batched (x self) ;
  theta_and_x ← cat1 theta x ;
  let log_ratio := classifier_call (classifier self) [mjoin theta_and_x] in
  add_rows log_ratio (prior_log_prob (prior self) theta).

Definition np_potential (self : Self) (theta : Tensor)
    : result (list (list F)) :=
  (* torch.as_tensor(theta, dtype=torch.float32) *)
  log_ratio_plus_prior self theta.

(** [-m], entry by entry. *)
Definition neg (m : list (list F)) : list (list F) := map (map fneg) m.

(** [next(iter(d.values()))] of a dictionary, in insertion order. *)
Definition first_value {V} (d : list (string * V)) : result V :=
  match d with
  | [] => Raise StopIteration
  | (_, v) :: _ => Ok v
  end.

Definition pyro_potential (self : Self) (theta : list (string * Tensor))
    : result (list (list F)) :=
  theta ← first_value theta ;
  s ← log_ratio_plus_prior self theta ;
  Ok (neg s).

End potential.
End PotentialFunctionProvider.


(** ** snre_base.py: the [while] loop of [RatioEstimator._train] *)

Module Training.
Section training.

(** [St]: what the loop reads and updates: the network and the optimizer,
    [self._val_log_prob], and the early-stopping bookkeeping of
    [self._converged]. *)
Context {St : Type}.

(** [self._converged(epoch, stop_after_epochs)] is inherited from
    [NeuralInference], which is not part of the sources: its answer and
    the state it leaves are a parameter. *)
Variable _converged : Z → Z → St → bool * St.

(** Lines 288-298, the sweep over the training loader, and lines 302-309,
    the sweep over the validation loader that sets [self._val_log_prob].
    Either can raise, as the loss can. *)
Variable train_one_epoch : St → result St.
Variable validate : St → result St.

(** Lines 286-311:
    [while epoch <= max_num_epochs and not self._converged(epoch, ...)].
    The result is the value of [epoch] after the loop and the state, or
    the exception of a sweep; [None] when the loop is still running after
    [fuel] tests of its condition. *)
Fixpoint while_loop (fuel : nat) (max_num_epochs stop_after_epochs epoch : Z)
    (s : St) : option (result (Z * St)) :=
  match fuel with
  | O => None
  | S fuel' =>
      if decide (epoch ≤ max_num_epochs)%Z then
        let '(converged, s) := _converged epoch stop_after_epochs s in
        if converged then Some (Ok (epoch, s))
        else
          match train_one_epoch s ≫= validate with
          | Raise e => Some (Raise e)
          | Ok s =>
              while_loop fuel' max_num_epochs stop_after_epochs (epoch + 1) s
          end
      else Some (Ok (epoch, s))
  end.

(** Line 284, [epoch = 0], and the loop. *)
Definition epochs (fuel : nat) (max_num_epochs stop_after_epochs : Z) (s : St)
    : option (result (Z * St)) :=
  while_loop fuel max_num_epochs stop_after_epochs 0 s.

End training.
End Training.

(** ** Vocabulary of the statements on the registries and the chain *)

Module Registry.
Section registry.
Import Flows.
Context {Arg Val Obj Dist : Type}.

(** Lines 17-19: the three dictionaries as the module creates them. *)
Definition empty : @Globals Arg Val Obj Dist :=
  {| _TRANSFORMS := ∅; _TRANSFORMS_INITS := ∅; _FLOW_BUILDERS := ∅ |}.

(** The states of the dictionaries that registrations lead to. *)
Inductive reachable : @Globals Arg Val Obj Dist → Prop :=
  | reachable_empty : reachable empty
  | reachable_transform g g' cls name inits :
      reachable g → register_transform cls name inits g = Ok g' →
      reachable g'
  | reachable_flow_builder g g' b name :
      reachable g → register_flow_builder b name g = Ok g' →
      reachable g'.

(** The flows of a chain that [get_transform] built, its permutations and
    its batch normalizations. *)
Definition is_registered (f : @Flow Obj) : bool :=
  match f with
  | Registered _ => true
  | _ => false
  end.
Definition is_permute (f : @Flow Obj) : bool :=
  match f with
  | Permute _ => true
  | _ => false
  end.
Definition is_batch_norm (f : @Flow Obj) : bool :=
  match f with
  | BatchNorm _ => true
  | _ => false
  end.

End registry.
End Registry.

(** ** vi_pyro_flows.py: the default [inits] of [register_transform] *)

Module Defaults.
Section defaults.
Import Flows.
Context {Arg Val : Type}.

(** A dimension handed on as a positional argument. *)
Variable of_dim : Z → Arg.

(** Line 25: [inits = lambda *args, **kwargs: (args, kwargs)], called as
    [inits(dim, **kwargs)]. *)
Definition default_inits : @Inits Arg Val :=
  λ dim kwargs, Ok ([of_dim dim], kwargs).

End defaults.
End Defaults.

(** ** snre_base.py: calling the potential that the provider returns *)

Module Sampler.
Section sampler.
Import PotentialFunctionProvider.
Context {F Net Prior : Type}.
Variables (fadd : F → F → F) (fneg : F → F).
Variable classifier_call : Net → list (list F) → list (list F).
Variable prior_log_prob : Prior → list (list F) → list F.
Variable x_of_rows : list (list F) → result (list (list F)).

(** A sampler calls the function it got from
    [PotentialFunctionProvider.__call__]: the numpy sampler with the
    parameter, a pyro sampler with a dictionary that holds the parameter
    under the name of its sample site. *)
Definition evaluate (provided : @Self F Net Prior * Potential) (site : string)
    (theta : @Tensor F) : result (list (list F)) :=
  match provided.2 with
  | np_potential_of =>
      np_potential fadd classifier_call prior_log_prob x_of_rows provided.1
        theta
  | pyro_potential_of =>
      pyro_potential fadd fneg classifier_call prior_log_prob x_of_rows
        provided.1 [(site, theta)]
  end.

End sampler.
End Sampler.

(** ** vi_pyro_flows.py: the registrations of the module and the flow
       builders *)

Module Builtins.
Section builtins.
Import Flows.
Context {Arg Val Obj Dist : Type}.

#[local] Abbreviation Kw := (gmap string Val).
#[local] Abbreviation G := (@Globals Arg Val Obj Dist).

Variable filter_kwrags_for_func : @Cls Arg Val Obj → Kw → Kw.

(** pyro's four transform classes (lines 220-237) and the two classes
    defined at lines 250 and 278. *)
Variables AffineAutoregressive SplineAutoregressive AffineCoupling
  SplineCoupling AffineTransform LowerCholeskyAffine : @Cls Arg Val Obj.

(** [torch.zeros(dim)], [torch.ones(dim)] and [torch.eye(dim)] as keyword
    values, and Python's [False]. *)
Variables zeros ones eye : Z → Val.
Variable py_False : Val.

(** Lines 145-175: the init functions of the two autoregressive
    transforms build pyro's [AutoRegressiveNN] from the keyword
    arguments; they are parameters. *)
Variables init_affine_autoregressive init_spline_autoregressive
  : @Inits Arg Val.

(** Lines 178-215: the init functions of the two coupling transforms
    start with [assert dim > 1]; what follows builds pyro's [DenseNN] and
    is a parameter. *)
Variables affine_coupling_args spline_coupling_args : @Inits Arg Val.

Definition init_affine_coupling : @Inits Arg Val := λ dim kwargs,
  if decide (dim > 1)%Z then affine_coupling_args dim kwargs
  else Raise (AssertionError
                "In 1d this would be equivalent to affine flows, use them!").

Definition init_spline_coupling : @Inits Arg Val := λ dim kwargs,
  if decide (dim > 1)%Z then spline_coupling_args dim kwargs
  else Raise (AssertionError
                "In 1d this would be equivalent to affine flows, use them!").

(** Lines 245-248 and 273-276: the [inits] of "affine_diag" and
    "affine_tril".  torch refuses a negative size. *)
Definition init_affine_diag : @Inits Arg Val := λ dim _,
  if decide (dim < 0)%Z then
    Raise (RuntimeError "Trying to create tensor with negative dimension")
  else Ok ([], {[ "loc" := zeros dim; "scale" := ones dim ]}).

Definition init_affine_tril : @Inits Arg Val := λ dim _,
  if decide (dim < 0)%Z then
    Raise (RuntimeError "Trying to create tensor with negative dimension")
  else Ok ([], {[ "loc" := zeros dim; "scale_tril" := eye dim ]}).

(** Lines 220-278: the six registrations the module makes, in order. *)
Definition register_transforms (g : G) : result G :=
  g ← register_transform AffineAutoregressive (Some "affine_autoregressive")
        init_affine_autoregressive g ;
  g ← register_transform SplineAutoregressive (Some "spline_autoregressive")
        init_spline_autoregressive g ;
  g ← register_transform AffineCoupling (Some "affine_coupling")
        init_affine_coupling g ;
  g ← register_transform SplineCoupling (Some "spline_coupling")
        init_spline_coupling g ;
  g ← register_transform AffineTransform (Some "affine_diag")
        init_affine_diag g ;
  register_transform LowerCholeskyAffine (Some "affine_tril")
    init_affine_tril g.

(** A keyword value where [build_flow] uses the parameter it is bound
    to: [num_flows] in [range(num_flows)], a [TypeError] unless it is an
    int; [permute] and [batch_norm] for their truth value; [base_dist]
    in the test [base_dist is None]. *)
Variable int_of : Val → result Z.
Variable truth : Val → bool.
Variable base_of : Val → option Dist.

(** The keyword arguments that are left for [**kwargs] of [build_flow]
    once its parameters are bound. *)
Definition rest_of (kwargs : Kw) : Kw :=
  delete "base_dist"
    (delete "batch_norm" (delete "permute" (delete "num_flows" kwargs))).

(** [build_flow(event_shape, link_flow, transform=transform, **kwargs)],
    with [num_flows=n] as a further keyword when [num_flows] is [Some n].
    A keyword given twice is a [TypeError] of the call.  [num_flows] is
    first used by the loop, after the base distribution is built and the
    working dimension is known. *)
Definition call_build_flow (g : G) (event_shape : Shape) (link_flow : Link)
    (num_flows : option Z) (transform : string) (kwargs : Kw)
    : result (@TransformedDistribution Obj Dist) :=
  if decide (is_Some (kwargs !! "transform")
             ∨ (is_Some num_flows ∧ is_Some (kwargs !! "num_flows"))) then
    Raise TypeError
  else
    let permute := default true (truth <$> kwargs !! "permute") in
    let batch_norm := default false (truth <$> kwargs !! "batch_norm") in
    let base := kwargs !! "base_dist" ≫= base_of in
    let rest := rest_of kwargs in
    let count := match num_flows with
                 | Some n => Ok n
                 | None => default (Ok 5%Z) (int_of <$> kwargs !! "num_flows")
                 end in
    match count with
    | Raise e =>
        _ ← base_and_dim event_shape link_flow base ;
        Raise e
    | Ok n =>
        build_flow filter_kwrags_for_func g event_shape link_flow n transform
          permute batch_norm base rest
    end.

(** Lines 386-413 and 417-446: the two Gaussian builders. *)
Definition gaussian_diag_flow_builder (g : G) (event_shape : Shape)
    (link_flow : Link) (kwargs : Kw)
    : result (@TransformedDistribution Obj Dist) :=
  let kwargs := delete "num_flows" (delete "base_dist" (delete "transform" kwargs)) in
  if decide (is_Some (kwargs !! "shuffle")) then Raise TypeError
  else call_build_flow g event_shape link_flow (Some 1%Z) "affine_diag"
         (<["shuffle" := py_False]> kwargs).

Definition gaussian_flow_builder (g : G) (event_shape : Shape)
    (link_flow : Link) (kwargs : Kw)
    : result (@TransformedDistribution Obj Dist) :=
  let kwargs := delete "num_flows" (delete "base_dist" (delete "transform" kwargs)) in
  if decide (is_Some (kwargs !! "shuffle")) then Raise TypeError
  else call_build_flow g event_shape link_flow (Some 1%Z) "affine_tril"
         (<["shuffle" := py_False]> kwargs).

(** Lines 450-481, 490-521, 525-556 and 560-588: the four flow
    builders. *)
Definition masked_autoregressive_flow_builder (g : G) (event_shape : Shape)
    (link_flow : Link) (kwargs : Kw)
    : result (@TransformedDistribution Obj Dist) :=
  call_build_flow g event_shape link_flow None "affine_autoregressive"
    (delete "transform" kwargs).

Definition spline_autoregressive_flow_builder (g : G) (event_shape : Shape)
    (link_flow : Link) (kwargs : Kw)
    : result (@TransformedDistribution Obj Dist) :=
  call_build_flow g event_shape link_flow None "spline_autoregressive"
    (delete "transform" kwargs).

Definition coupling_flow_builder (g : G) (event_shape : Shape)
    (link_flow : Link) (kwargs : Kw)
    : result (@TransformedDistribution Obj Dist) :=
  call_build_flow g event_shape link_flow None "affine_coupling"
    (delete "transform" kwargs).

Definition spline_coupling_flow_builder (g : G) (event_shape : Shape)
    (link_flow : Link) (kwargs : Kw)
    : result (@TransformedDistribution Obj Dist) :=
  call_build_flow g event_shape link_flow None "spline_coupling"
    (delete "transform" kwargs).

(** The builders as the objects the registry holds.  A builder reads
    [_TRANSFORMS] when it is called; [transforms] is the state of the two
    transform dictionaries it then finds. *)
Definition builder (fn_name : string)
    (fn : G → Shape → Link → Kw → result (@TransformedDistribution Obj Dist))
    (transforms : G) : @Builder Val Obj Dist :=
  {| builder_name := fn_name; builder_call := fn transforms |}.

(** Lines 385-560: the six registrations of flow builders, in order. *)
Definition register_flow_builders (transforms g : G) : result G :=
  g ← register_flow_builder
        (builder "gaussian_diag_flow_builder" gaussian_diag_flow_builder transforms)
        (Some "gaussian_diag") g ;
  g ← register_flow_builder
        (builder "gaussian_flow_builder" gaussian_flow_builder transforms)
        (Some "gaussian") g ;
  g ← register_flow_builder
        (builder "masked_autoregressive_flow_builder"
                 masked_autoregressive_flow_builder transforms)
        (Some "maf") g ;
  g ← register_flow_builder
        (builder "spline_autoregressive_flow_builder"
                 spline_autoregressive_flow_builder transforms)
        (Some "nsf") g ;
  g ← register_flow_builder
        (builder "coupling_flow_builder" coupling_flow_builder transforms)
        (Some "mcf") g ;
  register_flow_builder
    (builder "spline_coupling_flow_builder" spline_coupling_flow_builder transforms)
    (Some "scf") g.

(** The names the module registers. *)
Definition transform_names : list string :=
  ["affine_autoregressive"; "spline_autoregressive"; "affine_coupling";
   "spline_coupling"; "affine_diag"; "affine_tril"].
Definition flow_names : list string :=
  ["gaussian_diag"; "gaussian"; "maf"; "nsf"; "mcf"; "scf"].

(** The module, executed on the state [g] of the dictionaries. *)
Definition module (g : G) : result G :=
  g ← register_transforms g ;
  register_flow_builders g g.

End builtins.
End Builtins.


(** ** Vocabulary of the statements *)

Module Spec.


(** The partner lists an atom block may hold for row [i] of a batch of
    [B] rows: [n] pairwise distinct indices of rows other than [i]. *)
Definition admissible (B i n : nat) (js : list nat) : Prop :=
  length js = n ∧ NoDup js ∧ ∀ j, j ∈ js → j < B ∧ j ≠ i.

(** Taking by position: the draw number [t] takes the entry at position
    [v t] of the candidates that are left. *)
Fixpoint arrange (cands : list nat) (n : nat) (v : nat → nat)
    : result (list nat) :=
  match n with
  | O => Ok []
  | S n' =>
      let p := (v 0%nat `mod` length cands)%nat in
      match cands !! p with
      | None => Raise (RuntimeError "invalid multinomial distribution")
      | Some j =>
          js ← arrange (delete p cands) n' (λ t, v (S t)) ;
          Ok (j :: js)
      end
  end.

(** With [m] candidates to draw from, the draw number [t] picks among the
    [m - t] that are left.  A sequence of positions is canonical for [n]
    draws when each of its first [n] entries is a position among those. *)
Definition canonical (m n : nat) (v : nat → nat) : Prop :=
  ∀ t, t < n → v t < m - t.

(** The unit interval cut into [k] cells of equal length [1 / k]: the
    point [r] lies in cell number [p]. *)
Definition in_cell (k p : nat) (r : Q) : Prop :=
  (inject_Z (Z.of_nat p) <= r * inject_Z (Z.of_nat k)
   ∧ r * inject_Z (Z.of_nat k) < inject_Z (Z.of_nat p) + 1)%Q.

(** The cell of each of the first [n] random numbers of a row, when the
    draw number [t] is among [m - t] candidates. *)
Definition cells (m n : nat) (v : nat → nat) (r : nat → Q) : Prop :=
  ∀ t, t < n → in_cell (m - t) (v t) (Torch.frac (r t)).

(** The position that the random numbers of a row pick at each draw among
    [m], [m - 1], ... candidates of equal weight. *)
Definition positions (m : nat) (r : nat → Q) (t : nat) : nat :=
  Z.to_nat (Qfloor (Torch.frac (r t) * inject_Z (Z.of_nat (m - t)))).

(** The categories that are left and have a weight other than zero. *)
Definition live (cands : list (nat * Q)) : list nat :=
  (filter (λ c, Qeq_bool c.2 0 = false) cands).*1.

(** Every category that is left has the weight [cw] or the weight 0. *)
Definition two_weights (cw : Q) (cands : list (nat * Q)) : Prop :=
  Forall (λ c, (c.2 == cw)%Q ∨ (c.2 == 0)%Q) cands.

(** The chain of [build_flow] in the words of its loop: layer [i] of [n]
    is a registered transform, followed by a permutation and by a batch
    normalization if they are asked for and the layer is not the last. *)
Fixpoint layers {Obj} (ts : list Obj) (dim : Z) (permute batch_norm : bool)
    : list (@Flows.Flow Obj) :=
  match ts with
  | [] => []
  | [t] => [Flows.Registered t]
  | t :: ts' =>
      Flows.Registered t
        :: (if permute then [Flows.Permute dim] else [])
        ++ (if batch_norm then [Flows.BatchNorm dim] else [])
        ++ layers ts' dim permute batch_norm
  end.

(** Row [i] of the unnormalized log-probabilities, in the words of the
    loss: the model log-density minus the prior log-density on the [K]
    atomic pairs of example [i], entries [i * K] to [i * K + K - 1] of the
    two flat evaluations. *)
Definition unnormalized {F} (fsub : F → F → F) (K : nat) (lpp lpr : list F)
    (i : nat) : list F :=
  zip_with fsub (take K (drop (i * K) lpp)) (take K (drop (i * K) lpr)).

(** [P] is the proposal-posterior log-probability of the batch: for each
    example [unnormalized[i, 0] - logsumexp(unnormalized[i, :])]. *)
Definition is_proposal_posterior {F} (fsub : F → F → F) (logsumexp : list F → F)
    (B K : nat) (lpp lpr : list F) (P : list F) : Prop :=
  length P = B ∧
  ∀ i, i < B →
       ∃ u0 rest, unnormalized fsub K lpp lpr i = u0 :: rest ∧
                  P !! i = Some (fsub u0 (logsumexp (u0 :: rest))).

(** A parameter or an observation that stands for the one row [v]:
    unbatched, or a batch of that single row. *)
Definition single_row {F} (t : @PotentialFunctionProvider.Tensor F) (v : list F)
    : Prop :=
  t = PotentialFunctionProvider.T1 v ∨ t = PotentialFunctionProvider.T2 [v].

End Spec.


(** ** Concrete instances used by the examples below *)

Module Examples.
Import Flows.

(** A registry over integer arguments whose transforms are named by
    strings. *)
Definition ex_cls (cls_name : string) : @Cls Z Z string :=
  {| __name__ := cls_name; __init__ := λ _ _, Ok cls_name |}.

Definition ex_inits : @Inits Z Z := λ _ _, Ok ([], ∅).

Definition ex_filter : @Cls Z Z string → gmap string Z → gmap string Z :=
  λ _ kwargs, kwargs.

Definition ex_empty : @Globals Z Z string () :=
  {| _TRANSFORMS := ∅; _TRANSFORMS_INITS := ∅; _FLOW_BUILDERS := ∅ |}.

(** The registry after [register_transform(AffineTransform, "affine_diag")]. *)
Definition ex_registry : @Globals Z Z string () :=
  {| _TRANSFORMS := {[ "affine_diag" := ex_cls "AffineTransform" ]};
     _TRANSFORMS_INITS := {[ "affine_diag" := ex_inits ]};
     _FLOW_BUILDERS := ∅ |}.

(** A registry with the keys "Foo" and "foo". *)
Definition ex_two_cases : @Globals Z Z string () :=
  {| _TRANSFORMS := {[ "Foo" := ex_cls "A"; "foo" := ex_cls "B" ]};
     _TRANSFORMS_INITS := {[ "Foo" := ex_inits; "foo" := ex_inits ]};
     _FLOW_BUILDERS := ∅ |}.

(** A link transform whose output has one entry more than its input (a
    map onto the simplex). *)
Definition ex_link_longer : Link :=
  {| link_shape := λ s, match s with
                        | n :: s' => (n + 1)%Z :: s'
                        | [] => []
                        end |}.

(** A ratio estimator over integer entries whose network state is a
    number, with the 50 simulations of one round in its bank. *)
Definition ex_hyper : RatioEstimator.Hyper :=
  {| RatioEstimator.learning_rate := Float64.literal 5 10000;
     RatioEstimator.stop_after_epochs := 20;
     RatioEstimator.max_num_epochs := 2 ^ 31 - 1;
     RatioEstimator.clip_max_norm := Some (Float64.nearest 5) |}.

Definition ex_estimator : @RatioEstimator.Self Z Z :=
  {| RatioEstimator._posterior := 0%Z;
     RatioEstimator._untrained_classifier := Some 0%Z;
     RatioEstimator._retrain_from_scratch_each_round := true;
     RatioEstimator._theta_bank := [replicate 50 [0%Z]];
     RatioEstimator._x_bank := [replicate 50 [0%Z]] |}.

(** An estimator with 90 simulations in its bank. *)
Definition ex_estimator90 : @RatioEstimator.Self Z Z :=
  {| RatioEstimator._posterior := 0%Z;
     RatioEstimator._untrained_classifier := Some 0%Z;
     RatioEstimator._retrain_from_scratch_each_round := true;
     RatioEstimator._theta_bank := [replicate 90 [0%Z]];
     RatioEstimator._x_bank := [replicate 90 [0%Z]] |}.

(** Two rounds of 50 valid simulations each. *)
Definition ex_round1 : @RatioEstimator.Round Z :=
  {| RatioEstimator.theta_valid := replicate 50 [0%Z];
     RatioEstimator.x_valid := replicate 50 [0%Z];
     RatioEstimator.randperm := seq 0 50 |}.
Definition ex_round2 : @RatioEstimator.Round Z :=
  {| RatioEstimator.theta_valid := replicate 50 [0%Z];
     RatioEstimator.x_valid := replicate 50 [0%Z];
     RatioEstimator.randperm := seq 0 100 |}.

(** An epoch loop of one epoch: it evaluates [_classifier_logits] on every
    minibatch of the training loader and then of the validation loader,
    with the atom count of the plan, and ends with the exception of the
    first minibatch on which that raises; otherwise it leaves the network
    in another state than it found it in. *)
Definition ex_sweep (plan : RatioEstimator.Plan) (net : Z)
    (dl : RatioEstimator.Loader) : result (list (list (list Z))) :=
  mapM (λ batch : list nat,
          RatioEstimator._classifier_logits (λ (_ : Z) rows, rows)
            (RatioEstimator.__init__ net false)
            ((λ _, [0%Z]) <$> batch) ((λ _, [0%Z]) <$> batch)
            (RatioEstimator.loss_num_atoms plan) (λ _ _, 0%Q))
       (RatioEstimator.minibatches dl (RatioEstimator.sampler dl)).
Definition ex_epoch_loop : RatioEstimator.Plan → Z → result Z :=
  λ plan net,
    _ ← ex_sweep plan net (RatioEstimator.train_loader plan) ;
    _ ← ex_sweep plan net (RatioEstimator.val_loader plan) ;
    Ok (net + 1)%Z.

(** A minibatch of 5 rows, as the loaders above yield them, and a batch
    of 3 rows. *)
Definition ex_batch5 : list (list Z) := [[1]; [2]; [3]; [4]; [5]]%Z.
Definition ex_batch3 : list (list Z) := [[1]; [2]; [3]]%Z.

(** A potential-function provider over integers: the classifier returns
    the sum of each input row as its logit, the prior the first entry of
    each parameter row; an observation of several rows is handed on with
    a further dimension, which ends the evaluation in [torch.cat]. *)
Definition ex_classifier_call (_ : ()) (rows : list (list Z)) : list (list Z) :=
  (λ row, [foldr Z.add 0%Z row]) <$> rows.
Definition ex_prior (_ : ()) (rows : list (list Z)) : list Z :=
  (λ row, default 0%Z (head row)) <$> rows.
Definition ex_x_of_rows (_ : list (list Z)) : result (list (list Z)) :=
  Raise (RuntimeError "Tensors must have same number of dimensions").
Definition ex_provider : @PotentialFunctionProvider.Self Z () () :=
  {| PotentialFunctionProvider.classifier := ();
     PotentialFunctionProvider.prior := ();
     PotentialFunctionProvider.x := PotentialFunctionProvider.T1 [10; 20]%Z |}.

(** Tensor entries that may be non-finite: [None] stands for NaN or an
    infinity, and arithmetic on it gives [None].  The maximum of a row
    stands in for its log-sum-exp. *)
Definition ex_lift (op : Z → Z → Z) (a b : option Z) : option Z :=
  match a, b with
  | Some a, Some b => Some (op a b)
  | _, _ => None
  end.
Definition ex_isfinite (a : option Z) : bool :=
  match a with
  | Some _ => true
  | None => false
  end.
Definition ex_logsumexp (row : list (option Z)) : option Z :=
  foldr (ex_lift Z.max) (Some 0%Z) row.

(** A density estimator whose log-density of a pair is the sum of the
    finite entries of the parameter row, one that returns NaN on every
    pair, and a flat prior. *)
Definition ex_net_log_prob (a b : list (list (option Z))) : list (option Z) :=
  (λ row, Some (foldr (λ v acc, default 0 v + acc) 0 row)%Z) <$> a.
Definition ex_net_nan (a b : list (list (option Z))) : list (option Z) :=
  (λ _, None) <$> a.
Definition ex_prior_log_prob (a : list (list (option Z))) : list (option Z) :=
  (λ _, Some 0%Z) <$> a.

Definition ex_snpe_c : SNPE_C.Self :=
  {| SNPE_C._num_atoms := 10; SNPE_C._use_combined_loss := true |}.
Definition ex_theta : list (list (option Z)) := [[Some 1]; [Some 2]; [Some 4]]%Z.
Definition ex_x : list (list (option Z)) := [[Some 7]; [Some 8]; [Some 9]]%Z.
Definition ex_masks : list (list (option Z)) := [[Some 1]; [Some 0]; [Some 1]]%Z.

End Examples.

(** ** A concrete instance of the module *)

Module ModuleExample.
Import Flows Examples.

(** The module over integer keyword values: the classes are named by
    strings, the init functions that are parameters return no arguments,
    [False] is 0, every keyword value is an int, true unless it is 0, and
    no [base_dist] is given. *)
Definition ex_module (g : @Globals Z Z string ())
    : result (@Globals Z Z string ()) :=
  Builtins.module ex_filter
    (ex_cls "AffineAutoregressive") (ex_cls "SplineAutoregressive")
    (ex_cls "AffineCoupling") (ex_cls "SplineCoupling")
    (ex_cls "AffineTransform") (ex_cls "LowerCholeskyAffine")
    (λ _, 0%Z) (λ _, 1%Z) (λ _, 1%Z) 0%Z
    ex_inits ex_inits ex_inits ex_inits
    (λ v, Ok v) (λ v, negb (v =? 0)%Z) (λ _, None) g.

(** A link transform that keeps the shape. *)
Definition ex_link_same : Link := {| link_shape := λ s, s |}.

End ModuleExample.


(** * Properties *)

(** ** The error monad *)

Lemma bind_Ok {A B} (m : result A) (k : A → result B) (b : B) :
  m ≫= k = Ok b ↔ ∃ a, m = Ok a ∧ k a = Ok b.
Proof.
  destruct m as [e|a]; simpl; split.
  - discriminate.
  - intros (a & Ha & _). discriminate.
  - eauto.
  - intros (a' & [= <-] & Hk). exact Hk.
Qed.

Lemma mapM_Ok {A B} (f : A → result B) (l : list A) (k : list B) :
  mapM f l = Ok k ↔ Forall2 (λ x y, f x = Ok y) l k.
Proof.
  revert k. induction l as [|x l IH]; intros k; simpl.
  - split; [intros [= <-]; constructor|by inversion 1].
  - split.
    + intros Hm. apply bind_Ok in Hm as (y & Hy & Hm).
      apply bind_Ok in Hm as (k' & Hk' & [= <-]).
      constructor; [done|]. by apply IH.
    + inversion 1 as [|? y ? k' Hy Hk']; subst.
      rewrite Hy. simpl. apply IH in Hk'. rewrite Hk'. done.
Qed.

Lemma getitem_None {V} (d : gmap string V) (key : string) :
  d !! key = None → getitem d key = Raise (KeyError key).
Proof. unfold getitem. by intros ->. Qed.

(** ** [lower] *)

Lemma is_upper_lower_ascii (c : ascii) : is_upper (lower_ascii c) = false.
Proof. by destruct c as [[] [] [] [] [] [] [] []]. Qed.

Lemma has_upper_lower (s : string) : has_upper (lower s) = false.
Proof.
  induction s as [|c s IH]; simpl; [done|].
  by rewrite is_upper_lower_ascii, IH.
Qed.

Lemma lower_fixes_lowercase (s : string) : has_upper s = false → lower s = s.
Proof.
  induction s as [|c s IH]; simpl; [done|].
  intros [Hc Hs]%orb_false_iff. unfold lower_ascii. rewrite Hc. by rewrite IH.
Qed.

Lemma lower_ne_upper (N s : string) : has_upper N = true → lower s ≠ N.
Proof. intros HN <-. by rewrite has_upper_lower in HN. Qed.

(** ** The registries *)

Section registry_facts.
Import Flows.
Context {Arg Val Obj Dist : Type}.
Variable filter_kwrags_for_func :
  @Cls Arg Val Obj → gmap string Val → gmap string Val.

#[local] Abbreviation G := (@Globals Arg Val Obj Dist).
#[local] Abbreviation get_transform' := (get_transform (Dist := Dist) filter_kwrags_for_func).

Lemma register_transform_taken (g : G) cls name inits :
  is_Some (_TRANSFORMS g !! default (__name__ cls) name) →
  is_ValueError (register_transform cls name inits g).
Proof.
  intros Hin. unfold register_transform.
  destruct name as [n|]; simpl in *; rewrite decide_True by done; by eexists.
Qed.

Lemma register_transform_free (g : G) cls name inits :
  _TRANSFORMS g !! default (__name__ cls) name = None →
  register_transform cls name inits g =
    Ok {| _TRANSFORMS := <[default (__name__ cls) name := cls]> (_TRANSFORMS g);
          _TRANSFORMS_INITS :=
            <[default (__name__ cls) name := inits]> (_TRANSFORMS_INITS g);
          _FLOW_BUILDERS := _FLOW_BUILDERS g |}.
Proof.
  intros Hout. unfold register_transform.
  destruct name as [n|]; simpl in *; rewrite decide_False; try done;
    rewrite Hout; by intros [? ?].
Qed.

Lemma register_transform_Ok (g g' : G) cls name inits :
  register_transform cls name inits g = Ok g' →
  _TRANSFORMS g !! default (__name__ cls) name = None ∧
  g' = {| _TRANSFORMS := <[default (__name__ cls) name := cls]> (_TRANSFORMS g);
          _TRANSFORMS_INITS :=
            <[default (__name__ cls) name := inits]> (_TRANSFORMS_INITS g);
          _FLOW_BUILDERS := _FLOW_BUILDERS g |}.
Proof.
  intros Hreg.
  destruct (_TRANSFORMS g !! default (__name__ cls) name) as [c|] eqn:Hlook.
  - destruct (register_transform_taken g cls name inits) as [msg Hmsg].
    { by rewrite Hlook. }
    congruence.
  - split; [done|]. rewrite register_transform_free in Hreg by done. congruence.
Qed.

Lemma register_flow_builder_taken (g : G) b name :
  is_Some (_FLOW_BUILDERS g !! default (builder_name b) name) →
  is_ValueError (register_flow_builder b name g).
Proof.
  intros Hin. unfold register_flow_builder.
  destruct name as [n|]; simpl in *; rewrite decide_True by done; by eexists.
Qed.

Lemma register_flow_builder_Ok (g g' : G) b name :
  register_flow_builder b name g = Ok g' →
  _FLOW_BUILDERS g !! default (builder_name b) name = None ∧
  g' = {| _TRANSFORMS := _TRANSFORMS g;
          _TRANSFORMS_INITS := _TRANSFORMS_INITS g;
          _FLOW_BUILDERS :=
            <[default (builder_name b) name := b]> (_FLOW_BUILDERS g) |}.
Proof.
  unfold register_flow_builder.
  destruct name as [n|]; simpl; case_decide as Hin; try discriminate;
    intros [= <-]; (split; [|done]);
    by apply eq_None_not_Some.
Qed.

Lemma get_flow_builder_unknown (g : G) name event_shape link_flow kwargs :
  _FLOW_BUILDERS g !! name = None →
  get_flow_builder g name event_shape link_flow kwargs = Raise (KeyError name).
Proof. intros Hout. unfold get_flow_builder. by rewrite getitem_None. Qed.

Lemma get_transform_unknown (g : G) name dim kwargs :
  _TRANSFORMS g !! lower name = None →
  get_transform' g name dim kwargs = Raise (KeyError (lower name)).
Proof. intros Hout. unfold get_transform. by rewrite getitem_None. Qed.

Lemma get_transform_known (g : G) name dim kwargs cls inits :
  _TRANSFORMS g !! lower name = Some cls →
  _TRANSFORMS_INITS g !! lower name = Some inits →
  get_transform' g name dim kwargs =
    inits dim kwargs ≫= λ '(args, default_kwargs),
      __init__ cls args (filter_kwrags_for_func cls kwargs ∪ default_kwargs).
Proof.
  intros Hcls Hinits. unfold get_transform.
  unfold getitem, Inits in *. rewrite Hcls. simpl. rewrite Hinits. simpl.
  by destruct (inits dim kwargs) as [e|[args dk]].
Qed.

(** C6, as amended.  Registering a name that is already a key raises a
    [ValueError], in both registries, and a registration that succeeds
    leaves every entry that was there as it was.  [get_flow_builder]
    raises a [KeyError] for a name that is not a key.  [get_transform]
    raises a [KeyError] when the lowercased name is not a key, and
    resolves the entry of the lowercased name otherwise, whether or not
    the name as given was ever registered. *)
Theorem C6_registries_guard_their_keys (g : G) :
  (∀ cls name inits,
      is_Some (_TRANSFORMS g !! default (__name__ cls) name) →
      is_ValueError (register_transform cls name inits g)) ∧
  (∀ b name,
      is_Some (_FLOW_BUILDERS g !! default (builder_name b) name) →
      is_ValueError (register_flow_builder b name g)) ∧
  (∀ cls name inits g',
      register_transform cls name inits g = Ok g' →
      _FLOW_BUILDERS g' = _FLOW_BUILDERS g ∧
      ∀ k, is_Some (_TRANSFORMS g !! k) →
           _TRANSFORMS g' !! k = _TRANSFORMS g !! k ∧
           _TRANSFORMS_INITS g' !! k = _TRANSFORMS_INITS g !! k) ∧
  (∀ b name g',
      register_flow_builder b name g = Ok g' →
      _TRANSFORMS g' = _TRANSFORMS g ∧
      _TRANSFORMS_INITS g' = _TRANSFORMS_INITS g ∧
      ∀ k, is_Some (_FLOW_BUILDERS g !! k) →
           _FLOW_BUILDERS g' !! k = _FLOW_BUILDERS g !! k) ∧
  (∀ name event_shape link_flow kwargs,
      _FLOW_BUILDERS g !! name = None →
      get_flow_builder g name event_shape link_flow kwargs
        = Raise (KeyError name)) ∧
  (∀ name dim kwargs,
      _TRANSFORMS g !! lower name = None →
      get_transform' g name dim kwargs = Raise (KeyError (lower name))) ∧
  (∀ name dim kwargs cls inits,
      _TRANSFORMS g !! lower name = Some cls →
      _TRANSFORMS_INITS g !! lower name = Some inits →
      get_transform' g name dim kwargs =
        inits dim kwargs ≫= λ '(args, default_kwargs),
          __init__ cls args (filter_kwrags_for_func cls kwargs ∪ default_kwargs)).
Proof.
  split_and!.
  - apply register_transform_taken.
  - apply register_flow_builder_taken.
  - intros cls name inits g' [Hfree ->]%register_transform_Ok. simpl.
    split; [done|]. intros k [c Hk].
    assert (default (__name__ cls) name ≠ k) by congruence.
    by rewrite !lookup_insert_ne.
  - intros b name g' [Hfree ->]%register_flow_builder_Ok. simpl.
    split_and!; [done..|]. intros k [c Hk].
    assert (default (builder_name b) name ≠ k) by congruence.
    by rewrite lookup_insert_ne.
  - apply get_flow_builder_unknown.
  - apply get_transform_unknown.
  - apply get_transform_known.
Qed.

(** C9, as amended.  [register_transform] stores the name as given and
    [get_transform] reads the key [lower name]: the lookup raises a
    [KeyError] when [lower name] is not a key and resolves that key's
    entry otherwise.  No request reads a key [N] that has an uppercase
    letter, although registering under [N] succeeds, while a name without
    one is its own key; [get_transform N] itself raises the [KeyError]
    unless [lower N] is a key of its own, and then it is the entry of
    [lower N] that is resolved. *)
Theorem C9_get_transform_reads_the_lowercased_key (g : G) :
  (∀ cls N inits,
      _TRANSFORMS g !! N = None →
      ∃ g', register_transform cls (Some N) inits g = Ok g' ∧
            _TRANSFORMS g' !! N = Some cls ∧
            _TRANSFORMS_INITS g' !! N = Some inits) ∧
  (∀ name dim kwargs,
      _TRANSFORMS g !! lower name = None →
      get_transform' g name dim kwargs = Raise (KeyError (lower name))) ∧
  (∀ name dim kwargs cls inits,
      _TRANSFORMS g !! lower name = Some cls →
      _TRANSFORMS_INITS g !! lower name = Some inits →
      get_transform' g name dim kwargs =
        inits dim kwargs ≫= λ '(args, default_kwargs),
          __init__ cls args (filter_kwrags_for_func cls kwargs ∪ default_kwargs)) ∧
  (∀ N name, has_upper N = true → lower name ≠ N) ∧
  (∀ N, has_upper N = false → lower N = N) ∧
  (∀ N dim kwargs,
      has_upper N = true →
      _TRANSFORMS g !! lower N = None →
      get_transform' g N dim kwargs = Raise (KeyError (lower N))).
Proof.
  split_and!.
  - intros cls N inits Hfree. eexists. split.
    + by apply (register_transform_free g cls (Some N) inits).
    + simpl. by rewrite !lookup_insert_eq.
  - apply get_transform_unknown.
  - apply get_transform_known.
  - intros N name. apply lower_ne_upper.
  - apply lower_fixes_lowercase.
  - intros N dim kwargs _. apply get_transform_unknown.
Qed.

End registry_facts.

Import Examples.

(** C6, counterexample.  In the registry that holds the one key
    "affine_diag", the name "AFFINE_DIAG" was never registered, and
    [get_transform] resolves it all the same. *)
Lemma C6_unregistered_name_is_resolved :
  Flows.register_transform (ex_cls "AffineTransform") (Some "affine_diag")
      ex_inits ex_empty = Ok ex_registry ∧
  Flows._TRANSFORMS ex_registry !! "AFFINE_DIAG" = None ∧
  Flows.get_transform ex_filter ex_registry "AFFINE_DIAG" 3 ∅
    = Ok "AffineTransform" ∧
  ¬ raises (Flows.get_transform ex_filter ex_registry "AFFINE_DIAG" 3 ∅).
Proof.
  split_and!.
  - rewrite (register_transform_free ex_empty) by done. done.
  - done.
  - by vm_compute.
  - intros [e He]. vm_compute in He. discriminate.
Qed.

(** C9, counterexample.  With the keys "Foo" and "foo" both registered,
    the lookup of "Foo", a registered name with an uppercase letter,
    raises no [KeyError]: it returns the transform registered as "foo". *)
Lemma C9_uppercase_lookup_need_not_raise :
  has_upper "Foo" = true ∧
  Flows._TRANSFORMS ex_two_cases !! "Foo" = Some (ex_cls "A") ∧
  Flows.get_transform ex_filter ex_two_cases "Foo" 3 ∅ = Ok "B" ∧
  ¬ is_KeyError (Flows.get_transform ex_filter ex_two_cases "Foo" 3 ∅).
Proof.
  split_and!.
  - done.
  - by vm_compute.
  - by vm_compute.
  - intros [k Hk]. vm_compute in Hk. discriminate.
Qed.

(** ** [build_flow] *)

Section build_flow_facts.
Import Flows.
Context {Arg Val Obj Dist : Type}.
Variable filter_kwrags_for_func :
  @Cls Arg Val Obj → gmap string Val → gmap string Val.

#[local] Abbreviation G' := (@Globals Arg Val Obj Dist).
#[local] Abbreviation build_flow' := (build_flow (Dist := Dist) filter_kwrags_for_func).
#[local] Abbreviation built_for' := (built_for (Dist := Dist) filter_kwrags_for_func).

Lemma bind_Ok_l {A B} (a : A) (k : A → result B) : Ok a ≫= k = k a.
Proof. reflexivity. Qed.

Lemma working_event_shape_1d (n L : Z) (link : Link) :
  len (link_shape link [n]) = Ok L →
  working_event_shape [n] link = Ok [n - (L - n)]%Z.
Proof. intros HL. unfold working_event_shape. by rewrite HL. Qed.

Lemma sized_Ok (f : Z → @Flow Obj) (dim : Z) (fs : list (@Flow Obj)) :
  sized f dim = Ok fs → fs = [f dim] ∧ (0 ≤ dim)%Z.
Proof. unfold sized. case_decide; [done|]. intros [= <-]. split; [done|lia]. Qed.

Lemma sized_nonneg (f : Z → @Flow Obj) (dim : Z) :
  (0 ≤ dim)%Z → sized f dim = Ok [f dim].
Proof. intros Hd. unfold sized. by rewrite decide_False by lia. Qed.

(** What the body of the loop returns: the transform of the layer, and
    the permutation and the batch normalization when they are asked for
    and the layer is not the last. *)
Lemma flow_layer_Ok (g : G') transform dim (permute batch_norm : bool) n kwargs i fs :
  flow_layer filter_kwrags_for_func g transform dim permute batch_norm n kwargs i
    = Ok fs →
  ∃ t,
    get_transform filter_kwrags_for_func g transform dim kwargs = Ok t ∧
    kwargs !! "name" = None ∧ kwargs !! "dim" = None ∧
    fs = [Registered t]
           ++ (if permute && (i <? n - 1)%nat then [Permute dim] else [])
           ++ (if batch_norm && (i <? n - 1)%nat then [BatchNorm dim] else []).
Proof.
  unfold flow_layer.
  intros (t & Ht & (p & Hp & (b & Hb & [= <-])%bind_Ok)%bind_Ok)%bind_Ok.
  case_decide as Hkw; [done|].
  exists t. split; [done|].
  split; [apply eq_None_not_Some; tauto|]. split; [apply eq_None_not_Some; tauto|].
  destruct (permute && _); [apply sized_Ok in Hp as [-> _]|injection Hp as <-];
    (destruct (batch_norm && _); [apply sized_Ok in Hb as [-> _]|injection Hb as <-]);
    done.
Qed.

Lemma flow_layer_returns (g : G') transform dim (permute batch_norm : bool) n kwargs i t :
  kwargs !! "name" = None → kwargs !! "dim" = None → (0 ≤ dim)%Z →
  get_transform filter_kwrags_for_func g transform dim kwargs = Ok t →
  flow_layer filter_kwrags_for_func g transform dim permute batch_norm n kwargs i
    = Ok ([Registered t]
           ++ (if permute && (i <? n - 1)%nat then [Permute dim] else [])
           ++ (if batch_norm && (i <? n - 1)%nat then [BatchNorm dim] else [])).
Proof.
  intros Hname Hdim Hd Ht. unfold flow_layer.
  rewrite decide_False by (rewrite Hname, Hdim; by intros [[? ?]|[? ?]]).
  rewrite Ht, bind_Ok_l, !sized_nonneg by done.
  by destruct (permute && _), (batch_norm && _).
Qed.

Lemma flow_layer_built (g : G') transform dim permute batch_norm n kwargs i fs :
  flow_layer filter_kwrags_for_func g transform dim permute batch_norm n kwargs i
    = Ok fs →
  Forall (built_for' g transform kwargs dim) fs.
Proof.
  intros (t & Ht & _ & _ & ->)%flow_layer_Ok.
  constructor; [exact Ht|]. apply Forall_app_2.
  - destruct (_ && _); by repeat constructor.
  - destruct (_ && _); by repeat constructor.
Qed.

Lemma flow_layers_built (g : G') transform dim permute batch_norm n kwargs range fs :
  flow_layers filter_kwrags_for_func g transform dim permute batch_norm n kwargs
    range = Ok fs →
  Forall (built_for' g transform kwargs dim) fs.
Proof.
  revert fs. induction range as [|i range IH]; simpl; intros fs.
  - intros [= <-]. constructor.
  - intros (fs1 & H1 & (fs2 & H2 & [= <-])%bind_Ok)%bind_Ok.
    apply Forall_app_2; [by eapply flow_layer_built|by apply IH].
Qed.

Lemma flow_layers_returns (g : G') transform dim permute batch_norm n kwargs range t :
  kwargs !! "name" = None → kwargs !! "dim" = None → (0 ≤ dim)%Z →
  get_transform filter_kwrags_for_func g transform dim kwargs = Ok t →
  returns (flow_layers filter_kwrags_for_func g transform dim permute batch_norm
             n kwargs range).
Proof.
  intros Hname Hdim Hd Ht. induction range as [|i range [fs IH]]; simpl.
  - by eexists.
  - rewrite (flow_layer_returns g transform dim permute batch_norm n kwargs i t)
      by done.
    rewrite bind_Ok_l, IH. simpl. by eexists.
Qed.

Lemma default_base_nonneg (shape : Shape) :
  Forall (λ e, 0 ≤ e)%Z shape →
  default_base (Dist := Dist) shape = Ok (StandardNormal shape).
Proof. intros Hs. unfold default_base. by rewrite decide_True. Qed.

Lemma default_base_negative (shape : Shape) :
  ¬ Forall (λ e, 0 ≤ e)%Z shape →
  raises (default_base (Dist := Dist) shape).
Proof. intros Hs. unfold default_base. rewrite decide_False by done. by eexists. Qed.

(** What [build_flow] goes through before its loop. *)
Lemma base_and_dim_Ok (event_shape : Shape) (link : Link) (base : option Dist)
    shape b dim :
  base_and_dim event_shape link base = Ok (shape, b, dim) →
  working_event_shape event_shape link = Ok shape ∧
  last_dim shape = Ok dim ∧
  b = match base with
      | None => StandardNormal shape
      | Some d => Given d
      end ∧
  (base = None → Forall (λ e, 0 ≤ e)%Z shape).
Proof.
  unfold base_and_dim.
  intros (shape' & Hshape & (b' & Hb & (dim' & Hdim & [= <- <- <-])%bind_Ok
    )%bind_Ok)%bind_Ok.
  split; [done|]. split; [done|].
  destruct base as [d|].
  - injection Hb as <-. split; [done|]. by intros [=].
  - unfold default_base in Hb. case_decide as Hs; [|done].
    injection Hb as <-. done.
Qed.

Lemma base_and_dim_returns (event_shape : Shape) (link : Link)
    (base : option Dist) shape dim :
  working_event_shape event_shape link = Ok shape →
  Forall (λ e, 0 ≤ e)%Z shape →
  last_dim shape = Ok dim →
  base_and_dim event_shape link base
    = Ok (shape, match base with
                 | None => StandardNormal shape
                 | Some d => Given d
                 end, dim).
Proof.
  intros Hshape Hs Hdim. unfold base_and_dim. rewrite Hshape, bind_Ok_l.
  destruct base as [d|].
  - by rewrite bind_Ok_l, Hdim.
  - by rewrite default_base_nonneg, bind_Ok_l, Hdim.
Qed.

(** C4.  For a nominal event shape [(n,)] and a link transform whose
    value on [zeros(n)] has [L] entries, [build_flow] works in dimension
    [n - (L - n)].  A link transform that reduces dimensionality by [m],
    such as the map onto the simplex of lines 352-353 with [m = 1], has a
    value of [L = n + m] entries, [m] more than the degrees of freedom it
    leaves, so the working dimension is [n - m]: it is the event shape of
    the default base distribution and the dimension every inner
    transform, permutation and batch normalization is built for.  When
    that dimension is not negative and no keyword argument is named
    [name] or [dim], [build_flow] returns whenever [get_transform] does
    for it; when it is negative, the default base distribution cannot be
    built and [build_flow] raises. *)
Theorem C4_build_flow_works_in_the_probed_dimension
    (g : G') (n L : Z) (link : Link) (num_flows : Z) (transform : string)
    (permute batch_norm : bool) (kwargs : gmap string Val) :
  len (link_shape link [n]) = Ok L →
  working_event_shape [n] link = Ok [n - (L - n)]%Z ∧
  (∀ m, L = (n + m)%Z → working_event_shape [n] link = Ok [n - m]%Z) ∧
  (∀ m d, L = (n + m)%Z →
          build_flow' g [n] link num_flows transform permute batch_norm None kwargs
            = Ok d →
          base_dist d = StandardNormal [n - m]%Z ∧
          Forall (built_for' g transform kwargs (n - m)%Z) (transforms d)) ∧
  (∀ t, (0 ≤ n - (L - n))%Z →
        kwargs !! "name" = None → kwargs !! "dim" = None →
        get_transform filter_kwrags_for_func g transform (n - (L - n))%Z kwargs
          = Ok t →
        returns (build_flow' g [n] link num_flows transform permute batch_norm
                   None kwargs)) ∧
  ((n - (L - n) < 0)%Z →
   raises (build_flow' g [n] link num_flows transform permute batch_norm
             None kwargs)).
Proof.
  intros HL. pose proof (working_event_shape_1d n L link HL) as Hw.
  split_and!.
  - done.
  - intros m ->. rewrite Hw. do 2 f_equal. lia.
  - intros m d -> Hd. replace (n - m)%Z with (n - (n + m - n))%Z by lia.
    unfold build_flow in Hd.
    apply bind_Ok in Hd as ([[shape b] dim] & Hpre & (fs & Hfs & [= <-])%bind_Ok).
    apply base_and_dim_Ok in Hpre as (Hshape & Hdim & -> & _).
    rewrite Hw in Hshape. injection Hshape as <-. injection Hdim as <-.
    simpl. split; [done|].
    apply Forall_app_2; [by eapply flow_layers_built|by repeat constructor].
  - intros t Hnn Hname Hdim Ht. unfold build_flow.
    rewrite (base_and_dim_returns [n] link None [n - (L - n)]%Z (n - (L - n))%Z)
      by (try done; by repeat constructor).
    rewrite bind_Ok_l.
    destruct (flow_layers_returns g transform (n - (L - n))%Z permute batch_norm
                (Z.to_nat num_flows) kwargs (seq 0 (Z.to_nat num_flows)) t
                Hname Hdim Hnn Ht) as [fs Hfs].
    rewrite Hfs. simpl. by eexists.
  - intros Hneg. unfold build_flow, base_and_dim. rewrite Hw, bind_Ok_l.
    destruct (default_base_negative [n - (L - n)]%Z) as [e ->]; [|by eexists].
    intros Hall. apply Forall_cons in Hall as [Hall _]. lia.
Qed.

End build_flow_facts.



(** C4, witness: nominal shape [(5,)] and a link transform onto the
    simplex, whose output has 6 entries; the working dimension is 4. *)
Lemma C4_witness :
  Flows.len (Flows.link_shape ex_link_longer [5%Z]) = Ok 6%Z ∧
  Flows.working_event_shape [5%Z] ex_link_longer = Ok [4%Z] ∧
  returns (Flows.build_flow ex_filter ex_registry [5%Z] ex_link_longer 2
             "affine_diag" true false None ∅).
Proof.
  pose proof (C4_build_flow_works_in_the_probed_dimension ex_filter ex_registry
                5 6 ex_link_longer 2 "affine_diag" true false ∅ eq_refl)
    as (Hw & _ & _ & Hret & _).
  split_and!.
  - reflexivity.
  - exact Hw.
  - apply (Hret "AffineTransform"); [lia|apply lookup_empty|apply lookup_empty|].
    by vm_compute.
Defined.

(** ** The loaders of [RatioEstimator._train] *)

Section loader_facts.
Import RatioEstimator Spec.

Lemma reshape_lengths {A} (szs : list nat) (l : list A) :
  sum_list szs ≤ length l →
  Forall2 (λ b sz, length b = sz) (reshape szs l) szs.
Proof.
  revert l. induction szs as [|sz szs IH]; intros l Hle; simpl in *.
  - constructor.
  - constructor.
    + rewrite length_take. lia.
    + apply IH. rewrite length_drop. lia.
Qed.

Lemma join_reshape_take {A} (szs : list nat) (l : list A) :
  mjoin (reshape szs l) = take (sum_list szs) l.
Proof.
  revert l. induction szs as [|sz szs IH]; intros l; simpl.
  - done.
  - rewrite IH. by rewrite take_take_drop.
Qed.

Lemma sum_list_app (xs ys : list nat) :
  sum_list (xs ++ ys) = sum_list xs + sum_list ys.
Proof. induction xs as [|x xs IH]; simpl; lia. Qed.

Lemma full_batches_fit (n b : nat) : n `div` b * b ≤ n.
Proof.
  destruct b as [|b]; [lia|].
  pose proof (Nat.div_mod_eq n (S b)). lia.
Qed.



Lemma slice_app {A} (l : list A) (k : Z) : slice_to l k ++ slice_from l k = l.
Proof. unfold slice_to, slice_from. case_decide; apply take_drop. Qed.

Lemma length_slice {A} (l : list A) (k : Z) :
  (0 ≤ k ≤ Z.of_nat (length l))%Z →
  Z.of_nat (length (slice_to l k)) = k ∧
  Z.of_nat (length (slice_from l k)) = (Z.of_nat (length l) - k)%Z.
Proof.
  intros Hk. unfold slice_to, slice_from. rewrite !decide_False by lia.
  rewrite length_take, length_drop. lia.
Qed.

End loader_facts.

(** ** Python's float arithmetic where it is exact *)

Section float_facts.
Import Float64.

Lemma digits2_pos_size (p : positive) : digits2_pos p = Pos.size p.
Proof. induction p as [p IH|p IH|]; simpl; by rewrite ?IH. Qed.

Lemma digits2_pos_shift (p k : positive) :
  digits2_pos (Pos.iter xO p k) = (digits2_pos p + k)%positive.
Proof.
  induction k as [|k IH] using Pos.peano_ind.
  - simpl. lia.
  - rewrite Pos.iter_succ. simpl. rewrite IH. lia.
Qed.

Lemma Zpos_shift (p k : positive) :
  Z.pos (Pos.iter xO p k) = (Z.pos p * 2 ^ Z.pos k)%Z.
Proof.
  induction k as [|k IH] using Pos.peano_ind.
  - simpl. lia.
  - rewrite Pos.iter_succ, Pos2Z.inj_succ, Z.pow_succ_r by lia.
    rewrite Pos2Z.inj_xO, IH. lia.
Qed.

(** A mantissa of 53 bits with an exponent in range is a float as it
    stands. *)
Lemma binary_round_aux_canonical (s : bool) (m : positive) (e : Z) :
  digits2_pos m = 53%positive → (-1074 ≤ e ≤ 971)%Z →
  binary_round_aux 53 1024 s (Z.pos m) e loc_Exact = S754_finite s m e.
Proof.
  intros Hd He. unfold binary_round_aux, shr_fexp, fexp, emin, Zdigits2.
  rewrite Hd.
  assert (Z.max (53 + e - 53) (3 - 1024 - 53) - e = 0)%Z as -> by lia.
  simpl. rewrite Hd.
  assert (Z.max (53 + e - 53) (3 - 1024 - 53) - e = 0)%Z as -> by lia.
  simpl. rewrite (proj2 (Z.leb_le e (1024 - 53))) by lia. done.
Qed.

(** The float nearest to a positive int below [2 ^ 53] is the int. *)
Lemma nearest_small (p : positive) :
  (Z.pos p < 2 ^ 53)%Z →
  ∃ m e, nearest (Z.pos p) = S754_finite false m e ∧
         digits2_pos m = 53%positive ∧ (-52 ≤ e ≤ 0)%Z ∧
         Z.pos m = (Z.pos p * 2 ^ (- e))%Z.
Proof.
  intros Hp. unfold nearest, binary_normalize, binary_round.
  pose proof (Pos.size_gt p) as Hgt. pose proof (Pos.size_le p) as Hle.
  assert (Z.pos (digits2_pos p) ≤ 53)%Z as Hd.
  { rewrite digits2_pos_size.
    destruct (decide (Z.pos (Pos.size p) ≤ 53)%Z) as [|Hn]; [done|exfalso].
    assert (2 ^ 54 ≤ 2 ^ Z.pos (Pos.size p))%Z as H54
      by (apply Z.pow_le_mono_r; lia).
    assert (Z.pos (2 ^ Pos.size p) ≤ Z.pos p~0)%Z as Hle' by lia.
    rewrite Pos2Z.inj_pow in Hle'. lia. }
  unfold fexp, emin, prec, emax.
  assert (Z.max (Z.pos (digits2_pos p) + 0 - 53) (3 - 1024 - 53)
          = Z.pos (digits2_pos p) - 53)%Z as -> by lia.
  unfold shl_align.
  destruct (Z.pos (digits2_pos p) - 53 - 0)%Z as [|k|k] eqn:Hk; [|lia|].
  - exists p, 0%Z.
    assert (digits2_pos p = 53%positive) as Hd53 by lia.
    rewrite (binary_round_aux_canonical false p 0 Hd53) by lia.
    split; [done|]. split; [done|]. split; lia.
  - exists (Pos.iter xO p k), (Z.pos (digits2_pos p) - 53)%Z.
    assert (digits2_pos (Pos.iter xO p k) = 53%positive) as Hd53
      by (rewrite digits2_pos_shift; lia).
    rewrite (binary_round_aux_canonical false _ _ Hd53) by lia.
    split; [done|]. split; [done|]. split; [lia|].
    rewrite Zpos_shift. do 2 f_equal. lia.
Qed.

Lemma shr_52 (m : positive) :
  SpecFloat.iter_pos shr_1 52
    {| shr_m := Z.pos (4503599627370496 * m); shr_r := false; shr_s := false |}
  = {| shr_m := Z.pos m; shr_r := false; shr_s := false |}.
Proof. reflexivity. Qed.

(** [1.0 * x] is [x]. *)
Lemma mul_one (m : positive) (e : Z) :
  digits2_pos m = 53%positive → (-1074 ≤ e ≤ 971)%Z →
  mul (nearest 1) (S754_finite false m e) = S754_finite false m e.
Proof.
  intros Hd He.
  change (nearest 1) with (S754_finite false 4503599627370496 (-52)).
  unfold mul, SFmul. change (xorb false false) with false.
  unfold binary_round_aux, shr_fexp, fexp, emin, Zdigits2, prec, emax.
  assert (digits2_pos (4503599627370496 * m) = 105%positive) as ->.
  { change (4503599627370496 * m)%positive
      with (Pos.iter xO m 52). rewrite digits2_pos_shift, Hd. done. }
  assert (Z.max (105 + (-52 + e) - 53) (3 - 1024 - 53) - (-52 + e) = 52)%Z
    as -> by lia.
  unfold shr, shr_record_of_loc. rewrite shr_52.
  unfold loc_of_shr_record, shr_m at 1, round_nearest_even. rewrite Hd.
  assert (Z.max (53 + (-52 + e + 52) - 53) (3 - 1024 - 53) - (-52 + e + 52) = 0)%Z
    as -> by lia.
  unfold shr_m. rewrite (proj2 (Z.leb_le (-52 + e + 52) (1024 - 53))) by lia.
  f_equal. lia.
Qed.

Lemma sub_zero (x y : float) : is_zero y → x = nearest 1 → sub x y = nearest 1.
Proof. intros Hy ->. by destruct y as [[]| | |]. Qed.

Lemma int_small (p m : positive) (e : Z) :
  (-52 ≤ e ≤ 0)%Z → Z.pos m = (Z.pos p * 2 ^ (- e))%Z →
  int (S754_finite false m e) = Ok (Z.pos p).
Proof.
  intros He Hm. unfold int, cond_Zopp. rewrite Hm. f_equal.
  destruct (e <? 0)%Z eqn:E.
  - rewrite Z.shiftr_div_pow2 by lia. apply Z.div_mul. lia.
  - apply Z.ltb_ge in E. assert (e = 0%Z) as -> by lia.
    rewrite Z.shiftl_0_r. simpl. lia.
Qed.

End float_facts.

Section train_setup_facts.
Import RatioEstimator Spec.
Context {F Net : Type}.

(** With a validation fraction of zero every example trains. *)
Lemma num_training_examples_all (validation_fraction : Float64.float) (n : Z) :
  Float64.is_zero validation_fraction → (0 ≤ n < 2 ^ 53)%Z →
  num_training_examples validation_fraction n = Ok n.
Proof.
  intros Hv Hn. unfold num_training_examples.
  rewrite (sub_zero (Float64.nearest 1) validation_fraction Hv eq_refl).
  destruct n as [|p|p]; [done| |lia].
  destruct (nearest_small p) as (m & e & Hnear & Hd & He & Hm); [lia|].
  unfold Float64.of_int. rewrite Hnear, bind_Ok_l.
  rewrite mul_one by (done || lia). by apply (int_small p).
Qed.

(** Without examples no example trains, or the product is NaN. *)
Lemma num_training_examples_empty (validation_fraction : Float64.float) :
  num_training_examples validation_fraction 0 = Ok 0%Z ∨
  is_ValueError (num_training_examples validation_fraction 0).
Proof.
  unfold num_training_examples.
  change (Float64.of_int 0) with (Ok (S754_zero false)). rewrite bind_Ok_l.
  destruct (Float64.sub (Float64.nearest 1) validation_fraction) as [s|s| |s m e];
    simpl; first [by left|right; by eexists].
Qed.

(** What [train_setup] returns, and when. *)
Lemma train_setup_Ok (self : @Self F Net) num_atoms requested validation_fraction
    hyper permuted_indices plan :
  train_setup self num_atoms requested validation_fraction hyper permuted_indices
    = Ok plan ↔
  ∃ T, num_training_examples validation_fraction (num_examples self) = Ok T ∧
       (0 < Z.min requested (num_examples self - T))%Z ∧
       plan = {| train_loader :=
                   {| batch_size :=
                        Z.to_nat (Z.min requested (num_examples self - T));
                      drop_last := true;
                      sampler := slice_to permuted_indices T |};
                 val_loader :=
                   {| batch_size :=
                        Z.to_nat (Z.min requested (num_examples self - T));
                      drop_last := false;
                      sampler := slice_from permuted_indices T |};
                 loss_num_atoms := num_atoms;
                 num_validation_examples := (num_examples self - T)%Z;
                 hyper := hyper |}.
Proof.
  unfold train_setup, DataLoader. split.
  - intros (T & HT & (tl & Htl & (vl & Hvl & [= <-])%bind_Ok)%bind_Ok)%bind_Ok.
    case_decide; [done|]. injection Htl as <-. injection Hvl as <-.
    exists T. split; [done|]. split; [lia|done].
  - intros (T & -> & Hpos & ->). rewrite bind_Ok_l.
    by rewrite !decide_False by lia.
Qed.

Lemma train_setup_too_small (self : @Self F Net) num_atoms requested
    validation_fraction hyper permuted_indices T :
  num_training_examples validation_fraction (num_examples self) = Ok T →
  (Z.min requested (num_examples self - T) ≤ 0)%Z →
  is_ValueError
    (train_setup self num_atoms requested validation_fraction hyper
       permuted_indices).
Proof.
  intros HT Hneg. unfold train_setup, DataLoader. rewrite HT, bind_Ok_l.
  case_decide; [|lia]. simpl. by eexists.
Qed.


End train_setup_facts.



(** ** The potential functions *)

Section potential_facts.
Import PotentialFunctionProvider Spec.
Context {F Net Prior : Type}.
Variables (fadd : F → F → F) (fneg : F → F).
Variable classifier_call : Net → list (list F) → list (list F).
Variable prior_log_prob : Prior → list (list F) → list F.
Variable x_of_rows : list (list F) → result (list (list F)).

#[local] Abbreviation np_potential' :=
  (np_potential fadd classifier_call prior_log_prob x_of_rows).
#[local] Abbreviation pyro_potential' :=
  (pyro_potential fadd fneg classifier_call prior_log_prob x_of_rows).

Lemma ensure_theta_batched_single_row (theta : Tensor) (v : list F) :
  single_row theta v → ensure_theta_batched theta = [v].
Proof. by intros [-> | ->]. Qed.

Lemma ensure_x_batched_single_row (x : Tensor) (v : list F) :
  single_row x v → ensure_x_batched x_of_rows x = Ok [v].
Proof. by intros [-> | ->]. Qed.

Lemma log_ratio_plus_prior_single_row (self : Self) (theta : Tensor) (v xv : list F) :
  single_row theta v → single_row (x self) xv →
  log_ratio_plus_prior fadd classifier_call prior_log_prob x_of_rows self theta
    = add_rows fadd (classifier_call (classifier self) [v ++ xv])
               (prior_log_prob (prior self) [v]).
Proof.
  intros Ht Hx. unfold log_ratio_plus_prior.
  rewrite (ensure_theta_batched_single_row _ _ Ht),
          (ensure_x_batched_single_row _ _ Hx), bind_Ok_l.
  unfold Torch.cat1. simpl. by rewrite app_nil_r.
Qed.

(** C7.  For a parameter [theta] and an observation that each stand for a
    single row, unbatched or batched, both potentials evaluate the
    classifier on the one row [theta ++ x]; [np_potential] returns the
    log-ratio plus [prior.log_prob(theta)] and [pyro_potential] the
    negation of that sum, entry by entry.  With a scalar logit [r] and a
    prior log-density [p] they are [r + p] and [-(r + p)].  For every
    input whatever its shape, [pyro_potential] is the negation of
    [np_potential]. *)
Theorem C7_potentials_are_log_ratio_plus_prior_and_its_negation
    (self : Self) (theta : Tensor) (v xv : list F) (name : string)
    (others : list (string * Tensor)) :
  single_row theta v → single_row (x self) xv →
  np_potential' self theta
    = add_rows fadd (classifier_call (classifier self) [v ++ xv])
               (prior_log_prob (prior self) [v]) ∧
  pyro_potential' self ((name, theta) :: others)
    = neg fneg <$> add_rows fadd (classifier_call (classifier self) [v ++ xv])
                            (prior_log_prob (prior self) [v]) ∧
  (∀ r p,
      classifier_call (classifier self) [v ++ xv] = [[r]] →
      prior_log_prob (prior self) [v] = [p] →
      np_potential' self theta = Ok [[fadd r p]] ∧
      pyro_potential' self ((name, theta) :: others) = Ok [[fneg (fadd r p)]]) ∧
  (∀ t : Tensor,
      pyro_potential' self ((name, t) :: others)
        = neg fneg <$> np_potential' self t).
Proof.
  intros Ht Hx.
  assert (∀ t : Tensor,
            pyro_potential' self ((name, t) :: others)
              = neg fneg <$> np_potential' self t) as Hneg.
  { intros t. unfold pyro_potential, np_potential. simpl.
    by destruct (log_ratio_plus_prior _ _ _ _ _ t). }
  assert (np_potential' self theta
            = add_rows fadd (classifier_call (classifier self) [v ++ xv])
                       (prior_log_prob (prior self) [v])) as Hnp.
  { unfold np_potential. by apply log_ratio_plus_prior_single_row. }
  split_and!.
  - exact Hnp.
  - by rewrite Hneg, Hnp.
  - intros r p Hr Hp.
    assert (np_potential' self theta = Ok [[fadd r p]]) as Hval.
    { rewrite Hnp, Hr, Hp. reflexivity. }
    split; [exact Hval|]. by rewrite Hneg, Hval.
  - exact Hneg.
Qed.

End potential_facts.

(** C7, witness: [theta = (1, 2)] unbatched and [x = (10, 20)]; the logit
    is 33 and the prior log-density 1, so the potentials are 34 and -34. *)
Lemma C7_witness :
  Spec.single_row (PotentialFunctionProvider.T1 [1; 2]%Z) [1; 2]%Z ∧
  Spec.single_row (PotentialFunctionProvider.x ex_provider) [10; 20]%Z ∧
  PotentialFunctionProvider.np_potential Z.add ex_classifier_call
      ex_prior ex_x_of_rows ex_provider (PotentialFunctionProvider.T1 [1; 2]%Z)
    = Ok [[34%Z]] ∧
  PotentialFunctionProvider.pyro_potential Z.add Z.opp ex_classifier_call
      ex_prior ex_x_of_rows ex_provider
      [("theta", PotentialFunctionProvider.T1 [1; 2]%Z)]
    = Ok [[(-34)%Z]].
Proof.
  assert (Spec.single_row (PotentialFunctionProvider.T1 [1; 2]%Z) [1; 2]%Z)
    as Ht by (by left).
  assert (Spec.single_row (PotentialFunctionProvider.x ex_provider) [10; 20]%Z)
    as Hx by (by left).
  split; [exact Ht|]. split; [exact Hx|].
  destruct (C7_potentials_are_log_ratio_plus_prior_and_its_negation
              Z.add Z.opp ex_classifier_call ex_prior ex_x_of_rows ex_provider
              (PotentialFunctionProvider.T1 [1; 2]%Z) [1; 2]%Z [10; 20]%Z
              "theta" [] Ht Hx) as (_ & _ & Hval & _).
  exact (Hval 33%Z 1%Z eq_refl eq_refl).
Defined.

(** ** Rational numbers and the unit interval *)

Section rational_facts.
Import Torch.

Lemma Qle_bool_false (a b : Q) : Qle_bool a b = false → (b < a)%Q.
Proof.
  intros Hf. apply Qnot_le_lt. intros Hle. apply Qle_bool_iff in Hle. congruence.
Qed.

Lemma Qle_bool_true (a b : Q) : Qle_bool a b = true → (a <= b)%Q.
Proof. apply Qle_bool_iff. Qed.

Lemma frac_range (r : Q) : (0 <= frac r)%Q ∧ (frac r < 1)%Q.
Proof.
  unfold frac. pose proof (Qfloor_le r) as Hle. pose proof (Qlt_floor r) as Hlt.
  rewrite inject_Z_plus in Hlt. change (inject_Z 1) with 1%Q in Hlt.
  split; lra.
Qed.

Lemma frac_fixes_unit (r : Q) : (0 <= r)%Q → (r < 1)%Q → (frac r == r)%Q.
Proof.
  intros H0 H1. unfold frac.
  assert (Qfloor r = 0%Z) as ->.
  { pose proof (Qfloor_le r) as Hle. pose proof (Qlt_floor r) as Hlt.
    assert (inject_Z (Qfloor r) < inject_Z 1)%Q as Ha by (change (inject_Z 1) with 1%Q; lra).
    assert (inject_Z (-1) < inject_Z (Qfloor r))%Q as Hb.
    { rewrite inject_Z_plus in Hlt. change (inject_Z 1) with 1%Q in Hlt.
      change (inject_Z (-1)) with (-1)%Q. lra. }
    rewrite <- Zlt_Qlt in Ha, Hb. lia. }
  change (inject_Z 0) with 0%Q. lra.
Qed.

Lemma Qfloor_cell (x : Q) (z : Z) :
  Qfloor x = z ↔ (inject_Z z <= x ∧ x < inject_Z z + 1)%Q.
Proof.
  pose proof (Qfloor_le x) as Hle. pose proof (Qlt_floor x) as Hlt.
  rewrite inject_Z_plus in Hlt. change (inject_Z 1) with 1%Q in Hlt.
  split.
  - intros <-. split; lra.
  - intros [H1 H2].
    assert (inject_Z (Qfloor x) < inject_Z (z + 1))%Q as Ha
      by (rewrite inject_Z_plus; change (inject_Z 1) with 1%Q; lra).
    assert (inject_Z z < inject_Z (Qfloor x + 1))%Q as Hb
      by (rewrite inject_Z_plus; change (inject_Z 1) with 1%Q; lra).
    rewrite <- Zlt_Qlt in Ha, Hb. lia.
Qed.

Lemma to_nat_Qfloor_cell (x : Q) (p : nat) :
  (0 <= x)%Q →
  Z.to_nat (Qfloor x) = p
    ↔ (inject_Z (Z.of_nat p) <= x ∧ x < inject_Z (Z.of_nat p) + 1)%Q.
Proof.
  intros Hx. rewrite <- Qfloor_cell.
  assert (0 ≤ Qfloor x)%Z.
  { change 0%Z with (Qfloor 0). by apply Qfloor_resp_le. }
  lia.
Qed.

Lemma scaled_unit (f : Q) (k : nat) :
  (0 <= f)%Q → (f < 1)%Q → 0 < k →
  (0 <= f * inject_Z (Z.of_nat k))%Q ∧
  (f * inject_Z (Z.of_nat k) < inject_Z (Z.of_nat k))%Q.
Proof.
  intros H0 H1 Hk.
  assert (0 < inject_Z (Z.of_nat k))%Q as Hpos.
  { change 0%Q with (inject_Z 0). rewrite <- Zlt_Qlt. lia. }
  split; nra.
Qed.

End rational_facts.

(** ** The weight matrix and the categories of its rows *)

Section weights.
Import Torch.

Lemma weight_zero_iff (B i j : nat) :
  2 ≤ B →
  Qeq_bool (1 * (1 - eye i j) / inject_Z (Z.of_nat B - 1)) 0 = bool_decide (i = j).
Proof.
  intros HB. unfold eye. case_decide as Hij.
  - rewrite bool_decide_eq_true_2 by done.
    apply Qeq_bool_iff. unfold Qdiv. ring.
  - rewrite bool_decide_eq_false_2 by done.
    destruct (Z.of_nat B - 1)%Z as [|p|p] eqn:Hp; try lia.
    reflexivity.
Qed.

Lemma probs_lookup (B i : nat) :
  i < B →
  probs B !! i
    = Some ((λ j, (1 * (1 - eye i j) / inject_Z (Z.of_nat B - 1))%Q) <$> seq 0 B).
Proof.
  intros Hi. unfold probs. rewrite list_lookup_fmap, lookup_seq_lt by done.
  reflexivity.
Qed.

Lemma length_probs (B : nat) : length (probs B) = B.
Proof. unfold probs. by rewrite length_fmap, length_seq. Qed.

Lemma elem_of_others (B i j : nat) :
  j ∈ filter (λ j, j ≠ i) (seq 0 B) ↔ j < B ∧ j ≠ i.
Proof. rewrite list_elem_of_filter, elem_of_seq. lia. Qed.

Lemma NoDup_others (B i : nat) : NoDup (filter (λ j, j ≠ i) (seq 0 B)).
Proof. apply NoDup_filter, NoDup_seq. Qed.

Lemma filter_ne_seq_outside (i j n : nat) :
  i < j ∨ j + n ≤ i → filter (λ k, k ≠ i) (seq j n) = seq j n.
Proof.
  revert j. induction n as [|n IH]; intros j Hout; simpl; [done|].
  rewrite filter_cons, decide_True by lia. f_equal. apply IH. lia.
Qed.

Lemma length_filter_ne_seq (i j n : nat) :
  j ≤ i < j + n → length (filter (λ k, k ≠ i) (seq j n)) = n - 1.
Proof.
  revert j. induction n as [|n IH]; intros j Hin; simpl; [lia|].
  rewrite filter_cons. case_decide as Hj.
  - simpl. rewrite IH by lia. lia.
  - assert (j = i) as -> by lia.
    rewrite filter_ne_seq_outside by lia. rewrite length_seq. lia.
Qed.

Lemma length_others (B i : nat) :
  i < B → length (filter (λ j, j ≠ i) (seq 0 B)) = B - 1.
Proof. intros Hi. apply length_filter_ne_seq. lia. Qed.

End weights.

(** ** Taking by position *)

Section arrange_facts.
Import Torch Spec.

Lemma arrange_S (cands : list nat) (n : nat) (v : nat → nat) (js : list nat) :
  arrange cands (S n) v = Ok js ↔
  ∃ j js', cands !! (v 0 `mod` length cands) = Some j ∧
           arrange (delete (v 0 `mod` length cands) cands) n (λ t, v (S t)) = Ok js' ∧
           js = j :: js'.
Proof.
  simpl. destruct (cands !! _) as [j|]; split.
  - intros (js' & Hjs' & [= <-])%bind_Ok. eauto.
  - intros (j' & js' & [= <-] & Hjs' & ->). by rewrite Hjs'.
  - discriminate.
  - intros (j' & js' & [=] & _).
Qed.

Lemma delete_as_app {A} (l : list A) (p : nat) (x : A) :
  l !! p = Some x →
  ∃ l1 l2, l = l1 ++ x :: l2 ∧ delete p l = l1 ++ l2.
Proof.
  intros Hp. exists (take p l), (drop (S p) l). split.
  - by rewrite take_drop_middle.
  - apply delete_take_drop.
Qed.

Lemma NoDup_delete_lookup (l : list nat) (p j : nat) :
  NoDup l → l !! p = Some j →
  NoDup (delete p l) ∧ (j ∉ delete p l) ∧
  (∀ x, x ∈ delete p l ↔ x ∈ l ∧ x ≠ j).
Proof.
  intros Hnd Hp. destruct (delete_as_app l p j Hp) as (l1 & l2 & Hl & Hd).
  rewrite Hd. clear Hd Hp. subst l.
  apply NoDup_app in Hnd as (Hnd1 & Hdisj & Hnd2).
  apply NoDup_cons in Hnd2 as [Hj2 Hnd2].
  assert (j ∉ l1) as Hj1.
  { intros Hin. apply (Hdisj j Hin). by left. }
  split_and!.
  - apply NoDup_app. split_and!; [done| |done].
    intros x Hx1 Hx2. apply (Hdisj x Hx1). by right.
  - rewrite elem_of_app. tauto.
  - intros x. rewrite !elem_of_app, elem_of_cons.
    split.
    + intros [Hx|Hx]; (split; [tauto|]); by intros ->.
    + tauto.
Qed.

(** Enough candidates: every position is taken. *)
Lemma arrange_total (cands : list nat) (n : nat) (v : nat → nat) :
  n ≤ length cands → returns (arrange cands n v).
Proof.
  revert cands v. induction n as [|n IH]; intros cands v Hn.
  - by eexists.
  - assert (v 0 `mod` length cands < length cands) as Hp
      by (apply Nat.mod_upper_bound; lia).
    destruct (lookup_lt_is_Some_2 cands _ Hp) as [j Hj].
    destruct (IH (delete (v 0 `mod` length cands) cands) (λ t, v (S t)))
      as [js' Hjs'].
    { rewrite length_delete by eauto. lia. }
    exists (j :: js'). apply arrange_S. eauto.
Qed.

(** Too few candidates. *)
Lemma arrange_too_many (cands : list nat) (n : nat) (v : nat → nat) :
  length cands < n → raises (arrange cands n v).
Proof.
  revert cands v. induction n as [|n IH]; intros cands v Hn; [lia|].
  simpl. destruct (cands !! _) as [j|] eqn:Hj.
  - destruct (IH (delete (v 0 `mod` length cands) cands) (λ t, v (S t)))
      as [e He].
    { rewrite length_delete by eauto. apply lookup_lt_Some in Hj. lia. }
    rewrite He. by eexists.
  - by eexists.
Qed.

(** What is taken: [n] pairwise distinct candidates. *)
Lemma arrange_spec (cands : list nat) (n : nat) (v : nat → nat) (js : list nat) :
  NoDup cands → arrange cands n v = Ok js →
  length js = n ∧ NoDup js ∧ ∀ j, j ∈ js → j ∈ cands.
Proof.
  revert cands v js. induction n as [|n IH]; intros cands v js Hnd.
  - intros [= <-]. split_and!; [done|constructor|]. by intros j ?%elem_of_nil.
  - intros (j & js' & Hj & Hjs' & ->)%arrange_S.
    destruct (NoDup_delete_lookup cands _ j Hnd Hj) as (Hnd' & Hnotin & Hiff).
    destruct (IH _ _ _ Hnd' Hjs') as (Hlen & Hndjs & Hsub).
    split_and!.
    + simpl. by rewrite Hlen.
    + apply NoDup_cons. split; [|done].
      intros Hin. by apply Hnotin, Hsub.
    + intros x [->|Hx]%elem_of_cons.
      * by eapply list_elem_of_lookup_2.
      * by apply Hiff, Hsub.
Qed.

(** Every list of [n] pairwise distinct candidates is taken by some
    canonical sequence of positions. *)
Lemma arrange_reaches (cands js : list nat) :
  NoDup cands → NoDup js → (∀ j, j ∈ js → j ∈ cands) →
  ∃ v, canonical (length cands) (length js) v ∧
       arrange cands (length js) v = Ok js.
Proof.
  revert cands. induction js as [|j js IH]; intros cands Hnd Hndjs Hsub.
  - exists (λ _, 0). split; [|done]. intros t Ht. simpl in Ht. lia.
  - apply NoDup_cons in Hndjs as [Hj Hndjs].
    destruct (list_elem_of_lookup_1 cands j) as [p Hp].
    { apply Hsub. by left. }
    destruct (NoDup_delete_lookup cands p j Hnd Hp) as (Hnd' & _ & Hiff).
    destruct (IH (delete p cands) Hnd' Hndjs) as (v' & Hcan' & Hdraw').
    { intros x Hx. apply Hiff. split; [apply Hsub; by right|]. by intros ->. }
    pose proof (lookup_lt_Some _ _ _ Hp) as Hlt.
    exists (λ t, match t with O => p | S t' => v' t' end). split.
    + intros [|t] Ht; simpl in *; [lia|].
      specialize (Hcan' t). rewrite length_delete in Hcan' by eauto. lia.
    + simpl length. apply arrange_S. exists j, js.
      rewrite Nat.mod_small by done. done.
Qed.

(** Two canonical sequences of positions that take the same list agree on
    every position that is used. *)
Lemma arrange_injective (cands : list nat) (n : nat) (v v' : nat → nat)
    (js : list nat) :
  NoDup cands →
  canonical (length cands) n v → canonical (length cands) n v' →
  arrange cands n v = Ok js → arrange cands n v' = Ok js →
  ∀ t, t < n → v t = v' t.
Proof.
  revert cands v v' js. induction n as [|n IH];
    intros cands v v' js Hnd Hv Hv' Hd Hd' t Ht; [lia|].
  apply arrange_S in Hd as (j & js1 & Hj & Hjs1 & ->).
  apply arrange_S in Hd' as (j' & js2 & Hj' & Hjs2 & [= <- <-]).
  pose proof (Hv 0 ltac:(lia)) as H0. pose proof (Hv' 0 ltac:(lia)) as H0'.
  rewrite Nat.mod_small in Hj, Hjs1 by lia.
  rewrite Nat.mod_small in Hj', Hjs2 by lia.
  assert (v 0 = v' 0) as Heq0 by (by eapply NoDup_lookup).
  destruct t as [|t]; [done|].
  rewrite <- Heq0 in Hjs2.
  assert (length (delete (v 0) cands) = length cands - 1) as Hlen
    by (rewrite length_delete by eauto; lia).
  destruct (NoDup_delete_lookup cands _ j Hnd Hj) as (Hnd' & _ & _).
  apply (IH (delete (v 0) cands) (λ t, v (S t)) (λ t, v' (S t)) js1); try done.
  - intros s Hs. specialize (Hv (S s)). rewrite Hlen. lia.
  - intros s Hs. specialize (Hv' (S s)). rewrite Hlen. lia.
  - lia.
Qed.


Lemma arrange_ext (cands : list nat) (n : nat) (v v' : nat → nat) :
  (∀ t, t < n → v t = v' t) → arrange cands n v = arrange cands n v'.
Proof.
  revert cands v v'. induction n as [|n IH]; intros cands v v' Hvv'; [done|].
  simpl. rewrite <- (Hvv' 0) by lia.
  destruct (cands !! _) as [j|]; [|done].
  rewrite (IH _ (λ t, v (S t)) (λ t, v' (S t))); [done|].
  intros t Ht. apply Hvv'. lia.
Qed.

End arrange_facts.

(** ** Drawing without replacement *)

Section weighted_draw_facts.
Import Torch Spec.

Lemma live_cons_zero (c : nat * Q) (cands : list (nat * Q)) :
  (c.2 == 0)%Q → live (c :: cands) = live cands.
Proof.
  intros Hc. unfold live. rewrite filter_cons_False; [done|].
  apply Qeq_bool_iff in Hc. by rewrite Hc.
Qed.

Lemma live_cons_weight (cw : Q) (c : nat * Q) (cands : list (nat * Q)) :
  (0 < cw)%Q → (c.2 == cw)%Q → live (c :: cands) = c.1 :: live cands.
Proof.
  intros Hcw Hc. unfold live. rewrite filter_cons_True; [done|].
  destruct (Qeq_bool c.2 0) eqn:E; [|done].
  apply Qeq_bool_iff in E. lra.
Qed.

Lemma total_two_weights (cw : Q) (cands : list (nat * Q)) :
  (0 < cw)%Q → two_weights cw cands →
  (total cands == inject_Z (Z.of_nat (length (live cands))) * cw)%Q.
Proof.
  intros Hcw. induction 1 as [|c cands [Hc|Hc] _ IH]; simpl.
  - change (live []) with (@nil nat). simpl. ring.
  - rewrite (live_cons_weight cw) by done. simpl length.
    rewrite Nat2Z.inj_succ, <- Z.add_1_r, inject_Z_plus.
    change (inject_Z 1) with 1%Q. fold (total cands). rewrite IH, Hc. ring.
  - rewrite live_cons_zero by done. fold (total cands). rewrite IH, Hc. ring.
Qed.

(** Among categories of equal weight, the stretch of the cumulative
    weights that holds [x * cw] is the one of the live category number
    [floor x]. *)
Lemma locate_live (cw : Q) (cands : list (nat * Q)) (x t : Q) :
  (0 < cw)%Q → two_weights cw cands →
  (t == x * cw)%Q → (0 <= x)%Q →
  (x < inject_Z (Z.of_nat (length (live cands))))%Q →
  ∃ j w,
    cands !! locate cands t = Some (j, w) ∧
    live cands !! Z.to_nat (Qfloor x) = Some j ∧
    live (delete (locate cands t) cands) = delete (Z.to_nat (Qfloor x)) (live cands).
Proof.
  intros Hcw Hall. revert x t.
  induction Hall as [|[j0 w0] cands Hc _ IH]; intros x t Ht Hx0 Hxk.
  - change (inject_Z (Z.of_nat (length (live [])))) with 0%Q in Hxk. lra.
  - simpl in Hc. destruct Hc as [Hc|Hc].
    + rewrite (live_cons_weight cw) in * by done. simpl fst in *.
      simpl length in Hxk.
      rewrite Nat2Z.inj_succ, <- Z.add_1_r, inject_Z_plus in Hxk.
      change (inject_Z 1) with 1%Q in Hxk.
      simpl locate. destruct (Qle_bool w0 t) eqn:E.
      * apply Qle_bool_true in E.
        assert (1 <= x)%Q as Hx1 by nra.
        destruct (IH (x - 1)%Q (t - w0)%Q) as (j & w & Hq & Hp & Hdel);
          [lra|lra|lra|].
        assert (Z.to_nat (Qfloor x) = S (Z.to_nat (Qfloor (x - 1)))) as ->.
        { assert (Qfloor (x - 1) = Qfloor x - 1)%Z as ->.
          { apply Qfloor_cell. pose proof (Qfloor_le x). pose proof (Qlt_floor x) as Hlt.
            rewrite inject_Z_plus in Hlt. unfold Z.sub. rewrite inject_Z_plus.
            change (inject_Z 1) with 1%Q in Hlt. change (inject_Z (Z.opp 1)) with (-1)%Q.
            split; lra. }
          assert (1 ≤ Qfloor x)%Z.
          { change 1%Z with (Qfloor 1). by apply Qfloor_resp_le. }
          lia. }
        set (p' := Z.to_nat (Qfloor (x - 1))) in *.
        exists j, w. split_and!; [done..|].
        simpl. by rewrite (live_cons_weight cw), Hdel by done.
      * apply Qle_bool_false in E.
        assert (x < 1)%Q as Hx1 by nra.
        assert (Z.to_nat (Qfloor x) = 0) as ->.
        { apply to_nat_Qfloor_cell; [done|].
          change (inject_Z (Z.of_nat 0)) with 0%Q. split; lra. }
        exists j0, w0. done.
    + rewrite live_cons_zero in * by done.
      simpl locate.
      assert (Qle_bool w0 t = true) as ->.
      { apply Qle_bool_iff. nra. }
      destruct (IH x (t - w0)%Q) as (j & w & Hq & Hp & Hdel); [lra|done|done|].
      set (p := Z.to_nat (Qfloor x)) in *.
      exists j, w. split_and!; [done..|].
      simpl. by rewrite live_cons_zero.
Qed.

Lemma two_weights_delete (cw : Q) (cands : list (nat * Q)) (p : nat) :
  two_weights cw cands → two_weights cw (delete p cands).
Proof. apply Forall_delete. Qed.

Lemma positions_lt (m : nat) (r : nat → Q) (t : nat) :
  t < m → positions m r t < m - t.
Proof.
  intros Ht. unfold positions.
  destruct (frac_range (r t)) as [H0 H1].
  destruct (scaled_unit (frac (r t)) (m - t) H0 H1 ltac:(lia)) as [Ha Hb].
  assert (Qfloor (frac (r t) * inject_Z (Z.of_nat (m - t))) < Z.of_nat (m - t))%Z.
  { rewrite Zlt_Qlt. pose proof (Qfloor_le (frac (r t) * inject_Z (Z.of_nat (m - t)))).
    lra. }
  lia.
Qed.

(** The draw among categories of equal weight: every draw takes the live
    category at the position that its random number picks. *)
Lemma draw_equal_weights (cw : Q) (cands : list (nat * Q)) (n : nat) (u : nat → Q) :
  (0 < cw)%Q → two_weights cw cands → n ≤ length (live cands) →
  draw cands n u = arrange (live cands) n (positions (length (live cands)) u).
Proof.
  intros Hcw. revert cands u. induction n as [|n IH]; intros cands u Hall Hn; [done|].
  set (k := length (live cands)) in *.
  destruct (frac_range (u 0)) as [H0 H1].
  destruct (scaled_unit (frac (u 0)) k H0 H1 ltac:(lia)) as [Ha Hb].
  pose proof (total_two_weights cw cands Hcw Hall) as Htot. fold k in Htot.
  assert (0 < inject_Z (Z.of_nat k))%Q as Hk.
  { change 0%Q with (inject_Z 0). rewrite <- Zlt_Qlt. lia. }
  destruct (locate_live cw cands (frac (u 0) * inject_Z (Z.of_nat k))
              (frac (u 0) * total cands) Hcw Hall)
    as (j & w & Hq & Hp & Hdel); [rewrite Htot; ring|done|done|].
  assert (positions k u 0 = Z.to_nat (Qfloor (frac (u 0) * inject_Z (Z.of_nat k))))
    as Hpos by (unfold positions; by rewrite Nat.sub_0_r).
  pose proof (lookup_lt_Some _ _ _ Hp) as Hlt. fold k in Hlt.
  simpl. unfold pick.
  assert (Qle_bool (total cands) 0 = false) as ->.
  { destruct (Qle_bool (total cands) 0) eqn:E; [|done].
    apply Qle_bool_true in E. nra. }
  rewrite Hq. fold k. rewrite Hpos, Nat.mod_small by done. rewrite Hp.
  rewrite IH; [|by apply two_weights_delete|rewrite Hdel, length_delete by eauto; fold k; lia].
  rewrite Hdel, length_delete by eauto. fold k.
  f_equal. apply arrange_ext. intros t Ht. unfold positions.
  by replace (k - 1 - t) with (k - S t) by lia.
Qed.

Lemma positions_cells (m n : nat) (v : nat → nat) (r : nat → Q) :
  (∀ t, t < n → positions m r t = v t) ↔ cells m n v r.
Proof.
  unfold cells, in_cell, positions.
  assert (∀ t, 0 <= frac (r t) * inject_Z (Z.of_nat (m - t)))%Q as Hnn.
  { intros t. destruct (frac_range (r t)) as [Hf0 Hf1].
    assert (0 <= inject_Z (Z.of_nat (m - t)))%Q.
    { change 0%Q with (inject_Z 0). rewrite <- Zle_Qle. lia. }
    nra. }
  split; intros H t Ht; specialize (H t Ht).
  - by apply to_nat_Qfloor_cell in H.
  - by apply to_nat_Qfloor_cell.
Qed.

End weighted_draw_facts.

(** ** Drawing among categories of any weights *)

Section general_draw_facts.
Import Torch Spec.

Lemma fmap_delete {A B} (f : A → B) (l : list A) (p : nat) :
  f <$> delete p l = delete p (f <$> l).
Proof.
  revert p. induction l as [|a l IH]; intros [|p]; simpl; try done.
  by rewrite <- IH.
Qed.

Lemma total_nonneg (cands : list (nat * Q)) :
  Forall (λ c, 0 <= c.2)%Q cands → (0 <= total cands)%Q.
Proof.
  induction 1 as [|c cands Hc _ IH]; simpl; [lra|].
  fold (total cands). lra.
Qed.

Lemma locate_lt (cands : list (nat * Q)) (t : Q) :
  Forall (λ c, 0 <= c.2)%Q cands → (0 <= t)%Q → (t < total cands)%Q →
  locate cands t < length cands.
Proof.
  intros Hall. revert t. induction Hall as [|c cands Hc _ IH]; intros t H0 Ht.
  - simpl in Ht. lra.
  - simpl in *. fold (total cands) in Ht.
    destruct (Qle_bool c.2 t) eqn:E; [|lia].
    apply Qle_bool_true in E.
    specialize (IH (t - c.2)%Q). apply Nat.succ_lt_mono in IH; [done|lra|lra].
Qed.

(** A draw among categories of non-negative weights takes one of
    them. *)
Lemma pick_lt (cands : list (nat * Q)) (r : Q) :
  Forall (λ c, 0 <= c.2)%Q cands → 0 < length cands →
  pick cands r < length cands.
Proof.
  intros Hall Hlen. unfold pick.
  destruct (frac_range r) as [H0 H1].
  destruct (Qle_bool (total cands) 0) eqn:E.
  - destruct (scaled_unit (frac r) (length cands) H0 H1 Hlen) as [Ha Hb].
    assert (Qfloor (frac r * inject_Z (Z.of_nat (length cands)))
            < Z.of_nat (length cands))%Z.
    { rewrite Zlt_Qlt.
      pose proof (Qfloor_le (frac r * inject_Z (Z.of_nat (length cands)))). lra. }
    lia.
  - apply Qle_bool_false in E. apply locate_lt; [done|nra|nra].
Qed.

(** Drawing no more categories than there are returns pairwise distinct
    categories of the row. *)
Lemma draw_returns (cands : list (nat * Q)) (n : nat) (u : nat → Q) :
  Forall (λ c, 0 <= c.2)%Q cands → NoDup cands.*1 → n ≤ length cands →
  ∃ js, draw cands n u = Ok js ∧ length js = n ∧ NoDup js ∧
        ∀ j, j ∈ js → j ∈ cands.*1.
Proof.
  revert cands u. induction n as [|n IH]; intros cands u Hall Hnd Hn.
  - exists []. split_and!; [done|done|constructor|]. by intros j ?%elem_of_nil.
  - pose proof (pick_lt cands (u 0) Hall ltac:(lia)) as Hp.
    destruct (lookup_lt_is_Some_2 cands _ Hp) as [[j w] Hj].
    assert (cands.*1 !! pick cands (u 0) = Some j) as Hj1
      by (by rewrite list_lookup_fmap, Hj).
    destruct (NoDup_delete_lookup cands.*1 _ j Hnd Hj1) as (Hnd' & Hnotin & Hiff).
    rewrite <- fmap_delete in Hnd', Hnotin, Hiff.
    destruct (IH (delete (pick cands (u 0)) cands) (λ t, u (S t)))
      as (js & Hjs & Hlen & Hndjs & Hsub).
    { by apply Forall_delete. }
    { done. }
    { rewrite length_delete by eauto. lia. }
    exists (j :: js). split_and!.
    + simpl. by rewrite Hj, Hjs.
    + simpl. by rewrite Hlen.
    + apply NoDup_cons. split; [|done]. intros Hin. by apply Hnotin, Hsub.
    + intros x [->|Hx]%elem_of_cons.
      * by eapply list_elem_of_lookup_2.
      * by apply Hiff, Hsub.
Qed.

End general_draw_facts.

(** ** [multinomial] on the weight matrix *)

Section multinomial_facts.
Import Torch Atoms Spec.

Lemma mapM_cons {A B} (f : A → result B) (x : A) (l : list A) :
  mapM f (x :: l) = f x ≫= λ y, mapM f l ≫= λ k, Ok (y :: k).
Proof. reflexivity. Qed.

Lemma mapM_id_imap_returns {A B} (f : nat → A → result B) (l : list A) :
  (∀ i x, l !! i = Some x → returns (f i x)) → returns (mapM id (imap f l)).
Proof.
  revert f. induction l as [|x l IH]; intros f Hf.
  - by eexists.
  - destruct (Hf 0 x eq_refl) as [y Hy].
    destruct (IH (f ∘ S)) as [k Hk].
    { intros i x' Hi. apply (Hf (S i) x' Hi). }
    rewrite imap_cons, mapM_cons, Hk. unfold id at 1.
    rewrite Hy. by eexists.
Qed.

Lemma mapM_id_imap_Ok {A B} (f : nat → A → result B) (l : list A) (k : list B) :
  mapM id (imap f l) = Ok k →
  length k = length l ∧
  ∀ i x, l !! i = Some x → ∃ y, f i x = Ok y ∧ k !! i = Some y.
Proof.
  intros H2%mapM_Ok. split.
  - apply Forall2_length in H2. by rewrite length_imap in H2.
  - intros i x Hx.
    destruct (Forall2_lookup_l _ _ _ i (f i x) H2) as (y & Hy & Hfy).
    { by rewrite list_lookup_imap, Hx. }
    eauto.
Qed.

Lemma forallb_true {A} (f : A → bool) (l : list A) :
  forallb f l = true ↔ Forall (λ v, f v = true) l.
Proof.
  induction l as [|a l IH]; simpl.
  - split; [constructor|done].
  - rewrite andb_true_iff, Forall_cons, IH. done.
Qed.

Lemma forallb_false {A} (f : A → bool) (l : list A) :
  forallb f l = false ↔ Exists (λ v, f v = false) l.
Proof.
  induction l as [|a l IH]; simpl.
  - split; [done|by inversion 1].
  - rewrite andb_false_iff, Exists_cons, IH. done.
Qed.

Lemma existsb_false {A} (f : A → bool) (l : list A) :
  existsb f l = false ↔ Forall (λ v, f v = false) l.
Proof.
  induction l as [|a l IH]; simpl.
  - split; [constructor|done].
  - rewrite orb_false_iff, Forall_cons, IH. done.
Qed.

Lemma categories_from_fmap (f : nat → Q) (j n : nat) :
  categories_from j (f <$> seq j n) = (λ k, (k, f k)) <$> seq j n.
Proof.
  revert j. induction n as [|n IH]; intros j; simpl; [done|]. by rewrite IH.
Qed.

Lemma live_fmap (f : nat → Q) (l : list nat) :
  live ((λ k, (k, f k)) <$> l) = filter (λ k, Qeq_bool (f k) 0 = false) l.
Proof.
  induction l as [|k l IH]; [done|]. rewrite fmap_cons, filter_cons.
  destruct (Qeq_bool (f k) 0) eqn:E.
  - rewrite live_cons_zero by (by apply Qeq_bool_iff).
    rewrite decide_False by done. done.
  - rewrite decide_True by done. rewrite <- IH. unfold live.
    by rewrite filter_cons_True.
Qed.

(** The weight of every other row in the row of a batch of [B] rows. *)
#[local] Abbreviation weight_of B :=
  (Qdiv 1%Q (inject_Z (Z.sub (Z.of_nat B) 1%Z))).

Lemma weight_of_pos (B : nat) : 2 ≤ B → (0 < weight_of B)%Q.
Proof.
  intros HB.
  destruct (Z.of_nat B - 1)%Z as [|p|p] eqn:Hp; try lia. reflexivity.
Qed.

End multinomial_facts.

(** ** The partner indices *)

Section choices_facts.
Import Torch Atoms Spec.

(** The weight of every other row in a row of [probs]. *)
#[local] Abbreviation weight_of B :=
  (Qdiv 1%Q (inject_Z (Z.sub (Z.of_nat B) 1%Z))).
#[local] Abbreviation row B i :=
  (fmap (λ j, Qdiv (Qmult 1%Q (Qminus 1%Q (eye i j)))
                   (inject_Z (Z.sub (Z.of_nat B) 1%Z)))
        (seq 0 B)).

Lemma n_categories_probs (B : nat) : n_categories (probs B) = B.
Proof.
  destruct B as [|B]; [done|]. unfold probs, n_categories.
  change (seq 0 (S B)) with (0 :: seq 1 B) at 2. rewrite fmap_cons.
  by rewrite length_fmap, length_seq.
Qed.

Lemma weight_nonneg (B i j : nat) :
  1 ≤ B → (0 <= 1 * (1 - eye i j) / inject_Z (Z.of_nat B - 1))%Q.
Proof.
  intros HB. unfold eye. case_decide.
  - assert (1 * (1 - 1) / inject_Z (Z.of_nat B - 1) == 0)%Q as Hz
      by (unfold Qdiv; ring).
    rewrite Hz. apply Qle_refl.
  - destruct (Z.of_nat B - 1)%Z as [|p|p] eqn:Hp.
    + by vm_compute.
    + by vm_compute.
    + lia.
Qed.

Lemma probs_nonneg (B : nat) : forallb (forallb (Qle_bool 0)) (probs B) = true.
Proof.
  apply forallb_true, Forall_forall. intros w Hw.
  apply forallb_true, Forall_forall. intros q Hq.
  unfold probs in Hw. apply list_elem_of_fmap in Hw as (i & -> & Hi).
  apply list_elem_of_fmap in Hq as (j & -> & _).
  apply elem_of_seq in Hi. apply Qle_bool_iff, weight_nonneg. lia.
Qed.

(** Row [i]: every other row with the same weight, the row itself with
    the weight zero. *)
Lemma row_categories (B i : nat) :
  2 ≤ B → i < B →
  two_weights (weight_of B) (categories_from 0 (row B i)) ∧
  live (categories_from 0 (row B i)) = filter (λ j, j ≠ i) (seq 0 B) ∧
  Forall (λ c, 0 <= c.2)%Q (categories_from 0 (row B i)) ∧
  (categories_from 0 (row B i)).*1 = seq 0 B.
Proof.
  intros HB Hi. rewrite categories_from_fmap. split_and!.
  - apply Forall_fmap, Forall_forall. intros j _. simpl. unfold eye.
    case_decide; [right|left]; unfold Qdiv; ring.
  - rewrite live_fmap. apply list_filter_iff. intros j.
    rewrite weight_zero_iff by done.
    rewrite bool_decide_eq_false. naive_solver.
  - apply Forall_fmap, Forall_forall. intros j _. simpl. apply weight_nonneg. lia.
  - rewrite <- list_fmap_compose. apply list_fmap_id.
Qed.

Lemma row_total (B i : nat) :
  2 ≤ B → i < B → (total (categories_from 0 (row B i)) == 1)%Q.
Proof.
  intros HB Hi. destruct (row_categories B i HB Hi) as (Htw & Hlive & _).
  rewrite (total_two_weights (weight_of B)); [|by apply weight_of_pos|done].
  rewrite Hlive, length_others by done.
  replace (Z.of_nat (B - 1)) with (Z.of_nat B - 1)%Z by lia.
  field. intros H0. unfold Qeq in H0. simpl in H0. lia.
Qed.

Lemma probs_rows_positive (B : nat) :
  2 ≤ B →
  existsb (λ w, Qle_bool (total (categories_from 0 w)) 0) (probs B) = false.
Proof.
  intros HB. apply existsb_false, Forall_forall. intros w Hw.
  unfold probs in Hw. apply list_elem_of_fmap in Hw as (i & -> & Hi).
  apply elem_of_seq in Hi.
  destruct (Qle_bool _ 0) eqn:E; [|done].
  apply Qle_bool_true in E. rewrite row_total in E by (done || lia). lra.
Qed.

(** On the weight matrix of at least two rows, [multinomial] is the draw
    of every row, for a number of samples from 1 to the number of
    rows. *)
Lemma multinomial_probs (B : nat) (n : Z) (u : nat → nat → Q) :
  2 ≤ B → (1 ≤ n ≤ Z.of_nat B)%Z →
  multinomial (probs B) n u
    = mapM id (imap (λ i w, draw (categories_from 0 w) (Z.to_nat n) (u i))
                    (probs B)).
Proof.
  intros HB Hn. unfold multinomial.
  rewrite decide_False by lia.
  rewrite n_categories_probs, decide_False by lia.
  by rewrite probs_nonneg, probs_rows_positive.
Qed.

(** For a batch of at least two rows and an atom count of at most the
    number of rows, the draw of the partner indices returns; the partners
    of a row are the other rows at the positions that the random numbers
    of the row pick. *)
Lemma choices_returns (B : nat) (K : Z) (u : nat → nat → Q) :
  2 ≤ B → (2 ≤ K ≤ Z.of_nat B)%Z →
  ∃ c, choices B K u = Ok c ∧ length c = B ∧
       ∀ i, i < B →
            ∃ js, c !! i = Some js ∧
                  arrange (filter (λ j, j ≠ i) (seq 0 B)) (Z.to_nat K - 1)
                          (positions (B - 1) (u i))
                    = Ok js.
Proof.
  intros HB HK. unfold choices. rewrite multinomial_probs by lia.
  replace (Z.to_nat (K - 1)) with (Z.to_nat K - 1) by lia.
  assert (∀ i w, probs B !! i = Some w →
            draw (categories_from 0 w) (Z.to_nat K - 1) (u i)
              = arrange (filter (λ j, j ≠ i) (seq 0 B)) (Z.to_nat K - 1)
                        (positions (B - 1) (u i))) as Hrow.
  { intros i w Hw.
    assert (i < B) as Hi.
    { apply lookup_lt_Some in Hw. by rewrite length_probs in Hw. }
    rewrite probs_lookup in Hw by done. injection Hw as <-.
    destruct (row_categories B i HB Hi) as (Htw & Hlive & _).
    rewrite (draw_equal_weights (weight_of B)); [|by apply weight_of_pos|done|].
    - by rewrite Hlive, length_others.
    - rewrite Hlive, length_others by done. lia. }
  destruct (mapM_id_imap_returns
              (λ i w, draw (categories_from 0 w) (Z.to_nat K - 1) (u i)) (probs B))
    as [c Hc].
  { intros i w Hw. rewrite (Hrow i w Hw). apply arrange_total.
    apply lookup_lt_Some in Hw. rewrite length_probs in Hw.
    rewrite length_others by done. lia. }
  exists c. split; [done|].
  destruct (mapM_id_imap_Ok _ _ _ Hc) as [Hlen Hrows].
  rewrite length_probs in Hlen. split; [done|].
  intros i Hi.
  destruct (lookup_lt_is_Some_2 (probs B) i) as [w Hw];
    [by rewrite length_probs|].
  destruct (Hrows i w Hw) as (js & Hjs & Hci).
  rewrite (Hrow i w Hw) in Hjs. eauto.
Qed.

Lemma choices_row (B : nat) (K : Z) (u : nat → nat → Q) c i js :
  2 ≤ B → (2 ≤ K ≤ Z.of_nat B)%Z → choices B K u = Ok c → c !! i = Some js →
  i < B ∧
  arrange (filter (λ j, j ≠ i) (seq 0 B)) (Z.to_nat K - 1)
          (positions (B - 1) (u i)) = Ok js.
Proof.
  intros HB HK Hc Hi.
  destruct (choices_returns B K u HB HK) as (c' & Hc' & Hlen & Hrows).
  assert (c' = c) as -> by congruence.
  assert (i < B) as HiB by (apply lookup_lt_Some in Hi; lia).
  split; [done|]. destruct (Hrows i HiB) as (js' & Hjs' & Harr). congruence.
Qed.

(** With one atom more than there are rows the draw still returns: the
    partners of a row are all the rows of the batch, the row itself
    among them. *)
Lemma choices_returns_any (B : nat) (K : Z) (u : nat → nat → Q) :
  2 ≤ B → (2 ≤ K ≤ Z.of_nat B + 1)%Z →
  ∃ c, choices B K u = Ok c ∧ length c = B ∧
       ∀ i js, c !! i = Some js →
               length js = Z.to_nat K - 1 ∧ NoDup js ∧ ∀ j, j ∈ js → j < B.
Proof.
  intros HB HK. unfold choices. rewrite multinomial_probs by lia.
  replace (Z.to_nat (K - 1)) with (Z.to_nat K - 1) by lia.
  assert (∀ i w, probs B !! i = Some w →
            ∃ js, draw (categories_from 0 w) (Z.to_nat K - 1) (u i) = Ok js ∧
                  length js = Z.to_nat K - 1 ∧ NoDup js ∧ ∀ j, j ∈ js → j < B)
    as Hrow.
  { intros i w Hw.
    assert (i < B) as Hi.
    { apply lookup_lt_Some in Hw. by rewrite length_probs in Hw. }
    rewrite probs_lookup in Hw by done. injection Hw as <-.
    destruct (row_categories B i HB Hi) as (_ & _ & Hnn & Hfst).
    destruct (draw_returns (categories_from 0 (row B i)) (Z.to_nat K - 1) (u i))
      as (js & Hjs & Hlen & Hnd & Hsub); [done|rewrite Hfst; apply NoDup_seq| |].
    { rewrite <- (length_fmap fst), Hfst, length_seq. lia. }
    exists js. split_and!; [done..|].
    intros j Hj. apply Hsub in Hj. rewrite Hfst in Hj.
    apply elem_of_seq in Hj. lia. }
  destruct (mapM_id_imap_returns
              (λ i w, draw (categories_from 0 w) (Z.to_nat K - 1) (u i)) (probs B))
    as [c Hc].
  { intros i w Hw. destruct (Hrow i w Hw) as (js & -> & _). by eexists. }
  exists c. split; [done|].
  destruct (mapM_id_imap_Ok _ _ _ Hc) as [Hlen Hrows].
  rewrite length_probs in Hlen. split; [done|].
  intros i js Hi.
  destruct (lookup_lt_is_Some_2 (probs B) i) as [w Hw].
  { rewrite length_probs. apply lookup_lt_Some in Hi. lia. }
  destruct (Hrows i w Hw) as (js' & Hjs' & Hci).
  destruct (Hrow i w Hw) as (js'' & Hjs'' & Hspec).
  assert (js'' = js) as -> by congruence. done.
Qed.

(** One atom or none: nothing is asked of the draw, which raises. *)
Lemma choices_too_few (B : nat) (K : Z) (u : nat → nat → Q) :
  (K ≤ 1)%Z → raises (choices B K u).
Proof.
  intros HK. unfold choices, multinomial.
  rewrite decide_True by lia. by eexists.
Qed.

(** More atoms than rows and one: the draw raises, whatever the random
    source. *)
Lemma choices_too_many (B : nat) (K : Z) (u : nat → nat → Q) :
  (Z.of_nat B + 1 < K)%Z → raises (choices B K u).
Proof.
  intros HK. unfold choices, multinomial.
  rewrite decide_False by lia.
  rewrite n_categories_probs, decide_True by lia. by eexists.
Qed.

(** A batch of a single row: the weight of the row is [0 / 0], and the
    draw raises for every atom count. *)
Lemma choices_single_row (K : Z) (u : nat → nat → Q) : raises (choices 1 K u).
Proof.
  unfold choices, multinomial.
  case_decide; [by eexists|]. case_decide; [by eexists|].
  change (negb (forallb (forallb (Qle_bool 0)) (probs 1))) with false.
  change (existsb (λ w, Qle_bool (total (categories_from 0 w)) 0) (probs 1))
    with true.
  by eexists.
Qed.

Lemma choices_no_row (K : Z) (u : nat → nat → Q) : raises (choices 0 K u).
Proof.
  unfold choices, multinomial.
  case_decide; [by eexists|]. rewrite decide_True; [by eexists|]. simpl. lia.
Qed.

(** When the draw of the partner indices returns. *)
Lemma choices_returns_iff (B : nat) (K : Z) (u : nat → nat → Q) :
  returns (choices B K u) ↔ 2 ≤ B ∧ (2 ≤ K ≤ Z.of_nat B + 1)%Z.
Proof.
  split.
  - intros [c Hc].
    assert (¬ raises (choices B K u)) as Hnr by (rewrite Hc; by intros [e ?]).
    destruct (decide (K ≤ 1)%Z) as [H1|H1].
    { destruct Hnr. by apply choices_too_few. }
    destruct (decide (Z.of_nat B + 1 < K)%Z) as [H2|H2].
    { destruct Hnr. by apply choices_too_many. }
    destruct B as [|[|B]].
    + destruct Hnr. apply choices_no_row.
    + destruct Hnr. apply choices_single_row.
    + lia.
  - intros [HB HK].
    destruct (choices_returns_any B K u HB HK) as (c & -> & _). by eexists.
Qed.

End choices_facts.

(** ** The atom blocks *)

Section atom_facts.
Import Utils Torch Atoms Spec.
Context {A : Type}.
Implicit Types (theta : list (list A)).

Lemma gather_row theta (js : list nat) :
  (∀ j, j ∈ js → j < length theta) →
  ∃ rows, mapM (getrow theta) js = Ok rows ∧
          length rows = length js ∧
          (∀ k, rows !! k = js !! k ≫= (theta !!.)) ∧
          (∀ r, r ∈ rows → r ∈ theta).
Proof.
  induction js as [|j js IH]; intros Hjs.
  - exists []. split_and!; try done. by intros r ?%elem_of_nil.
  - destruct IH as (rows & Hrows & Hlen & Hlook & Hin).
    { intros j' Hj'. apply Hjs. by right. }
    destruct (lookup_lt_is_Some_2 theta j) as [r Hr].
    { apply Hjs. by left. }
    exists (r :: rows). split_and!.
    + rewrite mapM_cons, Hrows. unfold getrow at 1. by rewrite Hr.
    + simpl. by rewrite Hlen.
    + intros [|k]; simpl; [by rewrite Hr|apply Hlook].
    + intros r' [->|Hr']%elem_of_cons; [by eapply list_elem_of_lookup_2|by apply Hin].
Qed.

Lemma gather_all theta (c : list (list nat)) :
  Forall (λ js, ∀ j, j ∈ js → j < length theta) c →
  ∃ g, mapM (mapM (getrow theta)) c = Ok g ∧
       Forall2 (λ js rows, length rows = length js ∧
                           (∀ k, rows !! k = js !! k ≫= (theta !!.)) ∧
                           (∀ r, r ∈ rows → r ∈ theta)) c g.
Proof.
  induction 1 as [|js c Hjs _ (g & Hg & Hall)].
  - exists []. split; [done|constructor].
  - destruct (gather_row theta js Hjs) as (rows & Hrows & Hspec).
    exists (rows :: g). split.
    + by rewrite mapM_cons, Hrows, Hg.
    + by constructor.
Qed.

Lemma arrange_admissible (B i n : nat) (v : nat → nat) (js : list nat) :
  arrange (filter (λ j, j ≠ i) (seq 0 B)) n v = Ok js → admissible B i n js.
Proof.
  intros (Hlen & Hnd & Hsub)%arrange_spec; [|apply NoDup_others].
  split_and!; [done..|]. intros j Hj. by apply elem_of_others, Hsub.
Qed.

(** The atoms, block by block, for the partner indices that were
    drawn. *)
Lemma atomic_theta_of_choices theta (B : nat) (K : Z) (u : nat → nat → Q)
    (c : list (list nat)) :
  length theta = B → (1 ≤ K)%Z → choices B K u = Ok c → length c = B →
  (∀ i js, c !! i = Some js →
           length js = Z.to_nat K - 1 ∧ ∀ j, j ∈ js → j < B) →
  ∃ atoms,
    atomic_theta theta K u = Ok atoms ∧
    length atoms = B * Z.to_nat K ∧
    (∀ r, r ∈ atoms → r ∈ theta) ∧
    (∀ i, i < B →
       ∃ js, c !! i = Some js ∧
             atoms !! (i * Z.to_nat K) = theta !! i ∧
             ∀ k, k < Z.to_nat K - 1 →
                  atoms !! (i * Z.to_nat K + S k) = js !! k ≫= (theta !!.)).
Proof.
  intros HlenB HK Hc Hlenc Hrows.
  destruct (gather_all theta c) as (g & Hg & Hall).
  { apply Forall_lookup. intros i js Hi j Hj.
    destruct (Hrows i js Hi) as (_ & Hin). rewrite HlenB. by apply Hin. }
  exists (mjoin (zip_with cons theta g)).
  assert (length g = B) as Hleng.
  { apply Forall2_length in Hall. lia. }
  assert (Forall (λ b, length b = Z.to_nat K) (zip_with cons theta g)) as Hblocks.
  { apply Forall_lookup. intros i b Hb.
    apply lookup_zip_with_Some in Hb as (r & rows & -> & Hr & Hrws).
    destruct (Forall2_lookup_r _ _ _ i rows Hall Hrws) as (js & Hjs & Hl & _).
    destruct (Hrows i js Hjs) as (Hlenjs & _). simpl. lia. }
  split_and!.
  - unfold atomic_theta. rewrite HlenB, Hc. simpl. by rewrite Hg.
  - rewrite length_join.
    rewrite (sum_list_fmap_same (Z.to_nat K)) by done.
    rewrite length_zip_with. lia.
  - intros r (b & Hrb & Hb)%list_elem_of_join.
    apply elem_of_lookup_zip_with in Hb as (i & r0 & rows & -> & Hr0 & Hrws).
    destruct (Forall2_lookup_r _ _ _ i rows Hall Hrws) as (js & Hjs & _ & _ & Hin).
    apply elem_of_cons in Hrb as [->|Hrb]; [by eapply list_elem_of_lookup_2|].
    by apply Hin.
  - intros i Hi.
    destruct (lookup_lt_is_Some_2 c i) as [js Hjs]; [lia|].
    destruct (Forall2_lookup_l _ _ _ i js Hall Hjs) as (rows & Hrws & Hl & Hlook & _).
    destruct (lookup_lt_is_Some_2 theta i) as [r Hr]; [lia|].
    assert (zip_with cons theta g !! i = Some (r :: rows)) as Hblock.
    { apply lookup_zip_with_Some. eauto. }
    destruct (Hrows i js Hjs) as (Hlenjs & Hrest).
    exists js. split_and!; [done|..].
    + rewrite Hr. replace (i * Z.to_nat K) with (i * Z.to_nat K + 0) by lia.
      apply (join_lookup_Some_same_length' (Z.to_nat K)); [done|lia|].
      eauto.
    + intros k Hk.
      destruct (lookup_lt_is_Some_2 rows k) as [a Ha]; [lia|].
      rewrite <- Hlook, Ha.
      apply (join_lookup_Some_same_length' (Z.to_nat K)); [done|lia|].
      exists (r :: rows). split; [done|]. done.
Qed.

(** The shape of what [atomic_theta] returns, block by block, for an
    atom count of at most the number of rows. *)
Lemma atomic_theta_blocks theta (B : nat) (K : Z) (u : nat → nat → Q) :
  length theta = B → 2 ≤ B → (2 ≤ K ≤ Z.of_nat B)%Z →
  ∃ c atoms,
    choices B K u = Ok c ∧
    atomic_theta theta K u = Ok atoms ∧
    length atoms = B * Z.to_nat K ∧
    (∀ r, r ∈ atoms → r ∈ theta) ∧
    (∀ i, i < B →
       ∃ js, c !! i = Some js ∧ admissible B i (Z.to_nat K - 1) js ∧
             atoms !! (i * Z.to_nat K) = theta !! i ∧
             ∀ k, k < Z.to_nat K - 1 →
                  atoms !! (i * Z.to_nat K + S k) = js !! k ≫= (theta !!.)).
Proof.
  intros HlenB HB HK.
  destruct (choices_returns B K u HB HK) as (c & Hc & Hlenc & Hrows).
  assert (∀ i js, c !! i = Some js → admissible B i (Z.to_nat K - 1) js)
    as Hadm.
  { intros i js Hi. destruct (Hrows i) as (js' & Hjs' & Hdraw).
    - apply lookup_lt_Some in Hi. lia.
    - rewrite Hi in Hjs'. injection Hjs' as <-. by eapply arrange_admissible. }
  destruct (atomic_theta_of_choices theta B K u c HlenB ltac:(lia) Hc Hlenc)
    as (atoms & Hatoms & Hlen & Hin & Hblocks).
  { intros i js Hi. destruct (Hadm i js Hi) as (Hl & _ & Hsub).
    split; [done|]. intros j Hj. by apply Hsub. }
  exists c, atoms. split_and!; [done..|].
  intros i Hi. destruct (Hblocks i Hi) as (js & Hjs & H0 & Hk).
  exists js. split_and!; [done|by apply (Hadm i)|done|done].
Qed.

(** With one atom more than there are rows the atoms are built too. *)
Lemma atomic_theta_blocks_any theta (B : nat) (K : Z) (u : nat → nat → Q) :
  length theta = B → 2 ≤ B → (2 ≤ K ≤ Z.of_nat B + 1)%Z →
  ∃ c atoms,
    choices B K u = Ok c ∧
    atomic_theta theta K u = Ok atoms ∧
    length atoms = B * Z.to_nat K ∧
    (∀ r, r ∈ atoms → r ∈ theta) ∧
    (∀ i, i < B →
       ∃ js, c !! i = Some js ∧
             length js = Z.to_nat K - 1 ∧ NoDup js ∧ (∀ j, j ∈ js → j < B) ∧
             atoms !! (i * Z.to_nat K) = theta !! i ∧
             ∀ k, k < Z.to_nat K - 1 →
                  atoms !! (i * Z.to_nat K + S k) = js !! k ≫= (theta !!.)).
Proof.
  intros HlenB HB HK.
  destruct (choices_returns_any B K u HB HK) as (c & Hc & Hlenc & Hrows).
  destruct (atomic_theta_of_choices theta B K u c HlenB ltac:(lia) Hc Hlenc)
    as (atoms & Hatoms & Hlen & Hin & Hblocks).
  { intros i js Hi. destruct (Hrows i js Hi) as (Hl & _ & Hsub). done. }
  exists c, atoms. split_and!; [done..|].
  intros i Hi. destruct (Hblocks i Hi) as (js & Hjs & H0 & Hk).
  destruct (Hrows i js Hjs) as (Hl & Hnd & Hsub).
  exists js. done.
Qed.

(** C1.  For a batch [theta] of [B >= 2] rows of length [d] and an atom
    count [K] with [2 <= K <= B], the construction shared by
    [SNPE_C._log_prob_proposal_posterior] (whose clamp leaves such a [K]
    as it is) and [RatioEstimator._classifier_logits] returns [B * K] rows
    of length [d]; block [i] starts with [theta[i]] and goes on with the
    rows [theta[j]] of the [K - 1] partner indices drawn for row [i], which
    are pairwise distinct, below [B] and different from [i].  The draw is
    uniform without replacement: for every list [js] of [K - 1] pairwise
    distinct indices of other rows there are cells, one of the
    [B - 1 - t] cells of equal length that the unit interval is cut into
    for the draw number [t], such that [js] is the partner list of row [i]
    exactly when each of the first [K - 1] random numbers of the row lies
    in its cell.  For random numbers that are uniform on the unit interval
    every list so has the probability
    [1 / ((B - 1) * (B - 2) * ... * (B - K + 1))]. *)
Theorem C1_atom_blocks_hold_the_row_and_distinct_other_rows
    theta (B d : nat) (K : Z) (u : nat → nat → Q) :
  length theta = B → 2 ≤ B → (2 ≤ K ≤ Z.of_nat B)%Z →
  Forall (λ r, length r = d) theta →
  (clamp_and_warn "num_atoms" K 2 (Z.of_nat B)).1 = K ∧
  (∃ c atoms,
    choices B K u = Ok c ∧
    atomic_theta theta K u = Ok atoms ∧
    length atoms = B * Z.to_nat K ∧
    Forall (λ r, length r = d) atoms ∧
    (∀ i, i < B →
       ∃ js, c !! i = Some js ∧ admissible B i (Z.to_nat K - 1) js ∧
             atoms !! (i * Z.to_nat K) = theta !! i ∧
             ∀ k, k < Z.to_nat K - 1 →
                  atoms !! (i * Z.to_nat K + S k) = js !! k ≫= (theta !!.))) ∧
  (∀ i js, i < B → admissible B i (Z.to_nat K - 1) js →
     ∃ v, canonical (B - 1) (Z.to_nat K - 1) v ∧
          ∀ u', (∃ c', choices B K u' = Ok c' ∧ c' !! i = Some js)
                ↔ cells (B - 1) (Z.to_nat K - 1) v (u' i)).
Proof.
  intros HlenB HB HK Hd. split_and!.
  - unfold clamp_and_warn. simpl. lia.
  - destruct (atomic_theta_blocks theta B K u HlenB HB HK)
      as (c & atoms & Hc & Hatoms & Hlen & Hin & Hblocks).
    exists c, atoms. split_and!; try done.
    apply Forall_forall. intros r Hr.
    by apply (proj1 (Forall_forall _ _) Hd), Hin.
  - intros i js Hi (Hlenjs & Hnd & Hsub).
    destruct (arrange_reaches (filter (λ j, j ≠ i) (seq 0 B)) js)
      as (v & Hcan & Harr).
    { apply NoDup_others. }
    { done. }
    { intros j Hj. by apply elem_of_others, Hsub. }
    rewrite length_others in Hcan by done. rewrite Hlenjs in Hcan, Harr.
    exists v. split; [done|]. intros u'.
    assert (canonical (B - 1) (Z.to_nat K - 1) (positions (B - 1) (u' i)))
      as Hcan'.
    { intros t Ht. apply positions_lt. lia. }
    rewrite <- positions_cells. split.
    + intros (c' & Hc' & Hjs).
      destruct (choices_row B K u' c' i js HB HK Hc' Hjs) as [_ Harr'].
      apply (arrange_injective (filter (λ j, j ≠ i) (seq 0 B)) (Z.to_nat K - 1)
               (positions (B - 1) (u' i)) v js); try done.
      * apply NoDup_others.
      * by rewrite length_others.
      * by rewrite length_others.
    + intros Hagree.
      destruct (choices_returns B K u' HB HK) as (c' & Hc' & _ & Hrows).
      destruct (Hrows i Hi) as (js' & Hjs' & Harr').
      exists c'. split; [done|].
      rewrite (arrange_ext _ _ (positions (B - 1) (u' i)) v Hagree) in Harr'.
      congruence.
Qed.

End atom_facts.

(** C1, witness: a batch of 3 rows and 3 atoms per row. *)
Lemma C1_witness :
  length ex_batch3 = 3 ∧ 2 ≤ 3 ∧ (2 ≤ 3 ≤ Z.of_nat 3)%Z ∧
  Forall (λ r, length r = 1) ex_batch3 ∧
  ∃ c atoms,
    Atoms.choices 3 3 (λ _ _, 0%Q) = Ok c ∧
    Atoms.atomic_theta ex_batch3 3 (λ _ _, 0%Q) = Ok atoms ∧
    length atoms = 9.
Proof.
  assert (Forall (λ r : list Z, length r = 1) ex_batch3) as Hd
    by (by repeat constructor).
  assert (2 ≤ 3) as HB by lia.
  assert (2 ≤ 3 ≤ Z.of_nat 3)%Z as HK by lia.
  split_and!; [reflexivity|exact HB|apply HK|apply HK|exact Hd|].
  destruct (C1_atom_blocks_hold_the_row_and_distinct_other_rows
              ex_batch3 3 1 3 (λ _ _, 0%Q) eq_refl HB HK Hd)
    as (_ & (c & atoms & Hc & Hatoms & Hlen & _) & _).
  exists c, atoms. split_and!; [exact Hc|exact Hatoms|exact Hlen].
Defined.

(** ** [RatioEstimator]: the atom count of the loss and the reset *)

Section ratio_estimator_facts.
Import Utils Torch Atoms RatioEstimator.
Context {F Net : Type}.
Variable forward : Net → list (list F) → list (list F).
Variable epoch_loop : Plan → Net → result Net.

Lemma atomic_theta_raises {A} (theta : list (list A)) (K : Z) (u : nat → nat → Q) :
  (Z.of_nat (length theta) + 1 < K)%Z →
  raises (atomic_theta theta K u).
Proof.
  intros HK. unfold atomic_theta.
  destruct (choices_too_many (length theta) K u HK) as [e He].
  rewrite He. by eexists.
Qed.

Lemma atomic_theta_single_row {A} (theta : list (list A)) (K : Z)
    (u : nat → nat → Q) :
  length theta = 1 → raises (atomic_theta theta K u).
Proof.
  intros H1. unfold atomic_theta. rewrite H1.
  destruct (choices_single_row K u) as [e He].
  rewrite He. by eexists.
Qed.

Lemma _classifier_logits_raises (self : @Self F Net) (theta x : list (list F))
    (K : Z) (u : nat → nat → Q) :
  (Z.of_nat (length theta) + 1 < K)%Z →
  raises (_classifier_logits forward self theta x K u).
Proof.
  intros HK. unfold _classifier_logits.
  destruct (atomic_theta_raises theta K u HK) as [e He].
  rewrite He. by eexists.
Qed.

(** [_train] hands the loss the atom count it was called with. *)
Lemma train_setup_num_atoms (self : @Self F Net) num_atoms batch_size
    validation_fraction hyper permuted_indices plan :
  train_setup self num_atoms batch_size validation_fraction hyper permuted_indices
    = Ok plan →
  loss_num_atoms plan = num_atoms.
Proof. by intros (T & _ & _ & ->)%train_setup_Ok. Qed.

(** The reset of [_train] leaves the network of [self._posterior] in the
    state it is in, whatever [self._untrained_classifier] holds. *)
Lemma train_reset_posterior (self : @Self F Net) :
  _posterior (train_reset self) = _posterior self.
Proof. unfold train_reset. by destruct (_retrain_from_scratch_each_round self). Qed.

(** The epoch loop of [_train] starts from the network that
    [self._posterior] holds when [_train] is called. *)
Lemma _train_posterior (self self' : @Self F Net) num_atoms batch_size
    validation_fraction hyper permuted_indices :
  _train epoch_loop self num_atoms batch_size validation_fraction hyper
         permuted_indices = Ok self' →
  ∃ plan,
    train_setup self num_atoms batch_size validation_fraction hyper
      permuted_indices = Ok plan ∧
    epoch_loop plan (_posterior self) = Ok (_posterior self') ∧
    _untrained_classifier self' = _untrained_classifier self.
Proof.
  unfold _train. intros (plan & Hplan & (net & Hnet & [= <-])%bind_Ok)%bind_Ok.
  exists plan. rewrite train_reset_posterior in Hnet. simpl.
  split; [done|]. split; [done|].
  unfold train_reset. by destruct (_retrain_from_scratch_each_round self).
Qed.

End ratio_estimator_facts.

(** C3, the code at the failing input.  Whenever [_train] returns, its
    epoch loop was started from the network that [self._posterior] held
    when [_train] was called, and [self._untrained_classifier] is not
    touched.  So for an estimator built with
    [retrain_from_scratch_each_round], which keeps the untrained copy,
    state 0, and two rounds of 50 simulations with two atoms: the first
    round leaves the network of [self._posterior] in state 1; at the start
    of the second round's TRAIN phase the reset copies that network, the
    epoch loop starts from state 1, not from the untrained copy, and the
    second round ends in state 2, where a loop started from the untrained
    copy ends in state 1. *)
Theorem C3_second_round_starts_from_the_first_rounds_network :
  (∀ (F Net : Type) (epoch_loop : RatioEstimator.Plan → Net → result Net)
     (self self' : @RatioEstimator.Self F Net) num_atoms batch_size
     validation_fraction hyper permuted_indices,
     RatioEstimator._train epoch_loop self num_atoms batch_size
       validation_fraction hyper permuted_indices = Ok self' →
     ∃ plan,
       RatioEstimator.train_setup self num_atoms batch_size validation_fraction
         hyper permuted_indices = Ok plan ∧
       epoch_loop plan (RatioEstimator._posterior self)
         = Ok (RatioEstimator._posterior self') ∧
       RatioEstimator._untrained_classifier self'
         = RatioEstimator._untrained_classifier self) ∧
  ∃ self1 self2 plan2,
    RatioEstimator.__call__ ex_epoch_loop (RatioEstimator.__init__ 0%Z true)
      [ex_round1] 2 100 (Float64.literal 1 10) ex_hyper = Ok self1 ∧
    RatioEstimator._retrain_from_scratch_each_round self1 = true ∧
    RatioEstimator._untrained_classifier self1 = Some 0%Z ∧
    RatioEstimator._posterior self1 = 1%Z ∧
    RatioEstimator.train_setup (RatioEstimator.store self1 ex_round2) 2 100
      (Float64.literal 1 10) ex_hyper (RatioEstimator.randperm ex_round2)
      = Ok plan2 ∧
    RatioEstimator._posterior
      (RatioEstimator.train_reset (RatioEstimator.store self1 ex_round2)) = 1%Z ∧
    ex_epoch_loop plan2 1%Z = Ok 2%Z ∧
    ex_epoch_loop plan2 0%Z = Ok 1%Z ∧
    RatioEstimator.__call__ ex_epoch_loop (RatioEstimator.__init__ 0%Z true)
      [ex_round1; ex_round2] 2 100 (Float64.literal 1 10) ex_hyper = Ok self2 ∧
    RatioEstimator._posterior self2 = 2%Z.
Proof.
  split.
  - intros F Net epoch_loop self self' num_atoms batch_size validation_fraction
      hyper permuted_indices. apply _train_posterior.
  - eexists _, _, _. split_and!.
    + by vm_compute.
    + done.
    + done.
    + done.
    + by vm_compute.
    + done.
    + by vm_compute.
    + by vm_compute.
    + by vm_compute.
    + done.
Qed.

(** C5, the code at the failing input.  With 50 simulations, a validation
    fraction of 0.1, [batch_size=100] and [num_atoms=10] (the defaults of
    [__call__]), [clamp_and_warn] maps the 10 atoms to 5 and warns, and
    the loaders of [_train] yield minibatches of 5 rows; but [_train]
    hands its loss the 10 atoms it was called with, and
    [_classifier_logits] raises on a 5-row batch with 10 atoms, for every
    random source.  The atom construction of [SNPE_C] on the same batch
    works with the clamped count and returns 25 rows. *)
Theorem C5_ratio_loss_gets_the_unclamped_atom_count :
  Utils.clamp_and_warn "num_atoms" 10 2 5 = (5%Z, true) ∧
  SNPE_C.num_atoms ex_snpe_c (length ex_batch5) = 5%Z ∧
  (∃ plan,
     RatioEstimator.train_setup ex_estimator 10 100 (Float64.literal 1 10) ex_hyper
       (seq 0 50) = Ok plan ∧
     RatioEstimator.batch_size (RatioEstimator.train_loader plan) = 5 ∧
     RatioEstimator.loss_num_atoms plan = 10%Z) ∧
  (∀ (forward : Z → list (list Z) → list (list Z)) u,
     raises (RatioEstimator._classifier_logits forward ex_estimator
               ex_batch5 ex_batch5 10 u)) ∧
  (∀ u, ∃ atoms,
     Atoms.atomic_theta ex_batch5
       (SNPE_C.num_atoms ex_snpe_c (length ex_batch5)) u = Ok atoms ∧
     length atoms = 25).
Proof.
  split_and!.
  - reflexivity.
  - reflexivity.
  - eexists. split_and!; [by vm_compute|done|done].
  - intros forward u. apply _classifier_logits_raises; simpl; lia.
  - intros u.
    destruct (atomic_theta_blocks ex_batch5 5 5 u eq_refl ltac:(lia) ltac:(lia))
      as (c & atoms & _ & Hatoms & Hlen & _).
    exists atoms. split; [exact Hatoms|exact Hlen].
Qed.

(** ** [SNPE_C._log_prob_proposal_posterior] *)

Section snpe_c_facts.
Import Utils Torch Atoms Spec SNPE_C.
Context {F : Type}.
Variables (fsub fadd fmul : F → F → F).
Variable logsumexp : list F → F.
Variable isfinite : F → bool.
Variable net_log_prob : list (list F) → list (list F) → list F.
Variable prior_log_prob : list (list F) → list F.

#[local] Abbreviation loss :=
  (_log_prob_proposal_posterior fsub fadd fmul logsumexp isfinite net_log_prob
     prior_log_prob).

Lemma reshape_replicate_lookup {A} (l : list A) (B K i : nat) :
  0 < K → length l = B * K → i < B →
  reshape (replicate B K) l !! i = Some (take K (drop (i * K) l)).
Proof.
  intros HK Hl Hi. rewrite sublist_lookup_reshape by done.
  unfold sublist_lookup. rewrite option_guard_True; [done|]. nia.
Qed.

Lemma repeat_rows_lookup {A} (x : list A) (K : Z) (i : nat) :
  (0 < K)%Z → repeat_rows x K !! (i * Z.to_nat K) = x !! i.
Proof.
  intros HK. unfold repeat_rows.
  assert (Forall (λ l : list A, length l = Z.to_nat K) (replicate (Z.to_nat K) <$> x))
    as Hall.
  { apply Forall_fmap, Forall_forall. intros a _. simpl. apply length_replicate. }
  destruct (x !! i) as [a|] eqn:Hx.
  - replace (i * Z.to_nat K) with (i * Z.to_nat K + 0) by lia.
    apply (join_lookup_Some_same_length' (Z.to_nat K)); [done|lia|].
    exists (replicate (Z.to_nat K) a). split.
    + by rewrite list_lookup_fmap, Hx.
    + apply lookup_replicate. split; [done|lia].
  - apply lookup_ge_None. apply lookup_ge_None in Hx.
    rewrite length_join, (sum_list_fmap_same (Z.to_nat K)) by done.
    rewrite length_fmap. nia.
Qed.

Lemma column0_spec {A} (V : list (list A)) :
  Forall (λ row, 0 < length row) V →
  ∃ column0, mapM (λ row, getrow row 0) V = Ok column0 ∧
             length column0 = length V ∧
             ∀ i row, V !! i = Some row → column0 !! i = row !! 0.
Proof.
  induction 1 as [|row V Hrow _ (col & Hcol & Hlen & Hlook)].
  - exists []. split_and!; try done.
  - destruct row as [|a row]; [simpl in Hrow; lia|].
    exists (a :: col). split_and!.
    + by rewrite mapM_cons, Hcol.
    + simpl. by rewrite Hlen.
    + intros [|i] row'; simpl; [by intros [= <-]|apply Hlook].
Qed.

(** The [(B, K)] matrix of unnormalized log-probabilities and the
    normalization over its rows, as the loss computes them. *)
Lemma normalize_spec (B K : nat) (lpp lpr : list F) :
  0 < K → length lpp = B * K → length lpr = B * K →
  ∃ P,
    (mapM (λ row, getrow row 0)
          (zip_with (zip_with fsub) (reshape (replicate B K) lpp)
                    (reshape (replicate B K) lpr))
       ≫= λ column0,
         Ok (zip_with fsub column0
               (logsumexp <$> zip_with (zip_with fsub)
                                (reshape (replicate B K) lpp)
                                (reshape (replicate B K) lpr))))
      = Ok P ∧
    is_proposal_posterior fsub logsumexp B K lpp lpr P.
Proof.
  intros HK Hlpp Hlpr.
  set (U := zip_with (zip_with fsub) (reshape (replicate B K) lpp)
                     (reshape (replicate B K) lpr)).
  assert (length U = B) as HlenU.
  { unfold U. rewrite length_zip_with, !length_reshape, !length_replicate. lia. }
  assert (∀ i, i < B → U !! i = Some (unnormalized fsub K lpp lpr i)) as HU.
  { intros i Hi. unfold U. apply lookup_zip_with_Some.
    eexists _, _. split; [reflexivity|].
    split; by apply reshape_replicate_lookup. }
  assert (∀ i, i < B → ∃ u0 rest, unnormalized fsub K lpp lpr i = u0 :: rest)
    as Hne.
  { intros i Hi.
    destruct (unnormalized fsub K lpp lpr i) as [|u0 rest] eqn:Hrow; [|eauto].
    apply (f_equal length) in Hrow. unfold unnormalized in Hrow.
    rewrite length_zip_with, !length_take, !length_drop in Hrow.
    simpl in Hrow. nia. }
  assert (∃ column0, mapM (λ row, getrow row 0) U = Ok column0 ∧
                     length column0 = B ∧
                     ∀ i row, U !! i = Some row → column0 !! i = row !! 0)
    as (column0 & Hcol & Hlencol & Hcol0).
  { destruct (column0_spec U) as (col & Hcol & Hlen & Hlook).
    - apply Forall_lookup. intros i row Hrow.
      assert (i < B) as Hi by (apply lookup_lt_Some in Hrow; lia).
      rewrite (HU i Hi) in Hrow. injection Hrow as <-.
      destruct (Hne i Hi) as (u0 & rest & ->). simpl. lia.
    - exists col. split_and!; [done|lia|done]. }
  exists (zip_with fsub column0 (logsumexp <$> U)). split.
  - by rewrite Hcol.
  - split.
    + rewrite length_zip_with, length_fmap. lia.
    + intros i Hi. destruct (Hne i Hi) as (u0 & rest & Hrow).
      exists u0, rest. split; [done|].
      apply lookup_zip_with_Some. exists u0, (logsumexp (u0 :: rest)).
      split; [done|]. split.
      * rewrite (Hcol0 i _ (HU i Hi)). by rewrite Hrow.
      * rewrite list_lookup_fmap, (HU i Hi). simpl. by rewrite Hrow.
Qed.

Lemma clamp_in_range (requested : Z) (B : nat) :
  2 ≤ B →
  (2 ≤ (clamp_and_warn "num_atoms" requested 2 (Z.of_nat B)).1 ≤ Z.of_nat B)%Z.
Proof. intros HB. unfold clamp_and_warn. simpl. lia. Qed.

Lemma assert_finite_true (quantity : list F) (description : string) :
  forallb isfinite quantity = true →
  _assert_all_finite isfinite quantity description = Ok ().
Proof. unfold _assert_all_finite. by intros ->. Qed.

Lemma assert_finite_false (quantity : list F) (description : string) :
  forallb isfinite quantity = false →
  _assert_all_finite isfinite quantity description
    = Raise (AssertionError description).
Proof. unfold _assert_all_finite. by intros ->. Qed.

(** The loss, step by step: the atoms, the two evaluations, the
    normalized value [P], and the three checks in the order of the code. *)
Lemma loss_eval (self : Self) (theta x masks : list (list F))
    (u : nat → nat → Q) (B : nat) :
  length theta = B → 2 ≤ B →
  (∀ a b, length (net_log_prob a b) = length a) →
  (∀ a, length (prior_log_prob a) = length a) →
  ∃ atoms P,
    atomic_theta theta
      (num_atoms self B) u = Ok atoms ∧
    length atoms
      = B * Z.to_nat (num_atoms self B) ∧
    is_proposal_posterior fsub logsumexp B
      (Z.to_nat (num_atoms self B))
      (net_log_prob atoms
         (repeat_rows x (num_atoms self B)))
      (prior_log_prob atoms) P ∧
    loss self theta x masks u =
      if forallb isfinite
           (net_log_prob atoms
              (repeat_rows x (num_atoms self B)))
      then
        if forallb isfinite (prior_log_prob atoms) then
          if forallb isfinite P then
            if _use_combined_loss self then
              elementwise fmul (mjoin masks) (net_log_prob theta x)
                ≫= λ weighted, elementwise fadd weighted P
            else Ok P
          else Raise (AssertionError "proposal posterior eval")
        else Raise (AssertionError "prior eval")
      else Raise (AssertionError "posterior eval").
Proof.
  intros HlenB HB Hnet Hprior.
  pose proof (clamp_in_range (_num_atoms self) B HB) as HK.
  fold (num_atoms self B) in HK. set (K := num_atoms self B) in *.
  destruct (atomic_theta_blocks theta B K u HlenB HB HK)
    as (c & atoms & _ & Hatoms & Hlen & _).
  set (lpp := net_log_prob atoms (repeat_rows x K)).
  set (lpr := prior_log_prob atoms).
  assert (length lpp = B * Z.to_nat K) as Hlpp by (unfold lpp; by rewrite Hnet).
  assert (length lpr = B * Z.to_nat K) as Hlpr by (unfold lpr; by rewrite Hprior).
  destruct (normalize_spec B (Z.to_nat K) lpp lpr ltac:(lia) Hlpp Hlpr)
    as (P & HP & Hspec).
  exists atoms, P. split_and!; [done..|].
  unfold _log_prob_proposal_posterior. rewrite HlenB. fold K.
  rewrite Hatoms, bind_Ok_l. cbv beta zeta. fold lpp lpr.
  destruct (forallb isfinite lpp) eqn:E1;
    [rewrite (assert_finite_true lpp "posterior eval" E1), bind_Ok_l
    |by rewrite (assert_finite_false lpp "posterior eval" E1)].
  unfold reshape2. rewrite !decide_True by done. rewrite !bind_Ok_l.
  rewrite join_reshape by (by rewrite sum_list_replicate).
  destruct (forallb isfinite lpr) eqn:E2;
    [rewrite (assert_finite_true lpr "prior eval" E2), bind_Ok_l
    |by rewrite (assert_finite_false lpr "prior eval" E2)].
  apply bind_Ok in HP as (column0 & Hcol & [= <-]).
  rewrite Hcol, bind_Ok_l.
  match goal with
  | |- context [_assert_all_finite isfinite ?q "proposal posterior eval"] =>
      destruct (forallb isfinite q) eqn:E3;
        [rewrite (assert_finite_true q "proposal posterior eval" E3), bind_Ok_l
        |by rewrite (assert_finite_false q "proposal posterior eval" E3)]
  end.
  done.
Qed.

(** C2.  For a batch [theta] of [B >= 2] rows, a mask with one entry
    per row, and a model and a prior that return one value per row, the
    loss works on the atoms of C1: with [lpp] the model log-density and
    [lpr] the prior log-density on the [B * K] atomic pairs, pair
    [i * K] is the example's own [(theta[i], x[i])], and with [P] the
    list of [unnormalized[i, 0] - logsumexp(unnormalized[i, :])], where
    [unnormalized = lpp - lpr] read as a [(B, K)] matrix, whatever the loss
    returns is [P], or [masks * log_prob(theta, x) + P] entry by entry
    under the combined loss; and it does return that when [lpp], [lpr]
    and [P] are finite. *)
Theorem C2_loss_is_the_normalized_atomic_log_probability
    (self : Self) (theta x masks : list (list F)) (u : nat → nat → Q)
    (B : nat) :
  length theta = B → 2 ≤ B → length (mjoin masks) = B →
  (∀ a b, length (net_log_prob a b) = length a) →
  (∀ a, length (prior_log_prob a) = length a) →
  ∃ atoms P,
    atomic_theta theta (num_atoms self B) u = Ok atoms ∧
    (∀ i, i < B →
       atoms !! (i * Z.to_nat (num_atoms self B)) = theta !! i ∧
       repeat_rows x (num_atoms self B) !! (i * Z.to_nat (num_atoms self B))
         = x !! i) ∧
    is_proposal_posterior fsub logsumexp B (Z.to_nat (num_atoms self B))
      (net_log_prob atoms (repeat_rows x (num_atoms self B)))
      (prior_log_prob atoms) P ∧
    (∀ res, loss self theta x masks u = Ok res →
       res = if _use_combined_loss self
             then zip_with fadd
                    (zip_with fmul (mjoin masks) (net_log_prob theta x)) P
             else P) ∧
    (forallb isfinite
       (net_log_prob atoms (repeat_rows x (num_atoms self B))) = true →
     forallb isfinite (prior_log_prob atoms) = true →
     forallb isfinite P = true →
     loss self theta x masks u
       = Ok (if _use_combined_loss self
             then zip_with fadd
                    (zip_with fmul (mjoin masks) (net_log_prob theta x)) P
             else P)).
Proof.
  intros HlenB HB Hmasks Hnet Hprior.
  destruct (loss_eval self theta x masks u B HlenB HB Hnet Hprior)
    as (atoms & P & Hatoms & Hlen & HP & Heval).
  pose proof (clamp_in_range (_num_atoms self) B HB) as HK.
  fold (num_atoms self B) in HK.
  exists atoms, P.
  assert ((if _use_combined_loss self
           then elementwise fmul (mjoin masks) (net_log_prob theta x)
                  ≫= λ weighted, elementwise fadd weighted P
           else Ok P)
          = Ok (if _use_combined_loss self
                then zip_with fadd
                       (zip_with fmul (mjoin masks) (net_log_prob theta x)) P
                else P)) as Hcomb.
  { destruct (_use_combined_loss self); [|done].
    destruct HP as [HlenP _].
    unfold elementwise. rewrite decide_True by (rewrite Hnet; lia).
    rewrite bind_Ok_l. rewrite decide_True; [done|].
    rewrite length_zip_with, Hnet. lia. }
  rewrite Hcomb in Heval. split_and!.
  - done.
  - intros i Hi. split.
    + destruct (atomic_theta_blocks theta B (num_atoms self B) u HlenB HB HK)
        as (c & atoms' & _ & Hatoms' & _ & _ & Hblocks).
      assert (atoms' = atoms) as -> by congruence.
      by destruct (Hblocks i Hi) as (js & _ & _ & Hself & _).
    + apply repeat_rows_lookup. lia.
  - done.
  - intros res Hres. rewrite Heval in Hres.
    repeat (destruct (forallb isfinite _); [|discriminate]). congruence.
  - intros E1 E2 E3. by rewrite Heval, E1, E2, E3.
Qed.

(** C8.  In a forward pass of the loss on a batch of [B >= 2] rows, with
    a model and a prior that return one value per row, a non-finite entry
    of the model's atomic log-density raises an [AssertionError]; so does,
    when that one is finite, a non-finite entry of the prior's log-density
    on the atoms; and so does, when both are finite, a non-finite entry of
    the normalized proposal-posterior log-probability.  The loss returns
    a value only if all three are finite. *)
Theorem C8_non_finite_values_abort_the_loss
    (self : Self) (theta x masks : list (list F)) (u : nat → nat → Q)
    (B : nat) :
  length theta = B → 2 ≤ B →
  (∀ a b, length (net_log_prob a b) = length a) →
  (∀ a, length (prior_log_prob a) = length a) →
  ∃ atoms P,
    atomic_theta theta (num_atoms self B) u = Ok atoms ∧
    length atoms = B * Z.to_nat (num_atoms self B) ∧
    is_proposal_posterior fsub logsumexp B (Z.to_nat (num_atoms self B))
      (net_log_prob atoms (repeat_rows x (num_atoms self B)))
      (prior_log_prob atoms) P ∧
    (Exists (λ v, isfinite v = false)
            (net_log_prob atoms (repeat_rows x (num_atoms self B))) →
     loss self theta x masks u = Raise (AssertionError "posterior eval")) ∧
    (Forall (λ v, isfinite v = true)
            (net_log_prob atoms (repeat_rows x (num_atoms self B))) →
     Exists (λ v, isfinite v = false) (prior_log_prob atoms) →
     loss self theta x masks u = Raise (AssertionError "prior eval")) ∧
    (Forall (λ v, isfinite v = true)
            (net_log_prob atoms (repeat_rows x (num_atoms self B))) →
     Forall (λ v, isfinite v = true) (prior_log_prob atoms) →
     Exists (λ v, isfinite v = false) P →
     loss self theta x masks u
       = Raise (AssertionError "proposal posterior eval")) ∧
    (∀ res, loss self theta x masks u = Ok res →
       Forall (λ v, isfinite v = true)
              (net_log_prob atoms (repeat_rows x (num_atoms self B))) ∧
       Forall (λ v, isfinite v = true) (prior_log_prob atoms) ∧
       Forall (λ v, isfinite v = true) P).
Proof.
  intros HlenB HB Hnet Hprior.
  destruct (loss_eval self theta x masks u B HlenB HB Hnet Hprior)
    as (atoms & P & Hatoms & Hlen & HP & Heval).
  exists atoms, P. split_and!; [done..| | | |].
  - intros Hbad%forallb_false. by rewrite Heval, Hbad.
  - intros Hok%forallb_true Hbad%forallb_false. by rewrite Heval, Hok, Hbad.
  - intros Hok1%forallb_true Hok2%forallb_true Hbad%forallb_false.
    by rewrite Heval, Hok1, Hok2, Hbad.
  - intros res Hres. rewrite Heval in Hres.
    destruct (forallb isfinite (net_log_prob _ _)) eqn:E1; [|discriminate].
    destruct (forallb isfinite (prior_log_prob _)) eqn:E2; [|discriminate].
    destruct (forallb isfinite P) eqn:E3; [|discriminate].
    by rewrite <- !forallb_true.
Qed.

End snpe_c_facts.

(** C2, witness: three examples, ten configured atoms clamped to three,
    and the combined loss. *)
Lemma C2_witness :
  length ex_theta = 3 ∧ 2 ≤ 3 ∧ length (mjoin ex_masks) = 3 ∧
  (∀ a b, length (ex_net_log_prob a b) = length a) ∧
  (∀ a, length (ex_prior_log_prob a) = length a) ∧
  ∃ P,
    SNPE_C._log_prob_proposal_posterior (ex_lift Z.sub) (ex_lift Z.add)
        (ex_lift Z.mul) ex_logsumexp ex_isfinite ex_net_log_prob
        ex_prior_log_prob ex_snpe_c ex_theta ex_x ex_masks (λ _ _, 0%Q)
      = Ok [Some (-2)%Z; Some (-2)%Z; Some 4%Z] ∧
    [Some (-2)%Z; Some (-2)%Z; Some 4%Z]
      = zip_with (ex_lift Z.add)
          (zip_with (ex_lift Z.mul) (mjoin ex_masks)
             (ex_net_log_prob ex_theta ex_x)) P.
Proof.
  assert (∀ a b, length (ex_net_log_prob a b) = length a) as Hnet
    by (intros a b; apply length_fmap).
  assert (∀ a, length (ex_prior_log_prob a) = length a) as Hprior
    by (intros a; apply length_fmap).
  assert (2 ≤ 3) as HB by lia.
  split_and!; [reflexivity|exact HB|reflexivity|exact Hnet|exact Hprior|].
  destruct (C2_loss_is_the_normalized_atomic_log_probability
              (ex_lift Z.sub) (ex_lift Z.add) (ex_lift Z.mul) ex_logsumexp
              ex_isfinite ex_net_log_prob ex_prior_log_prob ex_snpe_c ex_theta
              ex_x ex_masks (λ _ _, 0%Q) 3 eq_refl HB eq_refl Hnet Hprior)
    as (atoms & P & _ & _ & _ & Hres & _).
  exists P.
  assert (SNPE_C._log_prob_proposal_posterior (ex_lift Z.sub) (ex_lift Z.add)
            (ex_lift Z.mul) ex_logsumexp ex_isfinite ex_net_log_prob
            ex_prior_log_prob ex_snpe_c ex_theta ex_x ex_masks (λ _ _, 0%Q)
          = Ok [Some (-2)%Z; Some (-2)%Z; Some 4%Z]) as Hval by (by vm_compute).
  split; [exact Hval|]. exact (Hres _ Hval).
Defined.

(** C8, witness: a model that returns NaN on every atomic pair makes the
    loss raise at its first check. *)
Lemma C8_witness :
  length ex_theta = 3 ∧ 2 ≤ 3 ∧
  (∀ a b, length (ex_net_nan a b) = length a) ∧
  (∀ a, length (ex_prior_log_prob a) = length a) ∧
  SNPE_C._log_prob_proposal_posterior (ex_lift Z.sub) (ex_lift Z.add)
      (ex_lift Z.mul) ex_logsumexp ex_isfinite ex_net_nan ex_prior_log_prob
      ex_snpe_c ex_theta ex_x ex_masks (λ _ _, 0%Q)
    = Raise (AssertionError "posterior eval").
Proof.
  assert (∀ a b, length (ex_net_nan a b) = length a) as Hnet
    by (intros a b; apply length_fmap).
  assert (∀ a, length (ex_prior_log_prob a) = length a) as Hprior
    by (intros a; apply length_fmap).
  assert (2 ≤ 3) as HB by lia.
  split_and!; [reflexivity|exact HB|exact Hnet|exact Hprior|].
  destruct (C8_non_finite_values_abort_the_loss
              (ex_lift Z.sub) (ex_lift Z.add) (ex_lift Z.mul) ex_logsumexp
              ex_isfinite ex_net_nan ex_prior_log_prob ex_snpe_c ex_theta
              ex_x ex_masks (λ _ _, 0%Q) 3 eq_refl HB Hnet Hprior)
    as (atoms & P & _ & Hlen & _ & Hraise & _).
  apply Hraise.
  destruct atoms as [|a atoms]; [discriminate Hlen|].
  by apply Exists_cons_hd.
Defined.

(** ** The full atom count *)

(** X1.  With as many atoms as rows, the partners drawn for a row are all
    the other rows of the batch, in some order. *)
Theorem X1_full_atom_count_takes_every_other_row
    (B : nat) (u : nat → nat → Q) (c : list (list nat)) (i : nat)
    (js : list nat) :
  2 ≤ B → Atoms.choices B (Z.of_nat B) u = Ok c → c !! i = Some js →
  js ≡ₚ filter (λ j, j ≠ i) (seq 0 B).
Proof.
  intros HB Hc Hjs.
  destruct (choices_row B (Z.of_nat B) u c i js HB ltac:(lia) Hc Hjs)
    as [Hi Harr].
  apply arrange_spec in Harr as (Hlen & Hnd & Hsub); [|apply NoDup_others].
  apply submseteq_length_Permutation.
  - by apply NoDup_submseteq.
  - rewrite length_others by done. lia.
Qed.

(** X1, witness: three rows, three atoms, the partners of row 0. *)
Lemma X1_witness :
  2 ≤ 3 ∧
  Atoms.choices 3 (Z.of_nat 3) (λ _ _, 0%Q) = Ok [[1; 2]; [0; 2]; [0; 1]] ∧
  [1; 2] ≡ₚ filter (λ j, j ≠ 0) (seq 0 3).
Proof.
  assert (2 ≤ 3) as HB by lia.
  assert (Atoms.choices 3 (Z.of_nat 3) (λ _ _, 0%Q) = Ok [[1; 2]; [0; 2]; [0; 1]])
    as Hc by (by vm_compute).
  split_and!; [exact HB|exact Hc|].
  exact (X1_full_atom_count_takes_every_other_row 3 (λ _ _, 0%Q) _ 0 [1; 2]
           HB Hc eq_refl).
Defined.

(** ** When the atoms can be built *)

Section atom_count_facts.
Import Utils Torch Atoms.

Lemma raises_not_returns {A} (m : result A) : raises m → ¬ returns m.
Proof. by intros [e ->] [a ?]. Qed.

Lemma returns_not_raises {A} (m : result A) : ¬ returns m → raises m.
Proof. destruct m as [e|a]; [by eexists|]. intros []. by eexists. Qed.

Lemma atomic_theta_too_few {A} (theta : list (list A)) (K : Z)
    (u : nat → nat → Q) :
  (K ≤ 1)%Z → raises (atomic_theta theta K u).
Proof.
  intros HK. unfold atomic_theta.
  destruct (choices_too_few (length theta) K u HK) as [e ->]. by eexists.
Qed.

Lemma atomic_theta_returns_iff {A} (theta : list (list A)) (K : Z)
    (u : nat → nat → Q) :
  returns (atomic_theta theta K u)
    ↔ 2 ≤ length theta ∧ (2 ≤ K ≤ Z.of_nat (length theta) + 1)%Z.
Proof.
  split.
  - intros [atoms (c & Hc & _)%bind_Ok].
    apply (choices_returns_iff (length theta) K u). by eexists.
  - intros [HB HK].
    destruct (atomic_theta_blocks_any theta (length theta) K u eq_refl HB HK)
      as (c & atoms & _ & -> & _). by eexists.
Qed.

(** With one atom more than there are rows, the partners of a row are
    all the rows of the batch. *)
Lemma choices_all_rows (B : nat) (u : nat → nat → Q) (c : list (list nat))
    (i : nat) (js : list nat) :
  2 ≤ B → choices B (Z.of_nat B + 1) u = Ok c → c !! i = Some js →
  js ≡ₚ seq 0 B.
Proof.
  intros HB Hc Hjs.
  destruct (choices_returns_any B (Z.of_nat B + 1) u HB ltac:(lia))
    as (c' & Hc' & _ & Hrows).
  assert (c' = c) as -> by congruence.
  destruct (Hrows i js Hjs) as (Hlen & Hnd & Hsub).
  apply submseteq_length_Permutation.
  - apply NoDup_submseteq; [done|]. intros j Hj. apply elem_of_seq.
    specialize (Hsub j Hj). lia.
  - rewrite length_seq. lia.
Qed.

End atom_count_facts.

(** X2.  The atom construction shared by the two losses returns exactly
    when the batch has at least two rows and the atom count lies between
    2 and the number of rows plus one; for every other count (one atom or
    fewer, or at least two atoms more than rows) and on a batch of a
    single row or of none it raises.  With one atom more than rows, the
    partners drawn for a row are all the rows of the batch: the row is
    then one of its own contrasting atoms. *)
Theorem X2_atoms_exist_from_two_atoms_to_one_more_than_rows
    {A} (theta : list (list A)) (K : Z) (u : nat → nat → Q) :
  (returns (Atoms.atomic_theta theta K u)
     ↔ 2 ≤ length theta ∧ (2 ≤ K ≤ Z.of_nat (length theta) + 1)%Z) ∧
  (raises (Atoms.atomic_theta theta K u)
     ↔ length theta < 2 ∨ (K < 2)%Z ∨ (Z.of_nat (length theta) + 1 < K)%Z) ∧
  (∀ c i js,
     2 ≤ length theta →
     Atoms.choices (length theta) (Z.of_nat (length theta) + 1) u = Ok c →
     c !! i = Some js →
     js ≡ₚ seq 0 (length theta) ∧ i ∈ js).
Proof.
  pose proof (atomic_theta_returns_iff theta K u) as Hiff.
  split_and!; [done| |].
  - split.
    + intros Hr. apply raises_not_returns in Hr. rewrite Hiff in Hr. lia.
    + intros HK. apply returns_not_raises. rewrite Hiff. lia.
  - intros c i js HB Hc Hjs.
    pose proof (choices_all_rows (length theta) u c i js HB Hc Hjs) as Hperm.
    split; [done|]. rewrite Hperm. apply elem_of_seq.
    destruct (choices_returns_any (length theta) (Z.of_nat (length theta) + 1) u
                HB ltac:(lia)) as (c' & Hc' & Hlen & _).
    assert (c' = c) as -> by congruence.
    apply lookup_lt_Some in Hjs. lia.
Qed.

(** X2, witness: three rows; two, three and four atoms are built, one and
    five are not, and with four atoms row 0 is its own third partner. *)
Lemma X2_witness :
  returns (Atoms.atomic_theta ex_batch3 2 (λ _ _, 0%Q)) ∧
  returns (Atoms.atomic_theta ex_batch3 4 (λ _ _, 0%Q)) ∧
  raises (Atoms.atomic_theta ex_batch3 5 (λ _ _, 0%Q)) ∧
  raises (Atoms.atomic_theta ex_batch3 1 (λ _ _, 0%Q)) ∧
  Atoms.choices 3 4 (λ _ _, 0%Q) = Ok [[1; 2; 0]; [0; 2; 1]; [0; 1; 2]].
Proof.
  pose proof (X2_atoms_exist_from_two_atoms_to_one_more_than_rows
                ex_batch3 2 (λ _ _, 0%Q)) as (H2 & _ & _).
  pose proof (X2_atoms_exist_from_two_atoms_to_one_more_than_rows
                ex_batch3 4 (λ _ _, 0%Q)) as (H4 & _ & _).
  pose proof (X2_atoms_exist_from_two_atoms_to_one_more_than_rows
                ex_batch3 5 (λ _ _, 0%Q)) as (_ & H5 & _).
  pose proof (X2_atoms_exist_from_two_atoms_to_one_more_than_rows
                ex_batch3 1 (λ _ _, 0%Q)) as (_ & H1 & _).
  split_and!.
  - apply H2. simpl. lia.
  - apply H4. simpl. lia.
  - apply H5. simpl. lia.
  - apply H1. lia.
  - reflexivity.
Defined.

(** ** The input of the classifier *)

Section classifier_logits_facts.
Import Utils Torch Atoms RatioEstimator.
Context {F Net : Type}.
Variable forward : Net → list (list F) → list (list F).

Lemma repeat_rows_cons {A} (a : A) (x : list A) (K : Z) :
  repeat_rows (a :: x) K = replicate (Z.to_nat K) a ++ repeat_rows x K.
Proof. done. Qed.

Lemma length_repeat_rows {A} (x : list A) (K : Z) :
  length (repeat_rows x K) = length x * Z.to_nat K.
Proof.
  induction x as [|a x IH]; [done|].
  rewrite repeat_rows_cons, length_app, length_replicate, IH. simpl. lia.
Qed.

Lemma repeat_rows_block {A} (x : list A) (K : Z) (i k : nat) :
  k < Z.to_nat K → repeat_rows x K !! (i * Z.to_nat K + k) = x !! i.
Proof.
  intros Hk. revert i. induction x as [|a x IH]; intros i.
  - by rewrite !lookup_nil.
  - rewrite repeat_rows_cons. destruct i as [|i].
    + rewrite lookup_app_l by (rewrite length_replicate; lia).
      simpl. by apply lookup_replicate_2.
    + rewrite lookup_app_r by (rewrite length_replicate; lia).
      rewrite length_replicate.
      replace (S i * Z.to_nat K + k - Z.to_nat K) with (i * Z.to_nat K + k) by lia.
      apply IH.
Qed.

Lemma _classifier_logits_returns_iff (self : @Self F Net) (theta x : list (list F))
    (K : Z) (u : nat → nat → Q) :
  returns (_classifier_logits forward self theta x K u)
    ↔ 2 ≤ length theta ∧ (2 ≤ K ≤ Z.of_nat (length theta) + 1)%Z
      ∧ length x = length theta.
Proof.
  unfold _classifier_logits. split.
  - intros [out (atoms & Hatoms & (tx & Hcat & _)%bind_Ok)%bind_Ok].
    assert (2 ≤ length theta ∧ (2 ≤ K ≤ Z.of_nat (length theta) + 1)%Z)
      as [HB HK].
    { apply (atomic_theta_returns_iff theta K u). by eexists. }
    split; [done|]. split; [done|].
    destruct (atomic_theta_blocks_any theta (length theta) K u eq_refl HB HK)
      as (c & atoms' & _ & Hatoms' & Hlen & _).
    rewrite Hatoms in Hatoms'. injection Hatoms' as <-.
    unfold cat1 in Hcat. case_decide as Heq; [|done].
    rewrite Hlen, length_repeat_rows in Heq. nia.
  - intros (HB & HK & Hx).
    destruct (atomic_theta_blocks_any theta (length theta) K u eq_refl HB HK)
      as (c & atoms & _ & -> & Hlen & _).
    rewrite bind_Ok_l. unfold cat1.
    rewrite decide_True by (rewrite Hlen, length_repeat_rows; lia).
    by eexists.
Qed.

Lemma _classifier_logits_rows (self : @Self F Net) (theta x : list (list F))
    (K : Z) (u : nat → nat → Q) (out : list (list F)) :
  _classifier_logits forward self theta x K u = Ok out →
  ∃ atoms,
    atomic_theta theta K u = Ok atoms ∧
    length atoms = length theta * Z.to_nat K ∧
    out = forward (_posterior self) (zip_with app atoms (repeat_rows x K)) ∧
    length (zip_with app atoms (repeat_rows x K)) = length theta * Z.to_nat K ∧
    ∀ i k, i < length theta → k < Z.to_nat K →
      ∃ a xi, atoms !! (i * Z.to_nat K + k) = Some a ∧ a ∈ theta ∧
              x !! i = Some xi ∧
              zip_with app atoms (repeat_rows x K) !! (i * Z.to_nat K + k)
                = Some (a ++ xi) ∧
              (k = 0 → theta !! i = Some a).
Proof.
  intros Hout.
  assert (2 ≤ length theta ∧ (2 ≤ K ≤ Z.of_nat (length theta) + 1)%Z
          ∧ length x = length theta) as (HB & HK & Hx).
  { apply (_classifier_logits_returns_iff self theta x K u). by eexists. }
  unfold _classifier_logits in Hout.
  destruct (atomic_theta_blocks_any theta (length theta) K u eq_refl HB HK)
    as (c & atoms & _ & Hatoms & Hlen & Hin & Hblocks).
  rewrite Hatoms, bind_Ok_l in Hout. unfold cat1 in Hout.
  rewrite decide_True in Hout by (rewrite Hlen, length_repeat_rows; lia).
  injection Hout as <-.
  exists atoms. split_and!; [done..| |].
  { rewrite length_zip_with, Hlen, length_repeat_rows. lia. }
  intros i k Hi Hk.
  destruct (lookup_lt_is_Some_2 atoms (i * Z.to_nat K + k)) as [a Ha];
    [rewrite Hlen; nia|].
  destruct (lookup_lt_is_Some_2 x i) as [xi Hxi]; [lia|].
  exists a, xi. split_and!; [done| |done| |].
  - apply Hin. by eapply list_elem_of_lookup_2.
  - rewrite lookup_zip_with, Ha. simpl.
    by rewrite repeat_rows_block, Hxi by done.
  - intros ->. destruct (Hblocks i Hi) as (js & _ & _ & _ & _ & H0 & _).
    rewrite Nat.add_0_r in Ha. by rewrite <- H0.
Qed.

End classifier_logits_facts.

(** X3.  [RatioEstimator._classifier_logits] returns exactly when the
    batch has at least two rows, the atom count lies between 2 and the
    number of rows plus one, and [x] has as many rows as [theta].  What it
    returns is the network's output on [batch_size * num_atoms] rows: row
    [i * num_atoms + k] is an atom of block [i], a row of [theta],
    followed by the entries of [x[i]], and the first row of each block is
    the pair [(theta[i], x[i])] itself. *)
Theorem X3_classifier_sees_every_atom_of_a_block_with_its_own_x
    {F Net : Type} (forward : Net → list (list F) → list (list F))
    (self : @RatioEstimator.Self F Net) (theta x : list (list F))
    (K : Z) (u : nat → nat → Q) :
  (returns (RatioEstimator._classifier_logits forward self theta x K u)
     ↔ 2 ≤ length theta ∧ (2 ≤ K ≤ Z.of_nat (length theta) + 1)%Z
       ∧ length x = length theta) ∧
  (∀ out,
     RatioEstimator._classifier_logits forward self theta x K u = Ok out →
     ∃ atoms,
       Atoms.atomic_theta theta K u = Ok atoms ∧
       out = forward (RatioEstimator._posterior self)
                     (zip_with app atoms (Utils.repeat_rows x K)) ∧
       length (zip_with app atoms (Utils.repeat_rows x K))
         = length theta * Z.to_nat K ∧
       ∀ i k, i < length theta → k < Z.to_nat K →
         ∃ a xi, atoms !! (i * Z.to_nat K + k) = Some a ∧ a ∈ theta ∧
                 x !! i = Some xi ∧
                 zip_with app atoms (Utils.repeat_rows x K)
                   !! (i * Z.to_nat K + k) = Some (a ++ xi) ∧
                 (k = 0 → theta !! i = Some a)).
Proof.
  split.
  - by apply _classifier_logits_returns_iff.
  - intros out Hout.
    destruct (_classifier_logits_rows forward self theta x K u out Hout)
      as (atoms & ? & ? & ? & ? & ?).
    by exists atoms.
Qed.

(** X3, witness: three rows of parameters with three rows of
    observations and two atoms; with two rows of observations it raises;
    two rows of each with three atoms give six rows. *)
Lemma X3_witness :
  returns (RatioEstimator._classifier_logits (λ (_ : Z) rows, rows) ex_estimator
             ex_batch3 [[7]; [8]; [9]]%Z 2 (λ _ _, 0%Q)) ∧
  ¬ returns (RatioEstimator._classifier_logits (λ (_ : Z) rows, rows) ex_estimator
               ex_batch3 [[7]; [8]]%Z 2 (λ _ _, 0%Q)) ∧
  RatioEstimator._classifier_logits (λ (_ : Z) rows, rows) ex_estimator
    [[1]; [2]]%Z [[7]; [8]]%Z 3 (λ _ _, 0%Q)
  = Ok [[1; 7]; [2; 7]; [1; 7]; [2; 8]; [1; 8]; [2; 8]]%Z.
Proof.
  split_and!.
  - apply (X3_classifier_sees_every_atom_of_a_block_with_its_own_x
             (λ (_ : Z) rows, rows) ex_estimator ex_batch3 [[7]; [8]; [9]]%Z 2
             (λ _ _, 0%Q)).
    simpl. split; [lia|]. split; [lia|done].
  - intros Hr.
    apply (X3_classifier_sees_every_atom_of_a_block_with_its_own_x
             (λ (_ : Z) rows, rows) ex_estimator ex_batch3 [[7]; [8]]%Z 2
             (λ _ _, 0%Q)) in Hr.
    simpl in Hr. destruct Hr as (_ & _ & Hr). discriminate Hr.
  - reflexivity.
Defined.

(** ** The last validation minibatch *)

Section last_minibatch_facts.
Import Utils Torch Atoms RatioEstimator.

Lemma reshape_app {A} (szs1 szs2 : list nat) (l : list A) :
  reshape (szs1 ++ szs2) l
    = reshape szs1 l ++ reshape szs2 (drop (sum_list szs1) l).
Proof.
  revert l. induction szs1 as [|sz szs1 IH]; intros l; simpl; [done|].
  by rewrite IH, drop_drop.
Qed.

Lemma minibatches_last (dl : Loader) (order : list nat) :
  drop_last dl = false → 0 < batch_size dl →
  length order `mod` batch_size dl ≠ 0 →
  ∃ full last,
    minibatches dl order = full ++ [last] ∧
    length full = length order `div` batch_size dl ∧
    Forall (λ b, length b = batch_size dl) full ∧
    length last = length order `mod` batch_size dl ∧
    mjoin full ++ last = order.
Proof.
  intros Hd Hb Hm. unfold minibatches. rewrite Hd. simpl.
  set (n := length order) in *. set (b := batch_size dl) in *.
  apply Nat.eqb_neq in Hm as Hm'. rewrite Hm'. clear Hm'.
  rewrite reshape_app, sum_list_replicate. simpl.
  pose proof (Nat.div_mod_eq n b) as Hn.
  pose proof (full_batches_fit n b) as Hfit.
  exists (reshape (replicate (n `div` b) b) order),
         (take (n `mod` b) (drop (n `div` b * b) order)).
  split_and!.
  - done.
  - by rewrite length_reshape, length_replicate.
  - pose proof (reshape_lengths (replicate (n `div` b) b) order) as H2.
    rewrite sum_list_replicate in H2. specialize (H2 Hfit).
    eapply Forall2_Forall_l; [exact H2|].
    apply Forall_replicate. by intros c <-.
  - rewrite length_take, length_drop. fold n. lia.
  - rewrite join_reshape_take, sum_list_replicate.
    rewrite (take_ge (drop _ _)) by (rewrite length_drop; fold n; lia).
    apply take_drop.
Qed.

Lemma train_setup_val_loader {F Net} (self : @Self F Net) num_atoms requested
    validation_fraction hyper permuted_indices plan :
  train_setup self num_atoms requested validation_fraction hyper permuted_indices
    = Ok plan →
  drop_last (val_loader plan) = false ∧ 0 < batch_size (val_loader plan) ∧
  drop_last (train_loader plan) = true ∧
  batch_size (train_loader plan) = batch_size (val_loader plan) ∧
  loss_num_atoms plan = num_atoms.
Proof.
  intros (T & _ & Hpos & ->)%train_setup_Ok. simpl.
  split_and!; [done|lia|done..].
Qed.

End last_minibatch_facts.

(** X4.  The validation loader of [_train] keeps the last, shorter
    minibatch: when the clipped batch size [b] does not divide the number
    [n] of rows an epoch yields, the minibatches are [n div b] full ones
    followed by one of [n mod b] rows, fewer than every training
    minibatch has.  On a batch of that size [_classifier_logits] raises
    when it is a single row, or at least two rows short of the atom count
    the loss is handed; with at least two rows and no more than one row
    short of the atom count it returns. *)
Theorem X4_short_last_validation_minibatch_may_have_too_few_rows_for_the_atoms
    {F Net : Type} (forward : Net → list (list F) → list (list F))
    (self : @RatioEstimator.Self F Net) (num_atoms requested : Z)
    (validation_fraction : Float64.float) (hyper : RatioEstimator.Hyper)
    (permuted_indices order : list nat) (plan : RatioEstimator.Plan) :
  RatioEstimator.train_setup self num_atoms requested validation_fraction hyper
    permuted_indices = Ok plan →
  length order `mod` RatioEstimator.batch_size (RatioEstimator.val_loader plan) ≠ 0 →
  ∃ full last,
    RatioEstimator.minibatches (RatioEstimator.val_loader plan) order
      = full ++ [last] ∧
    length full
      = length order `div` RatioEstimator.batch_size (RatioEstimator.val_loader plan) ∧
    Forall (λ b, length b
                 = RatioEstimator.batch_size (RatioEstimator.val_loader plan)) full ∧
    length last
      = length order `mod` RatioEstimator.batch_size (RatioEstimator.val_loader plan) ∧
    0 < length last < RatioEstimator.batch_size (RatioEstimator.train_loader plan) ∧
    ∀ (theta x : list (list F)) (u : nat → nat → Q),
      length theta = length last →
      ((Z.of_nat (length last) + 1 < RatioEstimator.loss_num_atoms plan)%Z
         ∨ length last = 1 →
       raises (RatioEstimator._classifier_logits forward self theta x
                 (RatioEstimator.loss_num_atoms plan) u)) ∧
      (2 ≤ length last →
       (2 ≤ RatioEstimator.loss_num_atoms plan ≤ Z.of_nat (length last) + 1)%Z →
       length x = length theta →
       returns (RatioEstimator._classifier_logits forward self theta x
                  (RatioEstimator.loss_num_atoms plan) u)).
Proof.
  intros Hplan Hm.
  destruct (train_setup_val_loader _ _ _ _ _ _ _ Hplan)
    as (Hd & Hb & _ & Hbb & _).
  destruct (minibatches_last _ order Hd Hb Hm)
    as (full & last & Heq & Hfull & Hall & Hlast & _).
  exists full, last. split_and!; [done..| | | ].
  - lia.
  - rewrite Hbb, Hlast. by apply Nat.mod_upper_bound, Nat.neq_0_lt_0.
  - intros theta x u Hth. split.
    + intros HK. apply returns_not_raises.
      rewrite _classifier_logits_returns_iff. lia.
    + intros H2 HK Hx. apply _classifier_logits_returns_iff. lia.
Qed.

(** X4, witness: 50 simulations, a validation fraction of 0.1, a batch
    size of 2 and 2 atoms: the five validation rows come in minibatches
    of 2, 2 and 1 rows. *)
Lemma X4_witness :
  ∃ plan,
    RatioEstimator.train_setup ex_estimator 2 2 (Float64.literal 1 10) ex_hyper
      (seq 0 50) = Ok plan ∧
    RatioEstimator.minibatches (RatioEstimator.val_loader plan) (seq 45 5)
      = [[45; 46]; [47; 48]] ++ [[49]] ∧
    ∀ u, raises (RatioEstimator._classifier_logits (λ (_ : Z) rows, rows)
                   ex_estimator [[0%Z]] [[0%Z]]
                   (RatioEstimator.loss_num_atoms plan) u).
Proof.
  assert (∃ plan, RatioEstimator.train_setup ex_estimator 2 2
                    (Float64.literal 1 10) ex_hyper (seq 0 50) = Ok plan ∧
                  RatioEstimator.minibatches (RatioEstimator.val_loader plan)
                    (seq 45 5) = [[45; 46]; [47; 48]] ++ [[49]])
    as (plan & Hplan & Hmb) by (eexists; split; by vm_compute).
  exists plan. split; [exact Hplan|]. split; [exact Hmb|].
  assert (length (seq 45 5)
            `mod` RatioEstimator.batch_size (RatioEstimator.val_loader plan) ≠ 0)
    as Hm.
  { injection Hplan as <-. by vm_compute. }
  destruct (X4_short_last_validation_minibatch_may_have_too_few_rows_for_the_atoms
              (λ (_ : Z) rows, rows) ex_estimator 2 2 (Float64.literal 1 10)
              ex_hyper (seq 0 50) (seq 45 5) plan Hplan Hm)
    as (full & last & Heq & _ & _ & _ & _ & Hraise).
  rewrite Hmb in Heq. apply app_inj_tail in Heq as [_ <-].
  intros u. destruct (Hraise [[0%Z]] [[0%Z]] u eq_refl) as [Hr _].
  apply Hr. by right.
Defined.

(** ** The split into training and validation rows *)

Section split_facts.
Import Utils RatioEstimator.
Context {F Net : Type}.
Variable epoch_loop : Plan → Net → result Net.

Lemma train_setup_no_validation (self : @Self F Net) num_atoms requested
    validation_fraction hyper permuted_indices :
  (Float64.is_zero validation_fraction ∧ (num_examples self < 2 ^ 53)%Z)
    ∨ num_examples self = 0%Z →
  is_ValueError
    (train_setup self num_atoms requested validation_fraction hyper
       permuted_indices).
Proof.
  assert (0 ≤ num_examples self)%Z as Hn by (unfold num_examples; lia).
  intros [[Hv Hsmall]|H0].
  - apply (train_setup_too_small _ _ _ _ _ _ (num_examples self)); [|lia].
    by apply num_training_examples_all.
  - destruct (num_training_examples_empty validation_fraction) as [HT|[msg HT]].
    + apply (train_setup_too_small _ _ _ _ _ _ 0%Z); [by rewrite H0|lia].
    + unfold train_setup. rewrite H0, HT. by eexists.
Qed.

Lemma _train_frame (self self' : @Self F Net) num_atoms requested
    validation_fraction hyper permuted_indices :
  _train epoch_loop self num_atoms requested validation_fraction hyper
         permuted_indices = Ok self' →
  _theta_bank self' = _theta_bank self ∧ _x_bank self' = _x_bank self ∧
  _untrained_classifier self' = _untrained_classifier self ∧
  _retrain_from_scratch_each_round self'
    = _retrain_from_scratch_each_round self.
Proof.
  unfold _train. intros (plan & _ & (net & _ & [= <-])%bind_Ok)%bind_Ok.
  unfold train_reset.
  by destruct (_retrain_from_scratch_each_round self) eqn:E; simpl; rewrite ?E.
Qed.

Lemma __call___frame (rounds : list Round) (self self' : @Self F Net) num_atoms
    requested validation_fraction hyper :
  __call__ epoch_loop self rounds num_atoms requested validation_fraction hyper
    = Ok self' →
  _theta_bank self' = _theta_bank self ++ (theta_valid <$> rounds) ∧
  _x_bank self' = _x_bank self ++ (x_valid <$> rounds) ∧
  _untrained_classifier self' = _untrained_classifier self ∧
  _retrain_from_scratch_each_round self'
    = _retrain_from_scratch_each_round self.
Proof.
  revert self. induction rounds as [|r rounds IH]; intros self; simpl.
  - intros [= <-]. by rewrite !app_nil_r.
  - intros (self1 & Htrain & Hrest)%bind_Ok.
    apply _train_frame in Htrain as (Ht & Hx & Hu & Hf).
    apply IH in Hrest as (Ht' & Hx' & Hu' & Hf').
    rewrite Ht', Hx', Hu', Hf', Ht, Hx, Hu, Hf. simpl.
    by rewrite <- !app_assoc.
Qed.

End split_facts.

(** X5.  [_train] splits the permutation of the example indices at
    [T = int((1 - validation_fraction) * num_examples)], as Python's float
    arithmetic gives it: the training indices are [permuted[:T]] and the
    validation indices [permuted[T:]].  The training indices followed by
    the validation indices are the permutation itself, so every example is
    in exactly one of the two sets, and [num_examples - T >= 1].  When [T]
    is not negative there are [T] training and [num_examples - T]
    validation indices. *)
Theorem X5_training_and_validation_indices_partition_the_examples
    {F Net : Type} (self : @RatioEstimator.Self F Net) (num_atoms requested : Z)
    (validation_fraction : Float64.float) (hyper : RatioEstimator.Hyper)
    (permuted_indices : list nat) (plan : RatioEstimator.Plan) :
  permuted_indices ≡ₚ seq 0 (Z.to_nat (RatioEstimator.num_examples self)) →
  RatioEstimator.train_setup self num_atoms requested validation_fraction hyper
    permuted_indices = Ok plan →
  let train_indices := RatioEstimator.sampler (RatioEstimator.train_loader plan) in
  let val_indices := RatioEstimator.sampler (RatioEstimator.val_loader plan) in
  ∃ T,
    RatioEstimator.num_training_examples validation_fraction
      (RatioEstimator.num_examples self) = Ok T ∧
    train_indices = RatioEstimator.slice_to permuted_indices T ∧
    val_indices = RatioEstimator.slice_from permuted_indices T ∧
    train_indices ++ val_indices = permuted_indices ∧
    RatioEstimator.num_validation_examples plan
      = (RatioEstimator.num_examples self - T)%Z ∧
    (1 ≤ RatioEstimator.num_validation_examples plan)%Z ∧
    ((0 ≤ T)%Z →
     Z.of_nat (length train_indices) = T ∧
     Z.of_nat (length val_indices) = RatioEstimator.num_validation_examples plan) ∧
    ∀ i, (Z.of_nat i < RatioEstimator.num_examples self)%Z →
         (i ∈ train_indices ∨ i ∈ val_indices) ∧
         ¬ (i ∈ train_indices ∧ i ∈ val_indices).
Proof.
  intros Hperm (T & HT & Hpos & ->)%train_setup_Ok. simpl.
  assert (0 ≤ RatioEstimator.num_examples self)%Z as Hn
    by (unfold RatioEstimator.num_examples; lia).
  assert (length permuted_indices = Z.to_nat (RatioEstimator.num_examples self))
    as Hlen by (by rewrite Hperm, length_seq).
  pose proof (slice_app permuted_indices T) as Happ.
  exists T. split_and!; [done|done|done|done|done|lia| |].
  - intros HT0.
    destruct (length_slice permuted_indices T) as [H1 H2]; lia.
  - intros i Hi.
    assert (NoDup (RatioEstimator.slice_to permuted_indices T
                     ++ RatioEstimator.slice_from permuted_indices T)) as Hnd.
    { rewrite Happ, Hperm. apply NoDup_seq. }
    assert (i ∈ RatioEstimator.slice_to permuted_indices T
                  ++ RatioEstimator.slice_from permuted_indices T) as Hin.
    { rewrite Happ, Hperm. apply elem_of_seq. lia. }
    apply NoDup_app in Hnd as (_ & Hdisj & _).
    apply elem_of_app in Hin. split; [done|].
    intros [H1 H2]. by apply (Hdisj i).
Qed.

(** X5, witness: 90 simulations and a validation fraction of 0.3: the
    first 62 indices of the permutation train, the last 28 validate. *)
Lemma X5_witness :
  ∃ plan,
    RatioEstimator.train_setup ex_estimator90 10 100 (Float64.literal 3 10)
      ex_hyper (seq 0 90) = Ok plan ∧
    RatioEstimator.sampler (RatioEstimator.train_loader plan)
      ++ RatioEstimator.sampler (RatioEstimator.val_loader plan) = seq 0 90 ∧
    Z.of_nat (length (RatioEstimator.sampler (RatioEstimator.train_loader plan)))
      = 62%Z ∧
    RatioEstimator.num_validation_examples plan = 28%Z.
Proof.
  assert (seq 0 90 ≡ₚ seq 0 (Z.to_nat (RatioEstimator.num_examples ex_estimator90)))
    as Hperm by (by vm_compute).
  assert (∃ plan, RatioEstimator.train_setup ex_estimator90 10 100
                    (Float64.literal 3 10) ex_hyper (seq 0 90) = Ok plan ∧
                  RatioEstimator.num_validation_examples plan = 28%Z)
    as (plan & Hplan & HV) by (eexists; split; by vm_compute).
  exists plan. split; [exact Hplan|].
  destruct (X5_training_and_validation_indices_partition_the_examples
              ex_estimator90 10 100 (Float64.literal 3 10) ex_hyper (seq 0 90) plan
              Hperm Hplan) as (T & HT & _ & _ & Happ & _ & _ & Hlen & _).
  assert (T = 62%Z) as ->.
  { assert (RatioEstimator.num_training_examples (Float64.literal 3 10)
              (RatioEstimator.num_examples ex_estimator90) = Ok 62%Z) as H62
      by (by vm_compute).
    congruence. }
  split; [exact Happ|]. split; [|exact HV].
  apply Hlen. lia.
Defined.

(** X6.  Training needs validation rows.  With a validation fraction of
    0 (and fewer than [2 ^ 53] examples, which a float counts exactly), or
    with no example in the bank after the round's simulations are stored,
    the first round of [__call__] raises a [ValueError], the loader's for
    a batch size of 0; no network is trained. *)
Theorem X6_a_round_without_validation_rows_raises_ValueError
    {F Net : Type} (epoch_loop : RatioEstimator.Plan → Net → result Net)
    (self : @RatioEstimator.Self F Net) (r : RatioEstimator.Round)
    (rounds : list RatioEstimator.Round) (num_atoms requested : Z)
    (validation_fraction : Float64.float) (hyper : RatioEstimator.Hyper) :
  (Float64.is_zero validation_fraction
   ∧ (RatioEstimator.num_examples (RatioEstimator.store self r) < 2 ^ 53)%Z)
    ∨ (RatioEstimator.num_examples self = 0%Z
       ∧ RatioEstimator.theta_valid r = []) →
  is_ValueError
    (RatioEstimator._train epoch_loop (RatioEstimator.store self r) num_atoms
       requested validation_fraction hyper (RatioEstimator.randperm r)) ∧
  is_ValueError
    (RatioEstimator.__call__ epoch_loop self (r :: rounds) num_atoms requested
       validation_fraction hyper).
Proof.
  intros Hcase.
  assert (is_ValueError
            (RatioEstimator.train_setup (RatioEstimator.store self r) num_atoms
               requested validation_fraction hyper (RatioEstimator.randperm r)))
    as [msg Hmsg].
  { apply train_setup_no_validation.
    destruct Hcase as [Hv|[Hn Hr]]; [by left|right].
    unfold RatioEstimator.num_examples in *. simpl.
    rewrite fmap_app, sum_list_app, Hr. simpl. lia. }
  assert (RatioEstimator._train epoch_loop (RatioEstimator.store self r) num_atoms
            requested validation_fraction hyper (RatioEstimator.randperm r)
          = Raise (ValueError msg)) as Htrain.
  { unfold RatioEstimator._train. by rewrite Hmsg. }
  split; [by eexists|]. simpl. rewrite Htrain. by eexists.
Qed.

(** X6, witness: a new estimator whose first round has no valid
    simulation. *)
Lemma X6_witness :
  is_ValueError
    (RatioEstimator.__call__ ex_epoch_loop (RatioEstimator.__init__ 0%Z true)
       [{| RatioEstimator.theta_valid := [];
           RatioEstimator.x_valid := [];
           RatioEstimator.randperm := [] |}; ex_round1]
       10 100 (Float64.literal 1 10) ex_hyper).
Proof.
  apply (X6_a_round_without_validation_rows_raises_ValueError ex_epoch_loop
           (RatioEstimator.__init__ 0%Z true)).
  right. split; reflexivity.
Defined.

(** X7.  The sample bank only grows.  If [__call__] returns after its
    rounds, the banks are the banks it started with followed by the
    valid parameters and simulations of each round, in round order and
    entry for entry in both banks; the untrained copy and the
    retrain-from-scratch flag are what they were, and the number of
    examples grew by the rounds' numbers of valid simulations. *)
Theorem X7_banks_accumulate_the_rounds_in_order
    {F Net : Type} (epoch_loop : RatioEstimator.Plan → Net → result Net)
    (self self' : @RatioEstimator.Self F Net) (rounds : list RatioEstimator.Round)
    (num_atoms requested : Z) (validation_fraction : Float64.float)
    (hyper : RatioEstimator.Hyper) :
  RatioEstimator.__call__ epoch_loop self rounds num_atoms requested
    validation_fraction hyper = Ok self' →
  RatioEstimator._theta_bank self'
    = RatioEstimator._theta_bank self ++ (RatioEstimator.theta_valid <$> rounds) ∧
  RatioEstimator._x_bank self'
    = RatioEstimator._x_bank self ++ (RatioEstimator.x_valid <$> rounds) ∧
  length (RatioEstimator._theta_bank self')
    = length (RatioEstimator._theta_bank self) + length rounds ∧
  RatioEstimator.num_examples self'
    = (RatioEstimator.num_examples self
       + Z.of_nat (sum_list ((λ r, length (RatioEstimator.theta_valid r))
                               <$> rounds)))%Z ∧
  RatioEstimator._untrained_classifier self'
    = RatioEstimator._untrained_classifier self ∧
  RatioEstimator._retrain_from_scratch_each_round self'
    = RatioEstimator._retrain_from_scratch_each_round self.
Proof.
  intros Hcall.
  apply __call___frame in Hcall as (Ht & Hx & Hu & Hf).
  split_and!; [done|done| | |done|done].
  - by rewrite Ht, length_app, length_fmap.
  - unfold RatioEstimator.num_examples.
    by rewrite Ht, fmap_app, sum_list_app, <- list_fmap_compose, Nat2Z.inj_add.
Qed.

(** X7, witness: two rounds of 50 valid simulations on a new estimator,
    with two atoms, for which the loss is defined on every minibatch. *)
Lemma X7_witness :
  ∃ self',
    RatioEstimator.__call__ ex_epoch_loop (RatioEstimator.__init__ 0%Z true)
      [ex_round1; ex_round2] 2 100 (Float64.literal 1 10) ex_hyper = Ok self' ∧
    RatioEstimator.num_examples self' = 100%Z ∧
    length (RatioEstimator._theta_bank self') = 2.
Proof.
  assert (∃ self', RatioEstimator.__call__ ex_epoch_loop
                     (RatioEstimator.__init__ 0%Z true)
                     [ex_round1; ex_round2] 2 100 (Float64.literal 1 10) ex_hyper
                   = Ok self')
    as [self' Hcall] by (eexists; by vm_compute).
  exists self'. split; [exact Hcall|].
  destruct (X7_banks_accumulate_the_rounds_in_order ex_epoch_loop _ _ _ _ _ _ _
              Hcall) as (_ & _ & Hlen & Hn & _).
  split; [rewrite Hn; by vm_compute|exact Hlen].
Defined.

(** ** The epoch loop *)

Section epoch_loop_facts.
Import Training.
Context {St : Type}.
Variable _converged : Z → Z → St → bool * St.
Variable train_one_epoch : St → result St.
Variable validate : St → result St.

#[local] Abbreviation while_loop' := (while_loop _converged train_one_epoch validate).

(** The loop tests its condition at most
    [max(0, max_num_epochs + 1 - epoch) + 1] times; it leaves [epoch] no
    larger than [max_num_epochs + 1]. *)
Lemma while_loop_terminates (fuel : nat) (max_num_epochs stop_after_epochs epoch : Z)
    (s : St) :
  (Z.max 0 (max_num_epochs + 1 - epoch) < Z.of_nat fuel)%Z →
  ∃ r, while_loop' fuel max_num_epochs stop_after_epochs epoch s = Some r ∧
       ∀ e s', r = Ok (e, s') →
               (epoch ≤ e ≤ Z.max epoch (max_num_epochs + 1))%Z.
Proof.
  revert epoch s. induction fuel as [|fuel IH]; intros epoch s Hfuel; [lia|].
  simpl. case_decide as Hle.
  - destruct (_converged epoch stop_after_epochs s) as [[|] s1].
    + eexists. split; [done|]. intros e s' [= <- <-]. lia.
    + destruct (train_one_epoch s1 ≫= validate) as [ex|s2].
      * eexists. split; [done|]. by intros e s' [=].
      * destruct (IH (epoch + 1)%Z s2) as (r & Hr & Hbound); [lia|].
        exists r. split; [done|]. intros e s' He.
        specialize (Hbound e s' He). lia.
  - eexists. split; [done|]. intros e s' [= <- <-]. lia.
Qed.

(** Each epoch the loop counts is one training sweep. *)
Lemma while_loop_counts (count : St → nat) (fuel : nat)
    (max_num_epochs stop_after_epochs epoch e : Z) (s s' : St) :
  (∀ st st', train_one_epoch st = Ok st' → count st' = S (count st)) →
  (∀ st st', validate st = Ok st' → count st' = count st) →
  (∀ k st, count (_converged k stop_after_epochs st).2 = count st) →
  while_loop' fuel max_num_epochs stop_after_epochs epoch s = Some (Ok (e, s')) →
  (Z.of_nat (count s') = Z.of_nat (count s) + (e - epoch))%Z.
Proof.
  intros Ht Hv Hc. revert epoch s.
  induction fuel as [|fuel IH]; intros epoch s; simpl; [done|].
  case_decide as Hle.
  - pose proof (Hc epoch s) as Hc1.
    destruct (_converged epoch stop_after_epochs s) as [[|] s1]; simpl in Hc1.
    + intros [= <- <-]. lia.
    + destruct (train_one_epoch s1) as [ex|s2] eqn:H2; simpl; [done|].
      destruct (validate s2) as [ex|s3] eqn:H3; simpl; [done|].
      intros Hloop. apply IH in Hloop.
      apply Ht in H2. apply Hv in H3. lia.
  - intros [= <- <-]. lia.
Qed.

(** Without convergence and without an exception, the loop stops only
    when [epoch] has passed [max_num_epochs]. *)
Lemma while_loop_runs_out (fuel : nat) (max_num_epochs stop_after_epochs epoch : Z)
    (s : St) :
  (∀ k st, (_converged k stop_after_epochs st).1 = false) →
  (∀ st, returns (train_one_epoch st ≫= validate)) →
  (Z.max 0 (max_num_epochs + 1 - epoch) < Z.of_nat fuel)%Z →
  ∃ s', while_loop' fuel max_num_epochs stop_after_epochs epoch s
        = Some (Ok (Z.max epoch (max_num_epochs + 1), s')).
Proof.
  intros Hc Hok. revert epoch s.
  induction fuel as [|fuel IH]; intros epoch s Hfuel; [lia|].
  simpl. case_decide as Hle.
  - pose proof (Hc epoch s) as Hc1.
    destruct (_converged epoch stop_after_epochs s) as [c s1]. simpl in Hc1.
    subst c. destruct (Hok s1) as [s2 ->].
    destruct (IH (epoch + 1)%Z s2) as [s' Hs']; [lia|].
    exists s'. rewrite Hs'. do 3 f_equal. lia.
  - exists s. do 3 f_equal. lia.
Qed.

End epoch_loop_facts.

(** X8.  The epoch loop of [_train] ends after at most
    [max(0, max_num_epochs + 1) + 1] tests of its condition, with an exception of a
    sweep or with [0 <= epoch <= max_num_epochs + 1].  The final [epoch]
    is the number of training sweeps made.  When [_converged] never
    answers true and no sweep raises, the loop makes
    [max_num_epochs + 1] training sweeps, one more than
    [max_num_epochs]; with a negative [max_num_epochs] it makes none and
    does not ask [_converged]. *)
Theorem X8_epoch_loop_makes_up_to_max_num_epochs_plus_one_sweeps
    {St : Type} (_converged : Z → Z → St → bool * St)
    (train_one_epoch validate : St → result St)
    (max_num_epochs stop_after_epochs : Z) (s : St) (fuel : nat) :
  (Z.max 0 (max_num_epochs + 1) < Z.of_nat fuel)%Z →
  ∃ r,
    Training.epochs _converged train_one_epoch validate fuel max_num_epochs
      stop_after_epochs s = Some r ∧
    (∀ e s', r = Ok (e, s') →
       (0 ≤ e ≤ Z.max 0 (max_num_epochs + 1))%Z ∧
       ∀ count : St → nat,
         (∀ st st', train_one_epoch st = Ok st' → count st' = S (count st)) →
         (∀ st st', validate st = Ok st' → count st' = count st) →
         (∀ k st, count (_converged k stop_after_epochs st).2 = count st) →
         Z.of_nat (count s') = (Z.of_nat (count s) + e)%Z) ∧
    ((∀ k st, (_converged k stop_after_epochs st).1 = false) →
     (∀ st, returns (train_one_epoch st ≫= validate)) →
     ∃ s', r = Ok (Z.max 0 (max_num_epochs + 1), s')) ∧
    ((max_num_epochs < 0)%Z → r = Ok (0%Z, s)).
Proof.
  intros Hfuel. unfold Training.epochs.
  destruct (while_loop_terminates _converged train_one_epoch validate fuel
              max_num_epochs stop_after_epochs 0 s) as (r & Hr & Hbound); [lia|].
  exists r. split; [done|]. split_and!.
  - intros e s' ->. split; [by apply (Hbound e s')|].
    intros count Ht Hv Hc.
    pose proof (while_loop_counts _converged train_one_epoch validate count fuel
                  max_num_epochs stop_after_epochs 0 e s s' Ht Hv Hc Hr).
    lia.
  - intros Hc Hok.
    destruct (while_loop_runs_out _converged train_one_epoch validate fuel
                max_num_epochs stop_after_epochs 0 s Hc Hok) as [s' Hs']; [lia|].
    exists s'. congruence.
  - intros Hneg. destruct fuel as [|fuel]; [simpl in Hfuel; lia|].
    simpl in Hr. rewrite decide_False in Hr by lia. congruence.
Qed.

(** X8, witness: a state that counts the training sweeps, a
    [_converged] that never answers true, and [max_num_epochs = 3]: four
    sweeps. *)
Lemma X8_witness :
  (Z.max 0 (3 + 1) < Z.of_nat 6)%Z ∧
  Training.epochs (λ _ _ (st : nat), (false, st)) (λ st, Ok (S st)) (λ st, Ok st)
    6 3 20 0 = Some (Ok (4%Z, 4)).
Proof.
  assert (Z.max 0 (3 + 1) < Z.of_nat 6)%Z as Hfuel by (simpl; lia).
  split; [exact Hfuel|].
  destruct (X8_epoch_loop_makes_up_to_max_num_epochs_plus_one_sweeps
              (λ _ _ (st : nat), (false, st)) (λ st, Ok (S st)) (λ st, Ok st)
              3 20 0 6 Hfuel) as (r & Hr & _).
  rewrite Hr. f_equal. vm_compute in Hr. congruence.
Defined.

(** ** The chain that [build_flow] returns *)

Section chain_facts.
Import Flows Registry.
Context {Arg Val Obj Dist : Type}.
Variable filter_kwrags_for_func :
  @Cls Arg Val Obj → gmap string Val → gmap string Val.

#[local] Abbreviation G2 := (@Globals Arg Val Obj Dist).
#[local] Abbreviation build_flow2 := (build_flow (Dist := Dist) filter_kwrags_for_func).
#[local] Abbreviation flow_layers2 := (flow_layers (Dist := Dist) filter_kwrags_for_func).
#[local] Abbreviation get_transform2 := (get_transform (Dist := Dist) filter_kwrags_for_func).

Lemma zip_with_fmap_same {A B C} (f : A → B → C) (g : A → B) (l : list A) :
  zip_with f l (g <$> l) = (λ a, f a (g a)) <$> l.
Proof. induction l as [|a l IH]; simpl; by f_equal. Qed.

Lemma working_event_shape_formula (event_shape : Shape) (link : Link) :
  working_event_shape event_shape link
    = len (link_shape link event_shape)
        ≫= λ l, Ok ((λ e, 2 * e - l)%Z <$> event_shape).
Proof.
  unfold working_event_shape.
  destruct (len (link_shape link event_shape)) as [e|l]; simpl; [done|].
  rewrite zip_with_fmap_same. f_equal. apply list_fmap_ext. intros _ e _. lia.
Qed.

(** The layers of the loop over [range(num_flows)], for the indices from
    [j] on: [m] transforms that [get_transform] returned, and between two
    of them the permutation and the batch normalization that were asked
    for; the last flow is a transform. *)
Lemma flow_layers_shape (g : G2) transform dim (permute batch_norm : bool)
    (n : nat) kwargs (m j : nat) (fs : list (@Flow Obj)) :
  j + m = n →
  flow_layers2 g transform dim permute batch_norm n kwargs (seq j m) = Ok fs →
  length fs = m + (if permute then m - 1 else 0) + (if batch_norm then m - 1 else 0) ∧
  length (filter (λ f, is_registered f = true) fs) = m ∧
  (0 < m → ∃ t t', head fs = Some (Registered t) ∧ last fs = Some (Registered t')).
Proof.
  revert j fs. induction m as [|m IH]; intros j fs Hj; simpl.
  - intros [= <-]. destruct permute, batch_norm; simpl; split_and!; try done; lia.
  - intros (fs1 & (t & Ht & _ & _ & ->)%flow_layer_Ok
            & (rest & Hrest & [= <-])%bind_Ok)%bind_Ok.
    destruct (IH (S j) rest ltac:(lia) Hrest) as (Hlen & Hreg & Hends).
    destruct m as [|m].
    + simpl in Hrest. injection Hrest as <-.
      assert ((j <? n - 1) = false) as -> by (apply Nat.ltb_ge; lia).
      rewrite !andb_false_r. simpl.
      split_and!; [by destruct permute, batch_norm|done|].
      intros _. by exists t, t.
    + assert ((j <? n - 1) = true) as -> by (apply Nat.ltb_lt; lia).
      rewrite !andb_true_r.
      destruct Hends as (t1 & t' & _ & Hlast); [lia|].
      split_and!.
      * destruct permute, batch_norm; simpl; rewrite Hlen; simpl; lia.
      * rewrite filter_cons_True by done.
        destruct permute, batch_norm; simpl;
          repeat (rewrite filter_cons_False by done);
          simpl; rewrite Hreg; lia.
      * intros _. exists t, t'. split; [done|].
        by rewrite app_comm_cons, last_app, Hlast.
Qed.

Lemma flow_layers_raises (g : G2) transform dim permute batch_norm (n : nat)
    kwargs (m j : nat) (e : exn) :
  kwargs !! "name" = None → kwargs !! "dim" = None →
  get_transform2 g transform dim kwargs = Raise e →
  flow_layers2 g transform dim permute batch_norm n kwargs (seq j (S m)) = Raise e.
Proof.
  intros Hname Hdim He. simpl. unfold flow_layer.
  rewrite decide_False by (rewrite Hname, Hdim; by intros [[? ?]|[? ?]]).
  by rewrite He.
Qed.

(** The layers of the loop are the chain that the words of the loop
    describe, with the one transform that [get_transform] builds for the
    working dimension in every layer. *)
Lemma flow_layers_chain (g : G2) transform dim (permute batch_norm : bool)
    (n : nat) kwargs (m j : nat) (fs : list (@Flow Obj)) :
  j + m = n →
  flow_layers2 g transform dim permute batch_norm n kwargs (seq j m) = Ok fs →
  (0 < m → returns (get_transform2 g transform dim kwargs)) ∧
  ∀ t, get_transform2 g transform dim kwargs = Ok t →
       fs = Spec.layers (replicate m t) dim permute batch_norm.
Proof.
  revert j fs. induction m as [|m IH]; intros j fs Hj; simpl.
  - intros [= <-]. split; [lia|done].
  - intros (fs1 & (t & Ht & _ & _ & ->)%flow_layer_Ok
            & (rest & Hrest & [= <-])%bind_Ok)%bind_Ok.
    destruct (IH (S j) rest ltac:(lia) Hrest) as (_ & Hchain).
    split; [intros _; by eexists|].
    intros t' Ht'. assert (t' = t) as -> by congruence.
    rewrite (Hchain t Ht). destruct m as [|m].
    + assert ((j <? n - 1) = false) as -> by (apply Nat.ltb_ge; lia).
      by rewrite !andb_false_r.
    + assert ((j <? n - 1) = true) as -> by (apply Nat.ltb_lt; lia).
      rewrite !andb_true_r. simpl. by destruct permute, batch_norm.
Qed.

(** The flows of each kind in a chain of [m] layers. *)
Lemma layers_counts (ts : list Obj) (dim : Z) (permute batch_norm : bool) :
  length (filter (λ f, is_registered f = true)
                 (Spec.layers ts dim permute batch_norm)) = length ts ∧
  length (filter (λ f, is_permute f = true)
                 (Spec.layers ts dim permute batch_norm))
    = (if permute then length ts - 1 else 0) ∧
  length (filter (λ f, is_batch_norm f = true)
                 (Spec.layers ts dim permute batch_norm))
    = (if batch_norm then length ts - 1 else 0).
Proof.
  induction ts as [|t ts IH].
  - by destruct permute, batch_norm.
  - destruct ts as [|t' ts].
    + by destruct permute, batch_norm.
    + destruct IH as (IH1 & IH2 & IH3).
      change (Spec.layers (t :: t' :: ts) dim permute batch_norm)
        with (Registered t
                :: (if permute then [Permute dim] else [])
                ++ (if batch_norm then [BatchNorm dim] else [])
                ++ Spec.layers (t' :: ts) dim permute batch_norm).
      set (rest := Spec.layers (t' :: ts) dim permute batch_norm) in *.
      simpl length in *.
      destruct permute, batch_norm; simpl app;
        repeat first [rewrite filter_cons_True by done
                     |rewrite filter_cons_False by done];
        simpl length; lia.
Qed.

Lemma build_flow_Ok (g : G2) event_shape link num_flows transform permute
    batch_norm base kwargs d :
  build_flow2 g event_shape link num_flows transform permute batch_norm base kwargs
    = Ok d →
  ∃ l shape dim fs,
    len (link_shape link event_shape) = Ok l ∧
    shape = (λ e, 2 * e - l)%Z <$> event_shape ∧
    last shape = Some dim ∧
    flow_layers2 g transform dim permute batch_norm (Z.to_nat num_flows) kwargs
      (seq 0 (Z.to_nat num_flows)) = Ok fs ∧
    d = {| base_dist := match base with
                        | None => StandardNormal shape
                        | Some b => Given b
                        end;
           transforms := fs ++ [LinkFlow link] |}.
Proof.
  unfold build_flow.
  intros ([[shape b] dim] & Hpre & (fs & Hfs & [= <-])%bind_Ok)%bind_Ok.
  apply base_and_dim_Ok in Hpre as (Hshape & Hdim & -> & _).
  rewrite working_event_shape_formula in Hshape.
  apply bind_Ok in Hshape as (l & Hl & [= <-]).
  exists l, ((λ e, 2 * e - l)%Z <$> event_shape), dim, fs.
  split_and!; try done.
  unfold last_dim in Hdim. by destruct (last _); simplify_eq.
Qed.

End chain_facts.

(** X9.  The chain [build_flow] returns.  With [n = num_flows] (none for
    a count below 1) and [t] the transform that [get_transform] builds for
    the working dimension, the chain is, layer by layer: [t]; then, unless
    the layer is the last, a permutation if [permute] and after it a batch
    normalization if [batch_norm], both for the working dimension; and
    after the last layer the link transform.  So it holds exactly [n]
    registered transforms, [n - 1] permutations if [permute] and none
    otherwise, [n - 1] batch normalizations if [batch_norm] and none
    otherwise, and the link transform, which is always the last flow.  For
    [n >= 1] the chain starts with a registered transform and the flow
    before the link transform is a registered transform too. *)
Theorem X9_chain_is_the_layers_of_the_loop_and_ends_with_the_link
    {Arg Val Obj Dist : Type}
    (filter_kwrags_for_func : @Flows.Cls Arg Val Obj → gmap string Val → gmap string Val)
    (g : @Flows.Globals Arg Val Obj Dist) (event_shape : Flows.Shape)
    (link : Flows.Link) (num_flows : Z) (transform : string)
    (permute batch_norm : bool) (base : option Dist) (kwargs : gmap string Val)
    (d : @Flows.TransformedDistribution Obj Dist) :
  Flows.build_flow filter_kwrags_for_func g event_shape link num_flows transform
    permute batch_norm base kwargs = Ok d →
  let n := Z.to_nat num_flows in
  let chain := Flows.transforms d in
  (∃ shape dim,
     Flows.working_event_shape event_shape link = Ok shape ∧
     Flows.last_dim shape = Ok dim ∧
     (0 < n →
      returns (Flows.get_transform filter_kwrags_for_func g transform dim kwargs)) ∧
     ∀ t, Flows.get_transform filter_kwrags_for_func g transform dim kwargs = Ok t →
          chain = Spec.layers (replicate n t) dim permute batch_norm
                    ++ [Flows.LinkFlow link]) ∧
  last chain = Some (Flows.LinkFlow link) ∧
  length chain
    = n + (if permute then n - 1 else 0) + (if batch_norm then n - 1 else 0) + 1 ∧
  length (filter (λ f, Registry.is_registered f = true) chain) = n ∧
  length (filter (λ f, Registry.is_permute f = true) chain)
    = (if permute then n - 1 else 0) ∧
  length (filter (λ f, Registry.is_batch_norm f = true) chain)
    = (if batch_norm then n - 1 else 0) ∧
  (0 < n →
   ∃ t t', head chain = Some (Flows.Registered t) ∧
           chain !! (length chain - 2) = Some (Flows.Registered t')) ∧
  (n = 0 → chain = [Flows.LinkFlow link]) ∧
  (n = 1 → ∃ t, chain = [Flows.Registered t; Flows.LinkFlow link]).
Proof.
  intros Hd n chain.
  pose proof Hd as Hd'.
  apply build_flow_Ok in Hd as (l & shape & dim & fs & Hl & Hshape & Hdim & Hfs & ->).
  subst chain. simpl. fold n in Hfs. clearbody n.
  destruct (flow_layers_shape filter_kwrags_for_func g transform dim permute
              batch_norm n kwargs n 0 fs eq_refl Hfs) as (Hlen & Hreg & Hends).
  destruct (flow_layers_chain filter_kwrags_for_func g transform dim permute
              batch_norm n kwargs n 0 fs eq_refl Hfs) as (Hret & Hchain).
  assert (length (filter (λ f, Registry.is_permute f = true) fs)
            = (if permute then n - 1 else 0) ∧
          length (filter (λ f, Registry.is_batch_norm f = true) fs)
            = (if batch_norm then n - 1 else 0)) as [Hperm Hbn].
  { destruct n as [|n'].
    - simpl in Hfs. injection Hfs as <-. by destruct permute, batch_norm.
    - destruct Hret as [t Ht]; [lia|]. rewrite (Hchain t Ht).
      destruct (layers_counts (replicate (S n') t) dim permute batch_norm)
        as (_ & H2 & H3).
      rewrite length_replicate in H2, H3. done. }
  split_and!.
  - exists shape, dim. split_and!; [|by unfold Flows.last_dim; rewrite Hdim|done|].
    + by rewrite working_event_shape_formula, Hl, Hshape.
    + intros t Ht. by rewrite (Hchain t Ht).
  - by rewrite last_snoc.
  - rewrite length_app, Hlen. simpl. lia.
  - rewrite filter_app, length_app, Hreg. simpl. lia.
  - rewrite filter_app, length_app, Hperm. simpl. lia.
  - rewrite filter_app, length_app, Hbn. simpl. lia.
  - intros Hn. destruct (Hends Hn) as (t & t' & Hhead & Hlast).
    exists t, t'. split.
    + destruct fs; simplify_eq/=. done.
    + rewrite length_app. simpl.
      replace (length fs + 1 - 2) with (length fs - 1) by lia.
      rewrite last_lookup in Hlast.
      rewrite lookup_app_l; [by rewrite <- Nat.sub_1_r in Hlast|].
      destruct fs; simplify_eq/=. lia.
  - intros Hn. rewrite Hn in Hfs. simpl in Hfs. by injection Hfs as <-.
  - intros Hn. destruct (Hends ltac:(lia)) as (t & _ & Hhead & _).
    exists t. rewrite Hn in Hlen.
    destruct fs as [|f [|f' fs]]; simplify_eq/=; [done|].
    destruct permute, batch_norm; simpl in Hlen; lia.
Qed.

(** X9, witness: three layers with permutations on the registry that
    holds "affine_diag". *)
Lemma X9_witness :
  ∃ d,
    Flows.build_flow ex_filter ex_registry [5%Z] ex_link_longer 3 "affine_diag"
      true false None ∅ = Ok d ∧
    Flows.transforms d
      = [Flows.Registered "AffineTransform"; Flows.Permute 4;
         Flows.Registered "AffineTransform"; Flows.Permute 4;
         Flows.Registered "AffineTransform"; Flows.LinkFlow ex_link_longer] ∧
    length (filter (λ f, Registry.is_permute f = true) (Flows.transforms d)) = 2.
Proof.
  assert (∃ d, Flows.build_flow ex_filter ex_registry [5%Z] ex_link_longer 3
                 "affine_diag" true false None ∅ = Ok d) as [d Hd]
    by (eexists; by vm_compute).
  exists d. split; [exact Hd|].
  destruct (X9_chain_is_the_layers_of_the_loop_and_ends_with_the_link ex_filter
              ex_registry [5%Z] ex_link_longer 3 "affine_diag" true false None ∅
              d Hd) as ((shape & dim & Hshape & Hdim & _ & Hchain) & _ & _ & _ & Hperm & _).
  assert (shape = [4%Z]) as -> by (vm_compute in Hshape; congruence).
  assert (dim = 4%Z) as -> by (vm_compute in Hdim; congruence).
  split; [|exact Hperm].
  rewrite (Hchain "AffineTransform") by (by vm_compute). reflexivity.
Defined.

(** X10.  When [build_flow] raises, and when it does not look the
    transform up.  An empty event shape always raises.  For keyword
    arguments that do not clash with the parameters [name] and [dim] of
    [get_transform], and a working event shape without a negative entry:
    a failure of [get_transform] for the working dimension is the
    failure of [build_flow] when at least one layer is asked for, so an
    unregistered transform name raises the [KeyError] of its lowercased
    name; with [num_flows] below 1 the transform is never looked up and
    the chain is the link transform alone, registered name or not. *)
Theorem X10_build_flow_fails_with_its_first_layer_or_not_at_all
    {Arg Val Obj Dist : Type}
    (filter_kwrags_for_func : @Flows.Cls Arg Val Obj → gmap string Val → gmap string Val)
    (g : @Flows.Globals Arg Val Obj Dist) (link : Flows.Link) (num_flows : Z)
    (transform : string) (permute batch_norm : bool) (base : option Dist)
    (kwargs : gmap string Val) :
  kwargs !! "name" = None → kwargs !! "dim" = None →
  raises (Flows.build_flow filter_kwrags_for_func g [] link num_flows transform
            permute batch_norm base kwargs) ∧
  (∀ event_shape shape dim,
     Flows.working_event_shape event_shape link = Ok shape →
     Forall (λ e, 0 ≤ e)%Z shape →
     Flows.last_dim shape = Ok dim →
     (∀ e, (1 ≤ num_flows)%Z →
           Flows.get_transform filter_kwrags_for_func g transform dim kwargs
             = Raise e →
           Flows.build_flow filter_kwrags_for_func g event_shape link num_flows
             transform permute batch_norm base kwargs = Raise e) ∧
     ((1 ≤ num_flows)%Z →
      Flows._TRANSFORMS g !! lower transform = None →
      Flows.build_flow filter_kwrags_for_func g event_shape link num_flows
        transform permute batch_norm base kwargs
        = Raise (KeyError (lower transform))) ∧
     ((num_flows ≤ 0)%Z →
      Flows.build_flow filter_kwrags_for_func g event_shape link num_flows
        transform permute batch_norm base kwargs
        = Ok {| Flows.base_dist := match base with
                                   | None => Flows.StandardNormal shape
                                   | Some b => Flows.Given b
                                   end;
                Flows.transforms := [Flows.LinkFlow link] |})).
Proof.
  intros Hname Hkdim. split.
  - unfold Flows.build_flow, Flows.base_and_dim, Flows.working_event_shape.
    destruct (Flows.len (Flows.link_shape link [])) as [e|l]; simpl;
      [by eexists|].
    destruct base as [b|]; simpl; by eexists.
  - intros event_shape shape dim Hshape Hnn Hdim.
    assert (∀ e, (1 ≤ num_flows)%Z →
              Flows.get_transform filter_kwrags_for_func g transform dim kwargs
                = Raise e →
              Flows.build_flow filter_kwrags_for_func g event_shape link
                num_flows transform permute batch_norm base kwargs = Raise e)
      as Hfail.
    { intros e Hn He. unfold Flows.build_flow.
      rewrite (base_and_dim_returns event_shape link base shape dim) by done.
      rewrite bind_Ok_l.
      destruct (Z.to_nat num_flows) as [|m] eqn:Hm; [lia|].
      by rewrite (flow_layers_raises filter_kwrags_for_func g transform dim
                    permute batch_norm (S m) kwargs m 0 e Hname Hkdim He). }
    split_and!.
    + exact Hfail.
    + intros Hn Hnone. apply Hfail; [done|]. by apply get_transform_unknown.
    + intros Hn. unfold Flows.build_flow.
      rewrite (base_and_dim_returns event_shape link base shape dim) by done.
      rewrite bind_Ok_l.
      by replace (Z.to_nat num_flows) with 0 by lia.
Qed.

(** X10, witness: a name that is not registered, on the registry that
    holds "affine_diag". *)
Lemma X10_witness :
  Flows.build_flow ex_filter ex_registry [5%Z] ex_link_longer 2 "nope" true false
    None ∅ = Raise (KeyError "nope") ∧
  returns (Flows.build_flow ex_filter ex_registry [5%Z] ex_link_longer 0 "nope"
             true false None ∅).
Proof.
  destruct (X10_build_flow_fails_with_its_first_layer_or_not_at_all ex_filter
              ex_registry ex_link_longer 2 "nope" true false None ∅
              (lookup_empty _) (lookup_empty _)) as [_ H2].
  destruct (H2 [5%Z] [4%Z] 4%Z eq_refl) as (_ & Hkey & _);
    [by repeat constructor|reflexivity|].
  split.
  - apply Hkey; [lia|by vm_compute].
  - eexists. by vm_compute.
Defined.

(** X11.  The working event shape in any number of dimensions.  With [l]
    the length of the link transform's value on [zeros(event_shape)],
    that is its first dimension, every entry [e] of the event shape
    becomes [e - (l - e)], and [build_flow] works in the dimension
    [2 * e - l] of the last entry.  For a link transform that keeps the
    shape, the working shape is the event shape exactly when all its
    entries equal the first one. *)
Theorem X11_every_entry_of_the_event_shape_is_corrected_by_the_first_dimension
    {Arg Val Obj Dist : Type}
    (filter_kwrags_for_func : @Flows.Cls Arg Val Obj → gmap string Val → gmap string Val)
    (g : @Flows.Globals Arg Val Obj Dist) (event_shape : Flows.Shape)
    (link : Flows.Link) (l : Z) :
  Flows.len (Flows.link_shape link event_shape) = Ok l →
  Flows.working_event_shape event_shape link
    = Ok ((λ e, 2 * e - l)%Z <$> event_shape) ∧
  (∀ num_flows transform permute batch_norm kwargs d,
     Flows.build_flow filter_kwrags_for_func g event_shape link num_flows
       transform permute batch_norm None kwargs = Ok d →
     Flows.base_dist d
       = Flows.StandardNormal ((λ e, 2 * e - l)%Z <$> event_shape) ∧
     ∃ e, last event_shape = Some e ∧
          Forall (Flows.built_for filter_kwrags_for_func g transform kwargs
                    (2 * e - l)%Z) (Flows.transforms d)) ∧
  (Flows.link_shape link event_shape = event_shape →
   (Flows.working_event_shape event_shape link = Ok event_shape
      ↔ Forall (λ e, e = l) event_shape)).
Proof.
  intros Hl.
  assert (Flows.working_event_shape event_shape link
          = Ok ((λ e, 2 * e - l)%Z <$> event_shape)) as Hw.
  { by rewrite working_event_shape_formula, Hl. }
  split_and!.
  - done.
  - intros num_flows transform permute batch_norm kwargs d Hd.
    apply build_flow_Ok in Hd as (l' & shape & dim & fs & Hl' & -> & Hdim & Hfs & ->).
    rewrite Hl in Hl'. injection Hl' as <-. simpl. split; [done|].
    rewrite fmap_last in Hdim.
    destruct (last event_shape) as [e|]; [|done]. injection Hdim as <-.
    exists e. split; [done|].
    apply Forall_app_2; [by eapply flow_layers_built|by repeat constructor].
  - intros _. rewrite Hw. split.
    + intros Hok. apply Forall_forall. intros e He.
      apply list_elem_of_lookup in He as [i Hi].
      pose proof (f_equal (λ r, match r with
                                | Ok s => s !! i
                                | Raise _ => None
                                end) Hok) as Heq.
      cbv beta iota in Heq. unfold Flows.Shape in Heq.
      rewrite list_lookup_fmap, Hi in Heq. simpl in Heq. injection Heq. lia.
    + intros Hall. f_equal. rewrite <- (list_fmap_id event_shape) at 2.
      apply list_fmap_ext. intros i e Hi. simpl.
      assert (e = l); [|lia].
      rewrite Forall_forall in Hall. apply Hall. by eapply list_elem_of_lookup_2.
Qed.

(** X11, witness: the event shape [(2, 3)] and a link transform that
    keeps the shape: the working shape is [(2, 4)]. *)
Lemma X11_witness :
  Flows.len (Flows.link_shape {| Flows.link_shape := λ s, s |} [2; 3]%Z) = Ok 2%Z ∧
  Flows.working_event_shape [2; 3]%Z {| Flows.link_shape := λ s, s |}
    = Ok [2; 4]%Z.
Proof.
  assert (Flows.len (Flows.link_shape {| Flows.link_shape := λ s, s |} [2; 3]%Z)
          = Ok 2%Z) as Hl by reflexivity.
  split; [exact Hl|].
  destruct (X11_every_entry_of_the_event_shape_is_corrected_by_the_first_dimension
              ex_filter ex_registry [2; 3]%Z {| Flows.link_shape := λ s, s |} 2 Hl)
    as (Hw & _).
  exact Hw.
Defined.

(** ** The registries that registrations lead to *)

Section reachable_facts.
Import Flows Registry.
Context {Arg Val Obj Dist : Type}.
Variable filter_kwrags_for_func :
  @Cls Arg Val Obj → gmap string Val → gmap string Val.

#[local] Abbreviation G3 := (@Globals Arg Val Obj Dist).
#[local] Abbreviation get_transform3 := (get_transform (Dist := Dist) filter_kwrags_for_func).

Lemma reachable_in_sync (g : G3) :
  reachable g →
  ∀ k, is_Some (_TRANSFORMS g !! k) ↔ is_Some (_TRANSFORMS_INITS g !! k).
Proof.
  induction 1 as [|g g' cls name inits _ IH Hreg|g g' b name _ IH Hreg]; intros k.
  - simpl. by rewrite !lookup_empty.
  - apply register_transform_Ok in Hreg as [_ ->]. simpl.
    destruct (decide (default (__name__ cls) name = k)) as [->|Hne].
    + rewrite !lookup_insert_eq. split; by eexists.
    + rewrite !lookup_insert_ne by done. apply IH.
  - apply register_flow_builder_Ok in Hreg as [_ ->]. simpl. apply IH.
Qed.

Lemma get_transform_cases (g : G3) name dim kwargs :
  (∀ k, is_Some (_TRANSFORMS g !! k) ↔ is_Some (_TRANSFORMS_INITS g !! k)) →
  (_TRANSFORMS g !! lower name = None ∧
   get_transform3 g name dim kwargs = Raise (KeyError (lower name))) ∨
  (∃ cls inits,
     _TRANSFORMS g !! lower name = Some cls ∧
     _TRANSFORMS_INITS g !! lower name = Some inits ∧
     get_transform3 g name dim kwargs =
       inits dim kwargs ≫= λ '(args, default_kwargs),
         __init__ cls args (filter_kwrags_for_func cls kwargs ∪ default_kwargs)).
Proof.
  intros Hsync.
  destruct (_TRANSFORMS g !! lower name) as [cls|] eqn:Hcls.
  - right. destruct (proj1 (Hsync (lower name))) as [inits Hinits].
    { by rewrite Hcls. }
    exists cls, inits. split_and!; [done..|]. by apply get_transform_known.
  - left. split; [done|]. by apply get_transform_unknown.
Qed.

Lemma get_transform_frame (g g' : G3) name dim kwargs :
  _TRANSFORMS g' !! lower name = _TRANSFORMS g !! lower name →
  _TRANSFORMS_INITS g' !! lower name = _TRANSFORMS_INITS g !! lower name →
  get_transform3 g' name dim kwargs = get_transform3 g name dim kwargs.
Proof.
  intros H1 H2. unfold get_transform, getitem, Inits in *. by rewrite H1, H2.
Qed.

End reachable_facts.

(** X12.  In every state of the dictionaries that registrations lead to,
    [_TRANSFORMS] and [_TRANSFORMS_INITS] have the same keys.  So
    [get_transform] either finds no class under the lowercased name and
    raises the [KeyError] of that name, or it finds the class together
    with its [inits] and goes on to call them: the read of
    [_TRANSFORMS_INITS] never fails on its own. *)
Theorem X12_registered_transforms_always_have_their_inits
    {Arg Val Obj Dist : Type}
    (filter_kwrags_for_func : @Flows.Cls Arg Val Obj → gmap string Val → gmap string Val)
    (g : @Flows.Globals Arg Val Obj Dist) :
  Registry.reachable g →
  (∀ k, is_Some (Flows._TRANSFORMS g !! k)
          ↔ is_Some (Flows._TRANSFORMS_INITS g !! k)) ∧
  (∀ name dim kwargs,
     (Flows._TRANSFORMS g !! lower name = None ∧
      Flows.get_transform filter_kwrags_for_func g name dim kwargs
        = Raise (KeyError (lower name))) ∨
     (∃ cls inits,
        Flows._TRANSFORMS g !! lower name = Some cls ∧
        Flows._TRANSFORMS_INITS g !! lower name = Some inits ∧
        Flows.get_transform filter_kwrags_for_func g name dim kwargs =
          inits dim kwargs ≫= λ '(args, default_kwargs),
            Flows.__init__ cls args
              (filter_kwrags_for_func cls kwargs ∪ default_kwargs))).
Proof.
  intros Hreach. pose proof (reachable_in_sync g Hreach) as Hsync.
  split; [done|]. intros name dim kwargs. by apply get_transform_cases.
Qed.

(** X12, witness: the registry after the registration of "affine_diag". *)
Lemma X12_witness :
  Registry.reachable ex_registry ∧
  ∀ k, is_Some (Flows._TRANSFORMS ex_registry !! k)
         ↔ is_Some (Flows._TRANSFORMS_INITS ex_registry !! k).
Proof.
  assert (Registry.reachable ex_registry) as Hreach.
  { apply (Registry.reachable_transform Registry.empty ex_registry
             (ex_cls "AffineTransform") (Some "affine_diag") ex_inits).
    - apply Registry.reachable_empty.
    - reflexivity. }
  split; [exact Hreach|].
  exact (proj1 (X12_registered_transforms_always_have_their_inits ex_filter
                  ex_registry Hreach)).
Defined.

(** X13.  Registration and lookup round trip.  A transform registered
    under a free name [N] without uppercase letters is what
    [get_transform] resolves for [N] in any spelling of its letters' case:
    the registered [inits] are called with the dimension and the keyword
    arguments, and the registered class with what they return.  Every
    name that lowercases to something else resolves as before the
    registration, and registering [N] once more raises a [ValueError]. *)
Theorem X13_a_lowercase_registration_is_found_in_any_spelling
    {Arg Val Obj Dist : Type}
    (filter_kwrags_for_func : @Flows.Cls Arg Val Obj → gmap string Val → gmap string Val)
    (g : @Flows.Globals Arg Val Obj Dist) (cls : Flows.Cls) (N : string)
    (inits : Flows.Inits) :
  has_upper N = false →
  Flows._TRANSFORMS g !! N = None →
  ∃ g',
    Flows.register_transform cls (Some N) inits g = Ok g' ∧
    (∀ name dim kwargs,
       lower name = N →
       Flows.get_transform filter_kwrags_for_func g' name dim kwargs =
         inits dim kwargs ≫= λ '(args, default_kwargs),
           Flows.__init__ cls args
             (filter_kwrags_for_func cls kwargs ∪ default_kwargs)) ∧
    (∀ dim kwargs,
       Flows.get_transform filter_kwrags_for_func g' N dim kwargs =
         inits dim kwargs ≫= λ '(args, default_kwargs),
           Flows.__init__ cls args
             (filter_kwrags_for_func cls kwargs ∪ default_kwargs)) ∧
    (∀ name dim kwargs,
       lower name ≠ N →
       Flows.get_transform filter_kwrags_for_func g' name dim kwargs
         = Flows.get_transform filter_kwrags_for_func g name dim kwargs) ∧
    (∀ cls2 inits2,
       is_ValueError (Flows.register_transform cls2 (Some N) inits2 g')) ∧
    Flows._FLOW_BUILDERS g' = Flows._FLOW_BUILDERS g.
Proof.
  intros Hlow Hfree.
  pose proof (register_transform_free g cls (Some N) inits Hfree) as Hreg.
  simpl in Hreg. eexists. split; [exact Hreg|].
  assert (∀ name dim kwargs,
            lower name = N →
            Flows.get_transform filter_kwrags_for_func
              {| Flows._TRANSFORMS := <[N:=cls]> (Flows._TRANSFORMS g);
                 Flows._TRANSFORMS_INITS := <[N:=inits]> (Flows._TRANSFORMS_INITS g);
                 Flows._FLOW_BUILDERS := Flows._FLOW_BUILDERS g |} name dim kwargs =
              inits dim kwargs ≫= λ '(args, default_kwargs),
                Flows.__init__ cls args
                  (filter_kwrags_for_func cls kwargs ∪ default_kwargs)) as Hget.
  { intros name dim kwargs Hname.
    apply get_transform_known; simpl; rewrite Hname; apply lookup_insert_eq. }
  split_and!.
  - exact Hget.
  - intros dim kwargs. apply Hget. by apply lower_fixes_lowercase.
  - intros name dim kwargs Hne.
    apply get_transform_frame; simpl; by rewrite lookup_insert_ne.
  - intros cls2 inits2. apply register_transform_taken. simpl.
    rewrite lookup_insert_eq. by eexists.
  - done.
Qed.

(** X13, witness: "affine_diag" on the empty registry, asked for in
    capitals. *)
Lemma X13_witness :
  has_upper "affine_diag" = false ∧
  Flows._TRANSFORMS ex_empty !! "affine_diag" = None ∧
  ∃ g',
    Flows.register_transform (ex_cls "AffineTransform") (Some "affine_diag")
      ex_inits ex_empty = Ok g' ∧
    Flows.get_transform ex_filter g' "Affine_Diag" 3 ∅ = Ok "AffineTransform".
Proof.
  assert (has_upper "affine_diag" = false) as Hlow by reflexivity.
  assert (Flows._TRANSFORMS ex_empty !! "affine_diag" = None) as Hfree
    by reflexivity.
  split; [exact Hlow|]. split; [exact Hfree|].
  destruct (X13_a_lowercase_registration_is_found_in_any_spelling ex_filter
              ex_empty (ex_cls "AffineTransform") "affine_diag" ex_inits
              Hlow Hfree) as (g' & Hreg & Hget & _).
  exists g'. split; [exact Hreg|].
  rewrite (Hget "Affine_Diag" 3%Z ∅) by reflexivity. reflexivity.
Defined.

(** X14.  The default [inits] of [register_transform] return the keyword
    arguments they are called with.  For a transform registered with
    them, and a filter that only selects among the keyword arguments,
    [get_transform] calls the class with the dimension as its one
    positional argument and with every keyword argument of the caller,
    also those the filter leaves out. *)
Theorem X14_default_inits_hand_every_keyword_argument_to_the_class
    {Arg Val Obj Dist : Type}
    (filter_kwrags_for_func : @Flows.Cls Arg Val Obj → gmap string Val → gmap string Val)
    (of_dim : Z → Arg)
    (g : @Flows.Globals Arg Val Obj Dist) (cls : Flows.Cls) (name : string)
    (dim : Z) (kwargs : gmap string Val) :
  (∀ c kw, filter_kwrags_for_func c kw ⊆ kw) →
  Flows._TRANSFORMS g !! lower name = Some cls →
  Flows._TRANSFORMS_INITS g !! lower name = Some (Defaults.default_inits of_dim) →
  Flows.get_transform filter_kwrags_for_func g name dim kwargs
    = Flows.__init__ cls [of_dim dim] kwargs.
Proof.
  intros Hsub Hcls Hinits.
  rewrite (get_transform_known filter_kwrags_for_func g name dim kwargs cls
             (Defaults.default_inits of_dim) Hcls Hinits).
  unfold Defaults.default_inits. rewrite bind_Ok_l. f_equal.
  by apply map_subseteq_union.
Qed.

(** X14, witness: a class that answers with the number of keyword
    arguments it is given, behind a filter that drops them all. *)
Lemma X14_witness :
  Flows.get_transform (Dist := ()) (λ _ _, ∅)
    {| Flows._TRANSFORMS :=
         {[ "t" := {| Flows.__name__ := "T";
                      Flows.__init__ := λ (_ : list Z) (kw : gmap string Z),
                                          Ok (size kw) |} ]};
       Flows._TRANSFORMS_INITS := {[ "t" := Defaults.default_inits id ]};
       Flows._FLOW_BUILDERS := ∅ |}
    "T" 3 {[ "a" := 1%Z; "b" := 2%Z ]}
  = Ok 2.
Proof.
  rewrite (X14_default_inits_hand_every_keyword_argument_to_the_class
             (Dist := ()) (λ _ _, ∅) id _
             {| Flows.__name__ := "T";
                Flows.__init__ := λ (_ : list Z) (kw : gmap string Z),
                                    Ok (size kw) |} "T" 3 {[ "a" := 1%Z; "b" := 2%Z ]}).
  - reflexivity.
  - intros c kw. apply map_empty_subseteq.
  - reflexivity.
  - reflexivity.
Defined.

(** ** The potentials on batches *)

Section potential_batch_facts.
Import Torch PotentialFunctionProvider Spec.
Context {F Net Prior : Type}.
Variables (fadd : F → F → F) (fneg : F → F).
Variable classifier_call : Net → list (list F) → list (list F).
Variable prior_log_prob : Prior → list (list F) → list F.
Variable x_of_rows : list (list F) → result (list (list F)).

#[local] Abbreviation log_ratio_plus_prior2 :=
  (log_ratio_plus_prior fadd classifier_call prior_log_prob x_of_rows).

(** Against an observation of one row, a batch of parameters must have
    one row. *)
Lemma log_ratio_plus_prior_mismatch (self : Self) (theta : Tensor) (xv : list F) :
  single_row (x self) xv →
  length (ensure_theta_batched theta) ≠ 1 →
  log_ratio_plus_prior2 self theta
    = Raise (RuntimeError "Sizes of tensors must match except in dimension 1").
Proof.
  intros Hx Hne. unfold log_ratio_plus_prior.
  rewrite (ensure_x_batched_single_row x_of_rows _ _ Hx), bind_Ok_l.
  unfold cat1. by rewrite decide_False.
Qed.

End potential_batch_facts.

(** X15.  The potentials on a batch of parameters, for an observation
    that stands for one row.  With a batch of [n] parameter rows, [n]
    different from 1, both potentials raise the [RuntimeError] of
    [torch.cat]: a batch of several parameters is not paired with the
    single observation, and neither is an empty batch.  A batch of the
    one row [v] is evaluated like [v] unbatched, with one call of the
    classifier on the row [v ++ x].  [pyro_potential] on an empty
    dictionary raises [StopIteration]. *)
Theorem X15_a_batch_of_parameters_is_not_paired_with_the_one_observation
    {F Net Prior : Type} (fadd : F → F → F) (fneg : F → F)
    (classifier_call : Net → list (list F) → list (list F))
    (prior_log_prob : Prior → list (list F) → list F)
    (x_of_rows : list (list F) → result (list (list F)))
    (self : @PotentialFunctionProvider.Self F Net Prior)
    (rows : list (list F)) (xv : list F) (name : string)
    (others : list (string * @PotentialFunctionProvider.Tensor F)) :
  Spec.single_row (PotentialFunctionProvider.x self) xv →
  (length rows ≠ 1 →
   PotentialFunctionProvider.np_potential fadd classifier_call prior_log_prob
       x_of_rows self (PotentialFunctionProvider.T2 rows)
     = Raise (RuntimeError "Sizes of tensors must match except in dimension 1") ∧
   PotentialFunctionProvider.pyro_potential fadd fneg classifier_call
       prior_log_prob x_of_rows self
       ((name, PotentialFunctionProvider.T2 rows) :: others)
     = Raise (RuntimeError "Sizes of tensors must match except in dimension 1")) ∧
  (∀ v : list F,
     rows = [v] →
     PotentialFunctionProvider.np_potential fadd classifier_call prior_log_prob
         x_of_rows self (PotentialFunctionProvider.T2 rows)
       = PotentialFunctionProvider.add_rows fadd
           (classifier_call (PotentialFunctionProvider.classifier self) [v ++ xv])
           (prior_log_prob (PotentialFunctionProvider.prior self) [v]) ∧
     PotentialFunctionProvider.np_potential fadd classifier_call prior_log_prob
         x_of_rows self (PotentialFunctionProvider.T2 rows)
       = PotentialFunctionProvider.np_potential fadd classifier_call
           prior_log_prob x_of_rows self (PotentialFunctionProvider.T1 v)) ∧
  PotentialFunctionProvider.pyro_potential fadd fneg classifier_call
      prior_log_prob x_of_rows self []
    = Raise StopIteration.
Proof.
  intros Hx. split_and!.
  - intros Hne.
    assert (PotentialFunctionProvider.log_ratio_plus_prior fadd classifier_call
              prior_log_prob x_of_rows self (PotentialFunctionProvider.T2 rows)
            = Raise (RuntimeError "Sizes of tensors must match except in dimension 1"))
      as Hraise.
    { by apply (log_ratio_plus_prior_mismatch _ _ _ _ _ _ xv). }
    split.
    + exact Hraise.
    + unfold PotentialFunctionProvider.pyro_potential. simpl. by rewrite Hraise.
  - intros v ->. unfold PotentialFunctionProvider.np_potential.
    rewrite !(log_ratio_plus_prior_single_row _ _ _ _ _ _ v xv);
      [done|by left|done|by right|done].
  - done.
Qed.

(** X15, witness: three parameter rows against an observation of one
    row. *)
Lemma X15_witness :
  Spec.single_row (PotentialFunctionProvider.T2 [[10; 20]%Z]) [10; 20]%Z ∧
  PotentialFunctionProvider.np_potential Z.add ex_classifier_call ex_prior
    ex_x_of_rows
    {| PotentialFunctionProvider.classifier := ();
       PotentialFunctionProvider.prior := ();
       PotentialFunctionProvider.x := PotentialFunctionProvider.T2 [[10; 20]%Z] |}
    (PotentialFunctionProvider.T2 [[1]; [2]; [3]]%Z)
  = Raise (RuntimeError "Sizes of tensors must match except in dimension 1").
Proof.
  assert (Spec.single_row (PotentialFunctionProvider.T2 [[10; 20]%Z]) [10; 20]%Z)
    as Hx by (by right).
  split; [exact Hx|].
  destruct (X15_a_batch_of_parameters_is_not_paired_with_the_one_observation
              Z.add Z.opp ex_classifier_call ex_prior ex_x_of_rows
              {| PotentialFunctionProvider.classifier := ();
                 PotentialFunctionProvider.prior := ();
                 PotentialFunctionProvider.x :=
                   PotentialFunctionProvider.T2 [[10; 20]%Z] |}
              [[1]; [2]; [3]]%Z [10; 20]%Z "theta" [] Hx)
    as (Hne & _).
  apply Hne. simpl. lia.
Defined.

(** ** The loss of SNPE-C on short batches and with masks *)

Section snpe_c_shape_facts.
Import Utils Torch Atoms SNPE_C.
Context {F : Type}.
Variables (fsub fadd fmul : F → F → F).
Variable logsumexp : list F → F.
Variable isfinite : F → bool.
Variable net_log_prob : list (list F) → list (list F) → list F.
Variable prior_log_prob : list (list F) → list F.

#[local] Abbreviation loss2 :=
  (_log_prob_proposal_posterior fsub fadd fmul logsumexp isfinite net_log_prob
     prior_log_prob).

Lemma loss_single_row (self : Self) (theta x masks : list (list F))
    (u : nat → nat → Q) :
  length theta = 1 → raises (loss2 self theta x masks u).
Proof.
  intros H1. unfold _log_prob_proposal_posterior.
  assert (raises (atomic_theta theta (num_atoms self (length theta)) u))
    as [e ->]; [|by eexists].
  by apply atomic_theta_single_row.
Qed.

Lemma loss_ignores_masks (self : Self) (theta x masks masks' : list (list F))
    (u : nat → nat → Q) :
  _use_combined_loss self = false →
  loss2 self theta x masks u = loss2 self theta x masks' u.
Proof. intros Hc. unfold _log_prob_proposal_posterior. by rewrite Hc. Qed.

Lemma elementwise_length {A} (op : A → A → A) (a b c : list A) :
  2 ≤ length b → elementwise op a b = Ok c →
  length c = length b ∧ (length a = length b ∨ length a = 1).
Proof.
  intros Hb. unfold elementwise. case_decide as Heq.
  - intros [= <-]. rewrite length_zip_with. lia.
  - destruct a as [|a0 [|a1 a]].
    + destruct b as [|b0 [|b1 b]]; simpl in *; try lia; done.
    + intros [= <-]. rewrite length_fmap. auto.
    + destruct b as [|b0 [|b1 b]]; simpl in *; try lia; done.
Qed.

End snpe_c_shape_facts.

(** X16.  On a batch of a single row the loss of SNPE-C raises, whatever
    atom count is configured: the count is clamped to 2, and there is no
    second row to contrast the first with. *)
Theorem X16_a_batch_of_one_row_has_no_proposal_posterior
    {F : Type} (fsub fadd fmul : F → F → F) (logsumexp : list F → F)
    (isfinite : F → bool)
    (net_log_prob : list (list F) → list (list F) → list F)
    (prior_log_prob : list (list F) → list F)
    (self : SNPE_C.Self) (theta x masks : list (list F)) (u : nat → nat → Q) :
  length theta = 1 →
  SNPE_C.num_atoms self (length theta) = 2%Z ∧
  raises (Atoms.atomic_theta theta (SNPE_C.num_atoms self (length theta)) u) ∧
  raises (SNPE_C._log_prob_proposal_posterior fsub fadd fmul logsumexp isfinite
            net_log_prob prior_log_prob self theta x masks u).
Proof.
  intros H1.
  assert (SNPE_C.num_atoms self (length theta) = 2%Z) as HK.
  { rewrite H1. unfold SNPE_C.num_atoms, Utils.clamp_and_warn. simpl. lia. }
  split_and!.
  - done.
  - by apply atomic_theta_single_row.
  - by apply loss_single_row.
Qed.

(** X16, witness: one row, ten atoms configured. *)
Lemma X16_witness :
  raises (SNPE_C._log_prob_proposal_posterior (ex_lift Z.sub) (ex_lift Z.add)
            (ex_lift Z.mul) ex_logsumexp ex_isfinite ex_net_log_prob
            ex_prior_log_prob ex_snpe_c [[Some 1%Z]] [[Some 7%Z]] [[Some 1%Z]]
            (λ _ _, 0%Q)).
Proof.
  apply (X16_a_batch_of_one_row_has_no_proposal_posterior (ex_lift Z.sub)
           (ex_lift Z.add) (ex_lift Z.mul) ex_logsumexp ex_isfinite
           ex_net_log_prob ex_prior_log_prob ex_snpe_c [[Some 1%Z]] [[Some 7%Z]]
           [[Some 1%Z]] (λ _ _, 0%Q) eq_refl).
Defined.

(** X17.  The shape of the loss of SNPE-C on a batch of [B >= 2] rows,
    for a model and a prior that return one value per row.  A returned
    loss has one entry per example.  With the combined loss the
    calibration-kernel values must be [B] in number or a single one, which
    is then used for every example; with any other number of them the
    loss does not return.  Without the combined loss the values are not
    read at all. *)
Theorem X17_loss_has_one_entry_per_example_and_reads_masks_only_when_combined
    {F : Type} (fsub fadd fmul : F → F → F) (logsumexp : list F → F)
    (isfinite : F → bool)
    (net_log_prob : list (list F) → list (list F) → list F)
    (prior_log_prob : list (list F) → list F)
    (self : SNPE_C.Self) (theta x masks : list (list F)) (u : nat → nat → Q)
    (B : nat) :
  length theta = B → 2 ≤ B →
  (∀ a b, length (net_log_prob a b) = length a) →
  (∀ a, length (prior_log_prob a) = length a) →
  (∀ res,
     SNPE_C._log_prob_proposal_posterior fsub fadd fmul logsumexp isfinite
       net_log_prob prior_log_prob self theta x masks u = Ok res →
     length res = B ∧
     (SNPE_C._use_combined_loss self = true →
      length (mjoin masks) = B ∨ length (mjoin masks) = 1)) ∧
  (SNPE_C._use_combined_loss self = false →
   ∀ masks',
     SNPE_C._log_prob_proposal_posterior fsub fadd fmul logsumexp isfinite
       net_log_prob prior_log_prob self theta x masks' u
     = SNPE_C._log_prob_proposal_posterior fsub fadd fmul logsumexp isfinite
         net_log_prob prior_log_prob self theta x masks u).
Proof.
  intros HlenB HB Hnet Hprior. split.
  - intros res Hres.
    destruct (loss_eval fsub fadd fmul logsumexp isfinite net_log_prob
                prior_log_prob self theta x masks u B HlenB HB Hnet Hprior)
      as (atoms & P & _ & _ & [HlenP _] & Heval).
    rewrite Heval in Hres.
    repeat (destruct (forallb isfinite _); [|discriminate]).
    destruct (SNPE_C._use_combined_loss self).
    + apply bind_Ok in Hres as (weighted & Hw & Hsum).
      apply elementwise_length in Hw as [Hlw Hm]; [|rewrite Hnet; lia].
      rewrite Hnet, HlenB in Hlw, Hm.
      apply elementwise_length in Hsum as [Hlr _]; [|lia].
      split; [lia|]. by intros _.
    + injection Hres as <-. split; [done|]. by intros [=].
  - intros Hc masks'. by apply loss_ignores_masks.
Qed.

(** X17, witness: the three-row batch with the combined loss. *)
Lemma X17_witness :
  ∃ res,
    SNPE_C._log_prob_proposal_posterior (ex_lift Z.sub) (ex_lift Z.add)
      (ex_lift Z.mul) ex_logsumexp ex_isfinite ex_net_log_prob
      ex_prior_log_prob ex_snpe_c ex_theta ex_x ex_masks (λ _ _, 0%Q) = Ok res ∧
    length res = 3.
Proof.
  assert (∃ res, SNPE_C._log_prob_proposal_posterior (ex_lift Z.sub)
                   (ex_lift Z.add) (ex_lift Z.mul) ex_logsumexp ex_isfinite
                   ex_net_log_prob ex_prior_log_prob ex_snpe_c ex_theta ex_x
                   ex_masks (λ _ _, 0%Q) = Ok res) as [res Hres]
    by (eexists; by vm_compute).
  exists res. split; [exact Hres|].
  assert (2 ≤ 3) as HB by lia.
  assert (∀ a b, length (ex_net_log_prob a b) = length a) as Hnet
    by (intros a b; apply length_fmap).
  assert (∀ a, length (ex_prior_log_prob a) = length a) as Hprior
    by (intros a; apply length_fmap).
  destruct (X17_loss_has_one_entry_per_example_and_reads_masks_only_when_combined
              (ex_lift Z.sub) (ex_lift Z.add) (ex_lift Z.mul) ex_logsumexp
              ex_isfinite ex_net_log_prob ex_prior_log_prob ex_snpe_c ex_theta
              ex_x ex_masks (λ _ _, 0%Q) 3 eq_refl HB Hnet Hprior) as [Hlen _].
  exact (proj1 (Hlen res Hres)).
Defined.

(** ** The choice of the potential function *)

(** X21.  [PotentialFunctionProvider.__call__] stores the prior, the
    classifier and the observation it is given, and returns the pyro
    potential exactly for the method names "slice", "hmc" and "nuts", in
    this spelling; for every other name, "slice_np" and any name with an
    uppercase letter among them, it returns the numpy potential.  On the
    same parameter the potential returned for one of the three names is
    the negation of the one returned for any other name. *)
Theorem X21_pyro_potential_is_chosen_by_exact_name_and_negates_the_numpy_one
    {F Net Prior : Type} (fadd : F → F → F) (fneg : F → F)
    (classifier_call : Net → list (list F) → list (list F))
    (prior_log_prob : Prior → list (list F) → list F)
    (x_of_rows : list (list F) → result (list (list F)))
    (prior : Prior) (classifier : Net)
    (x : @PotentialFunctionProvider.Tensor F) :
  (∀ m,
     (PotentialFunctionProvider.__call__ prior classifier x m).1
       = {| PotentialFunctionProvider.classifier := classifier;
            PotentialFunctionProvider.prior := prior;
            PotentialFunctionProvider.x := x |}) ∧
  (∀ m,
     (PotentialFunctionProvider.__call__ prior classifier x m).2
       = PotentialFunctionProvider.pyro_potential_of
     ↔ m = "slice" ∨ m = "hmc" ∨ m = "nuts") ∧
  (∀ m,
     has_upper m = true →
     (PotentialFunctionProvider.__call__ prior classifier x m).2
       = PotentialFunctionProvider.np_potential_of) ∧
  (PotentialFunctionProvider.__call__ prior classifier x "slice_np").2
    = PotentialFunctionProvider.np_potential_of ∧
  (∀ m m' site theta,
     m ∈ ["slice"; "hmc"; "nuts"] → m' ∉ ["slice"; "hmc"; "nuts"] →
     Sampler.evaluate fadd fneg classifier_call prior_log_prob x_of_rows
         (PotentialFunctionProvider.__call__ prior classifier x m) site theta
       = PotentialFunctionProvider.neg fneg <$>
           Sampler.evaluate fadd fneg classifier_call prior_log_prob x_of_rows
             (PotentialFunctionProvider.__call__ prior classifier x m') site theta).
Proof.
  assert (∀ m, (PotentialFunctionProvider.__call__ prior classifier x m).2
               = PotentialFunctionProvider.pyro_potential_of
               ↔ m ∈ ["slice"; "hmc"; "nuts"]) as Hiff.
  { intros m. unfold PotentialFunctionProvider.__call__.
    case_decide; simpl; split; try done. }
  split_and!.
  - intros m. unfold PotentialFunctionProvider.__call__. by case_decide.
  - intros m. rewrite Hiff, !elem_of_cons, elem_of_nil. tauto.
  - intros m Hup.
    destruct (PotentialFunctionProvider.__call__ prior classifier x m).2 eqn:E;
      [|done].
    apply Hiff in E. rewrite !elem_of_cons, elem_of_nil in E.
    destruct E as [->|[->|[->|[]]]]; discriminate Hup.
  - unfold PotentialFunctionProvider.__call__. rewrite decide_False; [done|].
    rewrite !elem_of_cons, elem_of_nil. by intros [?|[?|[?|[]]]].
  - intros m m' site theta Hm Hm'. unfold Sampler.evaluate.
    apply Hiff in Hm. rewrite Hm.
    destruct (PotentialFunctionProvider.__call__ prior classifier x m').2 eqn:E.
    { apply Hiff in E. done. }
    assert ((PotentialFunctionProvider.__call__ prior classifier x m).1
            = (PotentialFunctionProvider.__call__ prior classifier x m').1) as ->.
    { unfold PotentialFunctionProvider.__call__. by repeat case_decide. }
    unfold PotentialFunctionProvider.pyro_potential,
      PotentialFunctionProvider.np_potential. simpl.
    by destruct (PotentialFunctionProvider.log_ratio_plus_prior _ _ _ _ _ _).
Qed.

(** ** The registrations of the module *)

Section builtin_facts.
Import Flows Registry Builtins.
Context {Arg Val Obj Dist : Type}.
Variable filter_kwrags_for_func :
  @Cls Arg Val Obj → gmap string Val → gmap string Val.
Variables AffineAutoregressive SplineAutoregressive AffineCoupling
  SplineCoupling AffineTransform LowerCholeskyAffine : @Cls Arg Val Obj.
Variables zeros ones eye : Z → Val.
Variable py_False : Val.
Variables init_affine_autoregressive init_spline_autoregressive
  : @Inits Arg Val.
Variables affine_coupling_args spline_coupling_args : @Inits Arg Val.
Variable int_of : Val → result Z.
Variable truth : Val → bool.
Variable base_of : Val → option Dist.

#[local] Abbreviation G4 := (@Globals Arg Val Obj Dist).
#[local] Abbreviation register_transforms' :=
  (register_transforms (Dist := Dist) AffineAutoregressive SplineAutoregressive
     AffineCoupling SplineCoupling AffineTransform LowerCholeskyAffine zeros ones
     eye init_affine_autoregressive init_spline_autoregressive
     affine_coupling_args spline_coupling_args).
#[local] Abbreviation register_flow_builders' :=
  (register_flow_builders (Arg := Arg) filter_kwrags_for_func py_False int_of
     truth base_of).
#[local] Abbreviation module' :=
  (module filter_kwrags_for_func AffineAutoregressive SplineAutoregressive
     AffineCoupling SplineCoupling AffineTransform LowerCholeskyAffine zeros ones
     eye py_False init_affine_autoregressive init_spline_autoregressive
     affine_coupling_args spline_coupling_args int_of truth base_of).
#[local] Abbreviation call_build_flow' :=
  (call_build_flow (Arg := Arg) filter_kwrags_for_func int_of truth base_of).
#[local] Abbreviation builder' fn_name fn :=
  (builder (Arg := Arg) (Val := Val) (Obj := Obj) (Dist := Dist) fn_name fn).

(** The dictionaries after the six transform registrations. *)
#[local] Abbreviation transforms_after g :=
  (<["affine_tril" := LowerCholeskyAffine]>
     (<["affine_diag" := AffineTransform]>
        (<["spline_coupling" := SplineCoupling]>
           (<["affine_coupling" := AffineCoupling]>
              (<["spline_autoregressive" := SplineAutoregressive]>
                 (<["affine_autoregressive" := AffineAutoregressive]>
                    (_TRANSFORMS g))))))).
#[local] Abbreviation inits_after g :=
  (<["affine_tril" := init_affine_tril zeros eye]>
     (<["affine_diag" := init_affine_diag zeros ones]>
        (<["spline_coupling" := init_spline_coupling spline_coupling_args]>
           (<["affine_coupling" := init_affine_coupling affine_coupling_args]>
              (<["spline_autoregressive" := init_spline_autoregressive]>
                 (<["affine_autoregressive" := init_affine_autoregressive]>
                    (_TRANSFORMS_INITS g))))))).
#[local] Abbreviation builders_after t g :=
  (<["scf" := builder' "spline_coupling_flow_builder"
                (spline_coupling_flow_builder filter_kwrags_for_func int_of truth base_of) t]>
     (<["mcf" := builder' "coupling_flow_builder"
                   (coupling_flow_builder filter_kwrags_for_func int_of truth base_of) t]>
        (<["nsf" := builder' "spline_autoregressive_flow_builder"
                      (spline_autoregressive_flow_builder filter_kwrags_for_func
                         int_of truth base_of) t]>
           (<["maf" := builder' "masked_autoregressive_flow_builder"
                         (masked_autoregressive_flow_builder filter_kwrags_for_func
                            int_of truth base_of) t]>
              (<["gaussian" := builder' "gaussian_flow_builder"
                                 (gaussian_flow_builder filter_kwrags_for_func
                                    py_False int_of truth base_of) t]>
                 (<["gaussian_diag" := builder' "gaussian_diag_flow_builder"
                                         (gaussian_diag_flow_builder
                                            filter_kwrags_for_func py_False int_of
                                            truth base_of) t]>
                    (_FLOW_BUILDERS g))))))).

Lemma register_flow_builder_free (g : G4) b name :
  _FLOW_BUILDERS g !! default (builder_name b) name = None →
  register_flow_builder b name g =
    Ok {| _TRANSFORMS := _TRANSFORMS g;
          _TRANSFORMS_INITS := _TRANSFORMS_INITS g;
          _FLOW_BUILDERS := <[default (builder_name b) name := b]> (_FLOW_BUILDERS g) |}.
Proof.
  intros Hout. unfold register_flow_builder.
  destruct name as [n|]; simpl in *; rewrite decide_False; try done;
    rewrite Hout; by intros [? ?].
Qed.

Lemma register_transforms_free (g : G4) :
  (∀ k, k ∈ transform_names → _TRANSFORMS g !! k = None) →
  register_transforms' g
    = Ok {| _TRANSFORMS := transforms_after g;
            _TRANSFORMS_INITS := inits_after g;
            _FLOW_BUILDERS := _FLOW_BUILDERS g |}.
Proof.
  intros Hfree. unfold register_transforms.
  repeat (rewrite register_transform_free;
          [rewrite ?bind_Ok_l; simpl
          |simpl; rewrite ?lookup_insert_ne by done; apply Hfree;
           unfold transform_names;
           repeat first [apply list_elem_of_here|apply list_elem_of_further]]).
  done.
Qed.

Lemma register_flow_builders_free (t g : G4) :
  (∀ k, k ∈ flow_names → _FLOW_BUILDERS g !! k = None) →
  register_flow_builders' t g
    = Ok {| _TRANSFORMS := _TRANSFORMS g;
            _TRANSFORMS_INITS := _TRANSFORMS_INITS g;
            _FLOW_BUILDERS := builders_after t g |}.
Proof.
  intros Hfree. unfold register_flow_builders.
  repeat (rewrite register_flow_builder_free;
          [rewrite ?bind_Ok_l; simpl
          |simpl; rewrite ?lookup_insert_ne by done; apply Hfree;
           unfold flow_names;
           repeat first [apply list_elem_of_here|apply list_elem_of_further]]).
  done.
Qed.


Lemma register_transforms_reachable (g g' : G4) :
  reachable g → register_transforms' g = Ok g' → reachable g'.
Proof.
  intros Hreach. unfold register_transforms.
  intros (g1 & H1 & (g2 & H2 & (g3 & H3 & (g4 & H4 & (g5 & H5 & H6)%bind_Ok
    )%bind_Ok)%bind_Ok)%bind_Ok)%bind_Ok.
  repeat (eapply reachable_transform; [|eassumption]). done.
Qed.

Lemma register_flow_builders_reachable (t g g' : G4) :
  reachable g → register_flow_builders' t g = Ok g' → reachable g'.
Proof.
  intros Hreach. unfold register_flow_builders.
  intros (g1 & H1 & (g2 & H2 & (g3 & H3 & (g4 & H4 & (g5 & H5 & H6)%bind_Ok
    )%bind_Ok)%bind_Ok)%bind_Ok)%bind_Ok.
  repeat (eapply reachable_flow_builder; [|eassumption]). done.
Qed.

(** The state the module leaves when it is executed on the empty
    dictionaries. *)
#[local] Abbreviation loaded_transforms :=
  ({| _TRANSFORMS := transforms_after (@empty Arg Val Obj Dist);
      _TRANSFORMS_INITS := inits_after (@empty Arg Val Obj Dist);
      _FLOW_BUILDERS := ∅ |}).
#[local] Abbreviation loaded :=
  ({| _TRANSFORMS := transforms_after (@empty Arg Val Obj Dist);
      _TRANSFORMS_INITS := inits_after (@empty Arg Val Obj Dist);
      _FLOW_BUILDERS := builders_after loaded_transforms (@empty Arg Val Obj Dist) |}).

Lemma module_empty : module' empty = Ok loaded.
Proof.
  unfold module. rewrite register_transforms_free; [|by intros k _].
  rewrite bind_Ok_l. by rewrite register_flow_builders_free; [|by intros k _].
Qed.

Lemma module_loaded (g0 : G4) : module' empty = Ok g0 → g0 = loaded.
Proof. rewrite module_empty. by intros [= <-]. Qed.

Lemma loaded_transform_keys (k : string) :
  is_Some (_TRANSFORMS loaded !! k) ↔ k ∈ transform_names.
Proof.
  simpl. rewrite !lookup_insert_is_Some, lookup_empty.
  unfold transform_names. rewrite !elem_of_cons, elem_of_nil.
  split.
  - intros H.
    repeat (destruct H as [<-|[_ H]];
            [repeat first [left; reflexivity|right]|]).
    by destruct H.
  - intros H.
    repeat (destruct H as [->|H];
            [repeat first [left; reflexivity|right; split; [done|]]|]).
    done.
Qed.

Lemma loaded_inits_keys (k : string) :
  is_Some (_TRANSFORMS_INITS loaded !! k) ↔ k ∈ transform_names.
Proof.
  simpl. rewrite !lookup_insert_is_Some, lookup_empty.
  unfold transform_names. rewrite !elem_of_cons, elem_of_nil.
  split.
  - intros H.
    repeat (destruct H as [<-|[_ H]];
            [repeat first [left; reflexivity|right]|]).
    by destruct H.
  - intros H.
    repeat (destruct H as [->|H];
            [repeat first [left; reflexivity|right; split; [done|]]|]).
    done.
Qed.

Lemma loaded_flow_keys (k : string) :
  is_Some (_FLOW_BUILDERS loaded !! k) ↔ k ∈ flow_names.
Proof.
  simpl. rewrite !lookup_insert_is_Some, lookup_empty.
  unfold flow_names. rewrite !elem_of_cons, elem_of_nil.
  split.
  - intros H.
    repeat (destruct H as [<-|[_ H]];
            [repeat first [left; reflexivity|right]|]).
    by destruct H.
  - intros H.
    repeat (destruct H as [->|H];
            [repeat first [left; reflexivity|right; split; [done|]]|]).
    done.
Qed.

(** X18.  Executed on the empty dictionaries, the module's registrations
    all succeed.  They leave six transforms, each with its [inits],
    under the names "affine_autoregressive", "spline_autoregressive",
    "affine_coupling", "spline_coupling", "affine_diag" and "affine_tril",
    and six flow builders under "gaussian_diag", "gaussian", "maf", "nsf",
    "mcf" and "scf".  [get_transform] raises a [KeyError] exactly for the
    names whose lowercase is none of the six, so each transform is found
    in any spelling of its letters' case, while [get_flow_builder] finds
    a builder only under its exact name.  Executing the registrations a
    second time raises a [ValueError]. *)
Theorem X18_module_registers_six_transforms_and_six_flow_builders :
  ∃ g0 : G4,
    module' empty = Ok g0 ∧
    reachable g0 ∧
    (∀ k, is_Some (_TRANSFORMS g0 !! k) ↔ k ∈ transform_names) ∧
    (∀ k, is_Some (_TRANSFORMS_INITS g0 !! k) ↔ k ∈ transform_names) ∧
    (∀ k, is_Some (_FLOW_BUILDERS g0 !! k) ↔ k ∈ flow_names) ∧
    (_TRANSFORMS g0 !! "affine_autoregressive" = Some AffineAutoregressive ∧
     _TRANSFORMS g0 !! "spline_autoregressive" = Some SplineAutoregressive ∧
     _TRANSFORMS g0 !! "affine_coupling" = Some AffineCoupling ∧
     _TRANSFORMS g0 !! "spline_coupling" = Some SplineCoupling ∧
     _TRANSFORMS g0 !! "affine_diag" = Some AffineTransform ∧
     _TRANSFORMS g0 !! "affine_tril" = Some LowerCholeskyAffine) ∧
    (∀ name dim kwargs,
       is_KeyError (get_transform filter_kwrags_for_func g0 name dim kwargs)
       ∧ _TRANSFORMS g0 !! lower name = None
       ↔ lower name ∉ transform_names) ∧
    (∀ name event_shape link_flow kwargs,
       name ∉ flow_names →
       get_flow_builder g0 name event_shape link_flow kwargs
         = Raise (KeyError name)) ∧
    is_ValueError (module' g0).
Proof.
  exists loaded. split_and!.
  - apply module_empty.
  - pose proof module_empty as Hm. unfold module in Hm.
    apply bind_Ok in Hm as (g1 & H1 & H2).
    eapply register_flow_builders_reachable; [|exact H2].
    eapply register_transforms_reachable; [|exact H1]. constructor.
  - apply loaded_transform_keys.
  - apply loaded_inits_keys.
  - apply loaded_flow_keys.
  - done.
  - done.
  - done.
  - done.
  - done.
  - done.
  - intros name dim kwargs. rewrite <- loaded_transform_keys. split.
    + intros [_ Hnone]. rewrite Hnone. by intros [? ?].
    + intros Hnone. apply eq_None_not_Some in Hnone. split; [|done].
      rewrite get_transform_unknown by done. by eexists.
  - intros name event_shape link_flow kwargs Hname.
    apply get_flow_builder_unknown. apply eq_None_not_Some.
    by rewrite loaded_flow_keys.
  - unfold module, register_transforms.
    destruct (register_transform_taken loaded AffineAutoregressive
                (Some "affine_autoregressive") init_affine_autoregressive)
      as [msg ->]; [by eexists|].
    by eexists.
Qed.


(** ** The flow builders *)

#[local] Abbreviation construct cls inits dim kw :=
  (inits dim kw ≫= λ '(args, default_kwargs),
     __init__ cls args (filter_kwrags_for_func cls kw ∪ default_kwargs)).

(** A call of [build_flow] with [num_flows=1]: one layer and the link
    transform. *)
Lemma call_build_flow_one (g : G4) (n L : Z) (link : Link) (transform : string)
    (kw : gmap string Val) cls inits :
  kw !! "transform" = None → kw !! "num_flows" = None →
  rest_of kw !! "name" = None → rest_of kw !! "dim" = None →
  len (link_shape link [n]) = Ok L → (0 ≤ n - (L - n))%Z →
  _TRANSFORMS g !! lower transform = Some cls →
  _TRANSFORMS_INITS g !! lower transform = Some inits →
  call_build_flow' g [n] link (Some 1%Z) transform kw
    = construct cls inits (n - (L - n))%Z (rest_of kw) ≫= λ t,
        Ok {| base_dist := match kw !! "base_dist" ≫= base_of with
                           | None => StandardNormal [n - (L - n)]%Z
                           | Some b => Given b
                           end;
              transforms := [Registered t; LinkFlow link] |}.
Proof.
  intros Htr Hnf Hname Hdim HL Hnn Hcls Hinits. unfold call_build_flow.
  rewrite decide_False by (rewrite Htr, Hnf; by intros [[? ?]|[_ [? ?]]]).
  cbv zeta.
  unfold build_flow.
  rewrite (base_and_dim_returns [n] link _ [n - (L - n)]%Z (n - (L - n))%Z);
    [|by apply working_event_shape_1d|by repeat constructor|done].
  rewrite bind_Ok_l.
  change (Z.to_nat 1) with 1. simpl. unfold flow_layer.
  rewrite decide_False by (rewrite Hname, Hdim; by intros [[? ?]|[? ?]]).
  rewrite (get_transform_known filter_kwrags_for_func g transform _ _ cls inits
             Hcls Hinits).
  destruct (construct cls inits (n - (L - n))%Z (rest_of kw)) as [e|t];
    simpl; [done|].
  by rewrite !andb_false_r.
Qed.

(** A call of [build_flow] whose first layer cannot be built. *)
Lemma call_build_flow_first_layer_fails (g : G4) (n L m : Z) (link : Link)
    (transform : string) (kw : gmap string Val) (e : exn) :
  kw !! "transform" = None →
  rest_of kw !! "name" = None → rest_of kw !! "dim" = None →
  default (Ok 5%Z) (int_of <$> kw !! "num_flows") = Ok m → (1 ≤ m)%Z →
  len (link_shape link [n]) = Ok L → (0 ≤ n - (L - n))%Z →
  get_transform filter_kwrags_for_func g transform (n - (L - n))%Z (rest_of kw)
    = Raise e →
  call_build_flow' g [n] link None transform kw = Raise e.
Proof.
  intros Htr Hname Hdim Hcount Hm HL Hnn He. unfold call_build_flow.
  rewrite decide_False by (rewrite Htr; by intros [[? ?]|[[? ?] _]]).
  cbv zeta. rewrite Hcount.
  unfold build_flow.
  rewrite (base_and_dim_returns [n] link _ [n - (L - n)]%Z (n - (L - n))%Z);
    [|by apply working_event_shape_1d|by repeat constructor|done].
  rewrite bind_Ok_l.
  destruct (Z.to_nat m) as [|m'] eqn:Em; [lia|].
  by rewrite (flow_layers_raises filter_kwrags_for_func g transform _ _ _ (S m')
                _ m' 0 e Hname Hdim He).
Qed.

(** The keyword arguments that a Gaussian builder hands on to
    [get_transform]. *)
#[local] Abbreviation gaussian_kwargs kwargs :=
  (rest_of (<["shuffle" := py_False]>
              (delete "num_flows" (delete "base_dist" (delete "transform" kwargs))))).

Lemma gaussian_kwargs_insert (kwargs : gmap string Val) (k : string) (v : Val) :
  k ∈ ["transform"; "base_dist"; "num_flows"; "permute"; "batch_norm"] →
  gaussian_kwargs (<[k := v]> kwargs) = gaussian_kwargs kwargs.
Proof.
  intros Hk. unfold rest_of. apply map_eq. intros i.
  repeat (apply elem_of_cons in Hk as [->|Hk]);
    [..|by apply elem_of_nil in Hk];
    repeat (match goal with
            | |- context [delete ?j _ !! i] =>
                destruct (decide (j = i)) as [<-|?];
                [rewrite !lookup_delete_eq|rewrite !(lookup_delete_ne _ j i) by done]
            | |- context [<[?j := _]> _ !! i] =>
                destruct (decide (j = i)) as [<-|?];
                [rewrite !lookup_insert_eq|rewrite !(lookup_insert_ne _ j i) by done]
            end; try done).
Qed.


Ltac lookup_simpl :=
  repeat first [rewrite lookup_insert_eq | rewrite lookup_delete_eq
               |rewrite lookup_insert_ne by done
               |rewrite lookup_delete_ne by done].

Lemma gaussian_builder_call (g : G4) (n L : Z) (link : Link) (transform : string)
    (kwargs : gmap string Val) cls inits :
  kwargs !! "shuffle" = None → kwargs !! "name" = None → kwargs !! "dim" = None →
  len (link_shape link [n]) = Ok L → (0 ≤ n - (L - n))%Z →
  _TRANSFORMS g !! lower transform = Some cls →
  _TRANSFORMS_INITS g !! lower transform = Some inits →
  (if decide (is_Some (delete "num_flows"
                 (delete "base_dist" (delete "transform" kwargs)) !! "shuffle"))
   then Raise TypeError
   else call_build_flow' g [n] link (Some 1%Z) transform
          (<["shuffle" := py_False]>
             (delete "num_flows" (delete "base_dist" (delete "transform" kwargs)))))
    = construct cls inits (n - (L - n))%Z (gaussian_kwargs kwargs) ≫= λ t,
        Ok {| base_dist := StandardNormal [n - (L - n)]%Z;
              transforms := [Registered t; LinkFlow link] |}.
Proof.
  intros Hsh Hname Hdim HL Hnn Hcls Hinits.
  rewrite decide_False by (lookup_simpl; rewrite Hsh; by intros [? ?]).
  rewrite (call_build_flow_one g n L link transform _ cls inits); try done.
  - by lookup_simpl.
  - by lookup_simpl.
  - by lookup_simpl.
  - unfold rest_of. by lookup_simpl.
  - unfold rest_of. by lookup_simpl.
Qed.

(** X19.  The two Gaussian builders of the module.  On an event shape
    [(n,)] with a working dimension [dim = n - (L - n) >= 0], and for
    keyword arguments without the keys "shuffle", "name" and "dim",
    "gaussian_diag" returns the standard normal of dimension [dim]
    followed by one [AffineTransform] and the link transform, and
    "gaussian" the same with one [LowerCholeskyAffine]; the transform is
    built without positional arguments, with location zero and unit scale
    unless the filter lets a keyword argument of the caller replace them.
    The caller's [transform], [base_dist], [num_flows], [permute] and
    [batch_norm] have no effect, and a keyword [shuffle] is a
    [TypeError]. *)
Theorem X19_gaussian_builders_build_one_affine_layer_on_a_standard_normal
    (g0 : G4) (n L : Z) (link : Link) (kwargs : gmap string Val) :
  module' empty = Ok g0 →
  len (link_shape link [n]) = Ok L → (0 ≤ n - (L - n))%Z →
  kwargs !! "shuffle" = None → kwargs !! "name" = None → kwargs !! "dim" = None →
  get_flow_builder g0 "gaussian_diag" [n] link kwargs
    = (__init__ AffineTransform []
         (filter_kwrags_for_func AffineTransform (gaussian_kwargs kwargs)
            ∪ {[ "loc" := zeros (n - (L - n))%Z; "scale" := ones (n - (L - n))%Z ]})
         ≫= λ t, Ok {| base_dist := StandardNormal [n - (L - n)]%Z;
                       transforms := [Registered t; LinkFlow link] |}) ∧
  get_flow_builder g0 "gaussian" [n] link kwargs
    = (__init__ LowerCholeskyAffine []
         (filter_kwrags_for_func LowerCholeskyAffine (gaussian_kwargs kwargs)
            ∪ {[ "loc" := zeros (n - (L - n))%Z;
                 "scale_tril" := eye (n - (L - n))%Z ]})
         ≫= λ t, Ok {| base_dist := StandardNormal [n - (L - n)]%Z;
                       transforms := [Registered t; LinkFlow link] |}) ∧
  (∀ k v name,
     k ∈ ["transform"; "base_dist"; "num_flows"; "permute"; "batch_norm"] →
     name ∈ ["gaussian_diag"; "gaussian"] →
     get_flow_builder g0 name [n] link (<[k := v]> kwargs)
       = get_flow_builder g0 name [n] link kwargs) ∧
  (∀ v name,
     name ∈ ["gaussian_diag"; "gaussian"] →
     get_flow_builder g0 name [n] link (<["shuffle" := v]> kwargs)
       = Raise TypeError).
Proof.
  intros Hmod HL Hdim0 Hsh Hname Hdim.
  rewrite (module_loaded g0 Hmod). clear Hmod.
  assert (∀ kw, kw !! "shuffle" = None → kw !! "name" = None →
                kw !! "dim" = None →
            get_flow_builder loaded "gaussian_diag" [n] link kw
              = (__init__ AffineTransform []
                   (filter_kwrags_for_func AffineTransform (gaussian_kwargs kw)
                      ∪ {[ "loc" := zeros (n - (L - n))%Z;
                           "scale" := ones (n - (L - n))%Z ]})
                   ≫= λ t, Ok {| base_dist := StandardNormal [n - (L - n)]%Z;
                                 transforms := [Registered t; LinkFlow link] |}))
    as Hdiag.
  { intros kw H1 H2 H3. unfold get_flow_builder, getitem. simpl.
    lookup_simpl. rewrite bind_Ok_l. simpl. unfold gaussian_diag_flow_builder.
    cbv zeta.
    rewrite (gaussian_builder_call _ n L link "affine_diag" kw AffineTransform
               (init_affine_diag zeros ones) H1 H2 H3 HL Hdim0); [|done..].
    unfold init_affine_diag. rewrite decide_False by lia. by rewrite bind_Ok_l. }
  assert (∀ kw, kw !! "shuffle" = None → kw !! "name" = None →
                kw !! "dim" = None →
            get_flow_builder loaded "gaussian" [n] link kw
              = (__init__ LowerCholeskyAffine []
                   (filter_kwrags_for_func LowerCholeskyAffine (gaussian_kwargs kw)
                      ∪ {[ "loc" := zeros (n - (L - n))%Z;
                           "scale_tril" := eye (n - (L - n))%Z ]})
                   ≫= λ t, Ok {| base_dist := StandardNormal [n - (L - n)]%Z;
                                 transforms := [Registered t; LinkFlow link] |}))
    as Htril.
  { intros kw H1 H2 H3. unfold get_flow_builder, getitem. simpl.
    lookup_simpl. rewrite bind_Ok_l. simpl. unfold gaussian_flow_builder.
    cbv zeta.
    rewrite (gaussian_builder_call _ n L link "affine_tril" kw LowerCholeskyAffine
               (init_affine_tril zeros eye) H1 H2 H3 HL Hdim0); [|done..].
    unfold init_affine_tril. rewrite decide_False by lia. by rewrite bind_Ok_l. }
  split_and!.
  - by apply Hdiag.
  - by apply Htril.
  - intros k v name Hk Hn.
    assert (k ≠ "shuffle" ∧ k ≠ "name" ∧ k ≠ "dim") as (? & ? & ?).
    { repeat (apply elem_of_cons in Hk as [->|Hk]); [done..|].
      by apply elem_of_nil in Hk. }
    apply elem_of_cons in Hn as [->|Hn];
      [|apply elem_of_cons in Hn as [->|Hn]; [|by apply elem_of_nil in Hn]].
    + rewrite !Hdiag by (by lookup_simpl). by rewrite gaussian_kwargs_insert.
    + rewrite !Htril by (by lookup_simpl). by rewrite gaussian_kwargs_insert.
  - intros v name Hn. unfold get_flow_builder, getitem. simpl.
    apply elem_of_cons in Hn as [->|Hn];
      [|apply elem_of_cons in Hn as [->|Hn]; [|by apply elem_of_nil in Hn]].
    + lookup_simpl. rewrite bind_Ok_l. simpl. unfold gaussian_diag_flow_builder.
      cbv zeta. rewrite decide_True; [done|]. lookup_simpl. by eexists.
    + lookup_simpl. rewrite bind_Ok_l. simpl. unfold gaussian_flow_builder.
      cbv zeta. rewrite decide_True; [done|]. lookup_simpl. by eexists.
Qed.

(** X20.  The four flow builders of the module fix the transform: a
    keyword [transform] of the caller is dropped by every builder.  The
    two coupling builders, "mcf" and "scf", need two dimensions: on an
    event shape [(n,)] with a working dimension of 0 or 1, keyword
    arguments without the keys "name" and "dim" and a number of flows of
    at least one (5 when [num_flows] is not given), they raise the
    [AssertionError] of their init function. *)
Theorem X20_flow_builders_fix_the_transform_and_coupling_needs_two_dimensions
    (g0 : G4) (n L m : Z) (link : Link) (kwargs : gmap string Val) :
  module' empty = Ok g0 →
  len (link_shape link [n]) = Ok L → (0 ≤ n - (L - n) ≤ 1)%Z →
  kwargs !! "name" = None → kwargs !! "dim" = None →
  default (Ok 5%Z) (int_of <$> kwargs !! "num_flows") = Ok m → (1 ≤ m)%Z →
  (∀ name,
     name ∈ ["mcf"; "scf"] →
     get_flow_builder g0 name [n] link kwargs
       = Raise (AssertionError
                  "In 1d this would be equivalent to affine flows, use them!")) ∧
  (∀ name v event_shape link_flow kw,
     name ∈ flow_names →
     get_flow_builder g0 name event_shape link_flow (<["transform" := v]> kw)
       = get_flow_builder g0 name event_shape link_flow kw).
Proof.
  intros Hmod HL Hdim1 Hname Hdim Hcount Hm.
  rewrite (module_loaded g0 Hmod). clear Hmod. split.
  - intros name Hn. unfold get_flow_builder, getitem. simpl.
    assert (default (Ok 5%Z) (int_of <$> delete "transform" kwargs !! "num_flows")
            = Ok m) as Hcount' by (by lookup_simpl).
    apply elem_of_cons in Hn as [->|Hn];
      [|apply elem_of_cons in Hn as [->|Hn]; [|by apply elem_of_nil in Hn]].
    + lookup_simpl. rewrite bind_Ok_l. simpl. unfold coupling_flow_builder.
      apply (call_build_flow_first_layer_fails _ n L m); try done; try lia.
      * by lookup_simpl.
      * unfold rest_of. by lookup_simpl.
      * unfold rest_of. by lookup_simpl.
      * rewrite (get_transform_known filter_kwrags_for_func _ "affine_coupling" _ _
                   AffineCoupling (init_affine_coupling affine_coupling_args));
          [|done..].
        unfold init_affine_coupling. by rewrite decide_False by lia.
    + lookup_simpl. rewrite bind_Ok_l. simpl. unfold spline_coupling_flow_builder.
      apply (call_build_flow_first_layer_fails _ n L m); try done; try lia.
      * by lookup_simpl.
      * unfold rest_of. by lookup_simpl.
      * unfold rest_of. by lookup_simpl.
      * rewrite (get_transform_known filter_kwrags_for_func _ "spline_coupling" _ _
                   SplineCoupling (init_spline_coupling spline_coupling_args));
          [|done..].
        unfold init_spline_coupling. by rewrite decide_False by lia.
  - intros name v event_shape link_flow kw Hn.
    unfold get_flow_builder, getitem. simpl. unfold flow_names in Hn.
    repeat (apply elem_of_cons in Hn as [->|Hn]);
      [..|by apply elem_of_nil in Hn];
      lookup_simpl; rewrite !bind_Ok_l; simpl;
      unfold gaussian_diag_flow_builder, gaussian_flow_builder,
        masked_autoregressive_flow_builder, spline_autoregressive_flow_builder,
        coupling_flow_builder, spline_coupling_flow_builder;
      by rewrite delete_insert_eq.
Qed.

End builtin_facts.

Import ModuleExample.

(** X19, witness: the concrete module, the event shape [(3,)], a caller
    who asks for seven flows. *)
Lemma X19_witness :
  ∃ g0,
    ex_module Registry.empty = Ok g0 ∧
    Flows.get_flow_builder g0 "gaussian_diag" [3%Z] ex_link_same
        {[ "num_flows" := 7%Z ]}
      = Ok {| Flows.base_dist := Flows.StandardNormal [3%Z];
              Flows.transforms := [Flows.Registered "AffineTransform";
                                   Flows.LinkFlow ex_link_same] |}.
Proof.
  eexists. split; [apply module_empty|].
  pose proof (module_empty (Dist := ()) ex_filter
                (ex_cls "AffineAutoregressive") (ex_cls "SplineAutoregressive")
                (ex_cls "AffineCoupling") (ex_cls "SplineCoupling")
                (ex_cls "AffineTransform") (ex_cls "LowerCholeskyAffine")
                (λ _, 0%Z) (λ _, 1%Z) (λ _, 1%Z) 0%Z
                ex_inits ex_inits ex_inits ex_inits
                (λ v, Ok v) (λ v, negb (v =? 0)%Z) (λ _, None)) as Hg0.
  assert (Flows.len (Flows.link_shape ex_link_same [3%Z]) = Ok 3%Z) as HL
    by reflexivity.
  assert (0 ≤ 3 - (3 - 3))%Z as Hdim by lia.
  assert (({[ "num_flows" := 7%Z ]} : gmap string Z) !! "shuffle" = None) as H1
    by (by vm_compute).
  assert (({[ "num_flows" := 7%Z ]} : gmap string Z) !! "name" = None) as H2
    by (by vm_compute).
  assert (({[ "num_flows" := 7%Z ]} : gmap string Z) !! "dim" = None) as H3
    by (by vm_compute).
  destruct (X19_gaussian_builders_build_one_affine_layer_on_a_standard_normal
              _ _ _ _ _ _ _ _ _ _ _ _ _ _ _ _ _ _ _ 3 3 ex_link_same
              {[ "num_flows" := 7%Z ]} Hg0 HL Hdim H1 H2 H3) as (Hdiag & _).
  rewrite Hdiag. reflexivity.
Defined.

(** X20, witness: the concrete module, the coupling flow "mcf" on the
    event shape [(1,)]. *)
Lemma X20_witness :
  ∃ g0,
    ex_module Registry.empty = Ok g0 ∧
    Flows.get_flow_builder g0 "mcf" [1%Z] ex_link_same ∅
      = Raise (AssertionError
                 "In 1d this would be equivalent to affine flows, use them!").
Proof.
  eexists. split; [apply module_empty|].
  pose proof (module_empty (Dist := ()) ex_filter
                (ex_cls "AffineAutoregressive") (ex_cls "SplineAutoregressive")
                (ex_cls "AffineCoupling") (ex_cls "SplineCoupling")
                (ex_cls "AffineTransform") (ex_cls "LowerCholeskyAffine")
                (λ _, 0%Z) (λ _, 1%Z) (λ _, 1%Z) 0%Z
                ex_inits ex_inits ex_inits ex_inits
                (λ v, Ok v) (λ v, negb (v =? 0)%Z) (λ _, None)) as Hg0.
  assert (Flows.len (Flows.link_shape ex_link_same [1%Z]) = Ok 1%Z) as HL
    by reflexivity.
  assert (0 ≤ 1 - (1 - 1) ≤ 1)%Z as Hdim by lia.
  assert ((∅ : gmap string Z) !! "name" = None) as H2 by (by vm_compute).
  assert ((∅ : gmap string Z) !! "dim" = None) as H3 by (by vm_compute).
  assert (default (Ok 5%Z) ((λ v : Z, Ok v) <$> (∅ : gmap string Z) !! "num_flows")
          = Ok 5%Z) as H5 by (by vm_compute).
  assert (1 ≤ 5)%Z as Hm by lia.
  destruct (X20_flow_builders_fix_the_transform_and_coupling_needs_two_dimensions
              _ _ _ _ _ _ _ _ _ _ _ _ _ _ _ _ _ _ _ 1 1 5 ex_link_same ∅
              Hg0 HL Hdim H2 H3 H5 Hm) as (Hmcf & _).
  apply Hmcf. apply list_elem_of_here.
Defined.
